(** * movie-embed: the MegaCloud source resolver and the title matcher

    A shallow embedding of
      - [src/extractors/megacloud.ts]: [extractNonce] and the class
        [MegaCloud] (module [Extractors]);
      - the variant of that extractor that decrypts flagged payloads locally:
        [evpBytesToKey], [decryptOpenSSL], [decryptLocally] and its
        [MegaCloud] (module [LocalDecrypt]);
      - the variant that knows the salted strategy only and detects
        encryption by the shape of the payload (module [SaltedOnly]);
      - [isTitleSimilarEnough] and [findBestFlixHQMatch] of the HTTP server
        (module [Server]);
      - the two variants that send the ciphertext to a remote decoding
        service: [decryptWithGoogleScript] and its two [MegaCloud] classes
        (modules [RemoteDecrypt], [RemoteByFlag] and [RemoteByShape]);
      - the cache helpers [cacheGet], [cacheSet] and [cacheFetch] (module
        [Cache]), the handlers of the Redis client (module [RedisClient]),
        [getTMDBDetails] and the handlers of [/movie] and [/tv] (modules
        [TvRoute] and [Routes]);
      - the list of ids of the script that sends the test requests (module
        [LoadScript]);
    followed by the properties stated about them.

    JavaScript strings are sequences of UTF-16 code units; a code unit is a
    number below 65536, modelled as [N]. Buffers are lists of bytes, and
    UTF-8 and base64 are modelled as Node reads and writes them (modules
    [Utf8] and [Base64]). Numbers are the integers and infinities among the
    doubles, with the rounding of doubles (module [Double]). *)

From Stdlib Require Import String Ascii List NArith ZArith Bool Arith Lia.
From Stdlib Require Import Strings.Byte.
Import ListNotations.

Set Implicit Arguments.

(* ------------------------------------------------------------------ *)
(** * JavaScript strings                                                *)
(* ------------------------------------------------------------------ *)

Definition jsstring : Type := list N.

(** A literal of the source, code unit by code unit (literals of the source
    are ASCII). *)
Definition js (s : string) : jsstring :=
  map N_of_ascii (list_ascii_of_string s).

Definition jsstring_eqb (a b : jsstring) : bool :=
  if list_eq_dec N.eq_dec a b then true else false.

Module CharClass.

Definition in_range (lo hi c : N) : bool := (lo <=? c)%N && (c <=? hi)%N.

(** [[a-zA-Z0-9]] *)
Definition alnum (c : N) : bool :=
  in_range 97 122 c || in_range 65 90 c || in_range 48 57 c.

(** [\w], the word characters that decide [\b]: [[A-Za-z0-9_]] *)
Definition word (c : N) : bool := alnum c || (c =? 95)%N.

(** ECMAScript LineTerminator: LF, CR, LS, PS *)
Definition line_terminator (c : N) : bool :=
  (c =? 10)%N || (c =? 13)%N || (c =? 8232)%N || (c =? 8233)%N.

(** [.] without the [s] flag *)
Definition dot (c : N) : bool := negb (line_terminator c).

(** a literal character *)
Definition lit (a : ascii) (c : N) : bool := (c =? N_of_ascii a)%N.

(** any code unit but the double quote (34) *)
Definition not_quote (c : N) : bool := negb (c =? 34)%N.

End CharClass.

(* ------------------------------------------------------------------ *)
(** * The fragment of ECMAScript regular expressions the source uses    *)
(* ------------------------------------------------------------------ *)

Module Regex.

Inductive regex : Type :=
| Chr (p : N -> bool)               (* a class, a literal or [.] *)
| WordB                             (* [\b] *)
| Seq (r1 r2 : regex)
| Repeat (n : nat) (r : regex)      (* [r{n}] *)
| LazyStar (p : N -> bool)          (* [c*?] on a one-character pattern *)
| Plus (p : N -> bool)              (* greedy [c+] on a one-character pattern *)
| Group (i : nat) (r : regex).      (* the i-th capture group *)

(** The matcher walks the input with a cursor: the code units before the
    cursor (nearest first) and those after it. *)
Definition cursor : Type := (list N * list N)%type.

(** Capture groups: number and captured text, latest first. *)
Definition captures : Type := list (nat * jsstring).

Definition is_word_at (l : list N) : bool :=
  match l with
  | c :: _ => CharClass.word c
  | [] => false
  end.

(** [\b] holds where exactly one side of the cursor is a word character. *)
Definition boundary (c : cursor) : bool :=
  xorb (is_word_at (fst c)) (is_word_at (snd c)).

(** What a group captured between two cursor positions. *)
Definition consumed (from to : cursor) : jsstring :=
  firstn (length (snd from) - length (snd to)) (snd from).

Section Matcher.
Variable R : Type.

Definition cont : Type := cursor -> captures -> option R.

Fixpoint lazy_star (p : N -> bool) (b a : list N) (caps : captures)
         (k : cont) : option R :=
  match k (b, a) caps with
  | Some r => Some r
  | None =>
      match a with
      | c :: a' => if p c then lazy_star p (c :: b) a' caps k else None
      | [] => None
      end
  end.

Fixpoint greedy_star (p : N -> bool) (b a : list N) (caps : captures)
         (k : cont) : option R :=
  match a with
  | c :: a' =>
      if p c then
        match greedy_star p (c :: b) a' caps k with
        | Some r => Some r
        | None => k (b, a) caps
        end
      else k (b, a) caps
  | [] => k (b, a) caps
  end.

(** Backtracking matcher in continuation-passing style: [k] is the rest
    of the pattern; [None] makes the caller try its next alternative. *)
Fixpoint rmatch (r : regex) (cur : cursor) (caps : captures) (k : cont)
  : option R :=
  match r with
  | Chr p =>
      match snd cur with
      | c :: a' => if p c then k (c :: fst cur, a') caps else None
      | [] => None
      end
  | WordB => if boundary cur then k cur caps else None
  | Seq r1 r2 =>
      rmatch r1 cur caps (fun cur' caps' => rmatch r2 cur' caps' k)
  | Repeat n r' =>
      (fix rep (n : nat) (cur : cursor) (caps : captures) : option R :=
         match n with
         | O => k cur caps
         | S n' => rmatch r' cur caps (fun cur' caps' => rep n' cur' caps')
         end) n cur caps
  | LazyStar p => lazy_star p (fst cur) (snd cur) caps k
  | Plus p =>
      match snd cur with
      | c :: a' =>
          if p c then greedy_star p (c :: fst cur) a' caps k else None
      | [] => None
      end
  | Group i r' =>
      rmatch r' cur caps
             (fun cur' caps' => k cur' ((i, consumed cur cur') :: caps'))
  end.
End Matcher.

(** The array [String.prototype.match] returns for a pattern without the
    [g] flag: index 0 is the matched text, index i the i-th group. *)
Record match_result : Type := MkMatch {
  whole : jsstring;
  groups : captures
}.

Definition group (m : match_result) (i : nat) : option jsstring :=
  match find (fun e => Nat.eqb (fst e) i) (groups m) with
  | Some e => Some (snd e)
  | None => None
  end.

Definition match_here (r : regex) (cur : cursor) : option match_result :=
  rmatch r cur [] (fun cur' caps => Some (MkMatch (consumed cur cur') caps)).

(** The leftmost start position wins: the pattern is tried at the cursor
    and then one code unit further, up to and including the end. *)
Fixpoint search (r : regex) (b a : list N) : option match_result :=
  match match_here r (b, a) with
  | Some m => Some m
  | None =>
      match a with
      | c :: a' => search r (c :: b) a'
      | [] => None
      end
  end.

(** [s.match(r)]; [None] is [null]. *)
Definition js_match (s : jsstring) (r : regex) : option match_result :=
  search r [] s.

(** A literal string as a pattern. *)
Fixpoint literal (l : list ascii) (rest : regex) : regex :=
  match l with
  | [] => rest
  | a :: l' => Seq (Chr (CharClass.lit a)) (literal l' rest)
  end.

End Regex.

(* ------------------------------------------------------------------ *)
(** * Token extractor ([extractNonce], shared by every resolver variant) *)
(* ------------------------------------------------------------------ *)

Import Regex.

(** [/\b[a-zA-Z0-9]{48}\b/] *)
Definition re_nonce48 : regex :=
  Seq WordB (Seq (Repeat 48 (Chr CharClass.alnum)) WordB).

(** [\b([a-zA-Z0-9]{16})\b], group number [i] *)
Definition re_seg16 (i : nat) : regex :=
  Seq WordB (Seq (Group i (Repeat 16 (Chr CharClass.alnum))) WordB).

(** [/\b([a-zA-Z0-9]{16})\b.*?\b([a-zA-Z0-9]{16})\b.*?\b([a-zA-Z0-9]{16})\b/] *)
Definition re_nonce16x3 : regex :=
  Seq (re_seg16 1)
      (Seq (LazyStar CharClass.dot)
           (Seq (re_seg16 2)
                (Seq (LazyStar CharClass.dot) (re_seg16 3)))).

Definition group_or_empty (m : match_result) (i : nat) : jsstring :=
  match group m i with
  | Some s => s
  | None => []
  end.

Definition extractNonce (html : jsstring) : option jsstring :=
  match js_match html re_nonce48 with
  | Some match1 => Some (whole match1)
  | None =>
      match js_match html re_nonce16x3 with
      | Some match2 =>
          Some (group_or_empty match2 1 ++ group_or_empty match2 2
                  ++ group_or_empty match2 3)
      | None => None
      end
  end.


(* ------------------------------------------------------------------ *)
(** * Buffers                                                           *)
(* ------------------------------------------------------------------ *)

Definition bytes : Type := list byte.

Definition byte_of_N (n : N) : byte :=
  match Byte.of_N (n mod 256) with
  | Some b => b
  | None => x00
  end.

Definition bytes_eqb (a b : bytes) : bool :=
  if list_eq_dec Byte.byte_eq_dec a b then true else false.

(** [Buffer.from('...')] of an ASCII literal. *)
Definition ascii_bytes (s : string) : bytes := list_byte_of_string s.

(** [buf.slice(from, to)] for [from <= to]. *)
Definition slice (from to : nat) (buf : bytes) : bytes :=
  firstn (to - from) (skipn from buf).

(** ** UTF-8, as [Buffer.from(s)] writes it and [buf.toString('utf8')] reads
    it *)

Module Utf8.

Local Open Scope N_scope.

(** U+FFFD, the replacement character, and its three bytes. *)
Definition replacement : N := 65533.
Definition replacement_bytes : list N := [239; 191; 189].

Definition high_surrogate (c : N) : bool := CharClass.in_range 55296 56319 c.
Definition low_surrogate (c : N) : bool := CharClass.in_range 56320 57343 c.
Definition continuation (b : N) : bool := CharClass.in_range 128 191 b.

(** The bytes of a string, as numbers: one to three bytes for a code unit
    that is no surrogate, four for a surrogate pair, and the bytes of U+FFFD
    for a surrogate without its partner. *)
Fixpoint encode_units (s : jsstring) : list N :=
  match s with
  | [] => []
  | c :: rest =>
      if c <? 128 then c :: encode_units rest
      else if c <? 2048
      then 192 + c / 64 :: 128 + c mod 64 :: encode_units rest
      else if high_surrogate c
      then match rest with
           | d :: rest' =>
               if low_surrogate d
               then let cp := 65536 + (c - 55296) * 1024 + (d - 56320) in
                    240 + cp / 262144 :: 128 + (cp / 4096) mod 64
                      :: 128 + (cp / 64) mod 64 :: 128 + cp mod 64
                      :: encode_units rest'
               else replacement_bytes ++ encode_units rest
           | [] => replacement_bytes
           end
      else if low_surrogate c
      then replacement_bytes ++ encode_units rest
      else 224 + c / 4096 :: 128 + (c / 64) mod 64 :: 128 + c mod 64
             :: encode_units rest
  end.

(** [Buffer.from(s)], [Buffer.from(s, 'utf8')] *)
Definition encode (s : jsstring) : bytes := map byte_of_N (encode_units s).

(** The code units of a code point. *)
Definition units (cp : N) : jsstring :=
  if cp <? 65536 then [cp]
  else [55296 + (cp - 65536) / 1024; 56320 + (cp - 65536) mod 1024].

(** The bounds of the byte that follows the lead byte [b]: they rule out the
    overlong forms, the surrogates and the code points above U+10FFFF. *)
Definition second_lower (b : N) : N :=
  if b =? 224 then 160 else if b =? 240 then 144 else 128.
Definition second_upper (b : N) : N :=
  if b =? 237 then 159 else if b =? 244 then 143 else 191.

(** The decoder: a sequence that is not well formed gives one U+FFFD for its
    longest prefix that could begin a character, and decoding resumes at the
    byte that did not fit. *)
Fixpoint decode_bytes (l : list N) : jsstring :=
  match l with
  | [] => []
  | b :: rest =>
      if b <? 128 then b :: decode_bytes rest
      else if CharClass.in_range 194 223 b
      then match rest with
           | c1 :: rest1 =>
               if continuation c1
               then (b - 192) * 64 + (c1 - 128) :: decode_bytes rest1
               else replacement :: decode_bytes rest
           | [] => [replacement]
           end
      else if CharClass.in_range 224 239 b
      then match rest with
           | c1 :: rest1 =>
               if CharClass.in_range (second_lower b) (second_upper b) c1
               then match rest1 with
                    | c2 :: rest2 =>
                        if continuation c2
                        then ((b - 224) * 64 + (c1 - 128)) * 64 + (c2 - 128)
                               :: decode_bytes rest2
                        else replacement :: decode_bytes rest1
                    | [] => [replacement]
                    end
               else replacement :: decode_bytes rest
           | [] => [replacement]
           end
      else if CharClass.in_range 240 244 b
      then match rest with
           | c1 :: rest1 =>
               if CharClass.in_range (second_lower b) (second_upper b) c1
               then match rest1 with
                    | c2 :: rest2 =>
                        if continuation c2
                        then match rest2 with
                             | c3 :: rest3 =>
                                 if continuation c3
                                 then units ((((b - 240) * 64 + (c1 - 128)) * 64
                                              + (c2 - 128)) * 64 + (c3 - 128))
                                        ++ decode_bytes rest3
                                 else replacement :: decode_bytes rest2
                             | [] => [replacement]
                             end
                        else replacement :: decode_bytes rest1
                    | [] => [replacement]
                    end
               else replacement :: decode_bytes rest
           | [] => [replacement]
           end
      else replacement :: decode_bytes rest
  end.

(** [buf.toString('utf8')], [buf.toString()] *)
Definition decode (b : bytes) : jsstring := decode_bytes (map Byte.to_N b).

(** A string in which every surrogate has its partner. *)
Fixpoint well_formed (s : jsstring) : bool :=
  match s with
  | [] => true
  | c :: rest =>
      if high_surrogate c
      then match rest with
           | d :: rest' => low_surrogate d && well_formed rest'
           | [] => false
           end
      else negb (low_surrogate c) && (c <? 65536) && well_formed rest
  end.

End Utf8.

Module Base64.

(** [Buffer.from(s, 'base64')] reads a string code unit by code unit and
    keeps the low byte of each: a code unit from 256 on counts as the
    character of its low byte. *)
Definition low_byte (c : N) : N := (c mod 256)%N.

(** The value of a character of the base64 alphabet; Node reads the URL-safe
    alphabet as well. *)
Definition unbase64 (c : N) : option N :=
  if CharClass.in_range 65 90 c then Some (c - 65)%N
  else if CharClass.in_range 97 122 c then Some (c - 71)%N
  else if CharClass.in_range 48 57 c then Some (c + 4)%N
  else if (c =? 43)%N || (c =? 45)%N then Some 62%N
  else if (c =? 47)%N || (c =? 95)%N then Some 63%N
  else None.

(** Characters outside the alphabet are skipped; the padding [=] (61) ends
    the decoding. *)
Fixpoint sextets (s : jsstring) : list N :=
  match s with
  | [] => []
  | c :: s' =>
      let b := low_byte c in
      if (b =? 61)%N then []
      else match unbase64 b with
           | Some v => v :: sextets s'
           | None => sextets s'
           end
  end.

Fixpoint decode_groups (l : list N) : bytes :=
  match l with
  | s1 :: s2 :: s3 :: s4 :: rest =>
      byte_of_N (s1 * 4 + s2 / 16)
        :: byte_of_N ((s2 mod 16) * 16 + s3 / 4)
        :: byte_of_N ((s3 mod 4) * 64 + s4)
        :: decode_groups rest
  | [s1; s2; s3] =>
      [byte_of_N (s1 * 4 + s2 / 16); byte_of_N ((s2 mod 16) * 16 + s3 / 4)]
  | [s1; s2] => [byte_of_N (s1 * 4 + s2 / 16)]
  | _ => []
  end.

(** [Buffer.from(s, 'base64')]: never throws. *)
Definition decode (s : jsstring) : bytes := decode_groups (sextets s).

Definition alphabet : jsstring :=
  js "ABCDEFGHIJKLMNOPQRSTUVWXYZabcdefghijklmnopqrstuvwxyz0123456789+/".

Definition b64char (v : N) : N := nth (N.to_nat v) alphabet 61%N.

(** The standard encoder ([buf.toString('base64')]), with [=] padding. *)
Fixpoint encode (l : bytes) : jsstring :=
  match l with
  | b1 :: b2 :: b3 :: rest =>
      let n1 := Byte.to_N b1 in
      let n2 := Byte.to_N b2 in
      let n3 := Byte.to_N b3 in
      b64char (n1 / 4)
        :: b64char ((n1 mod 4) * 16 + n2 / 16)
        :: b64char ((n2 mod 16) * 4 + n3 / 64)
        :: b64char (n3 mod 64)
        :: encode rest
  | [b1; b2] =>
      let n1 := Byte.to_N b1 in
      let n2 := Byte.to_N b2 in
      [b64char (n1 / 4); b64char ((n1 mod 4) * 16 + n2 / 16);
       b64char ((n2 mod 16) * 4); 61%N]
  | [b1] =>
      let n1 := Byte.to_N b1 in
      [b64char (n1 / 4); b64char ((n1 mod 4) * 16); 61%N; 61%N]
  | [] => []
  end.

End Base64.

(* ------------------------------------------------------------------ *)
(** * What the code takes from Node and from the network                *)
(* ------------------------------------------------------------------ *)

Set Warnings "-register-all".

(** A parsed JSON text. An object is the list of its members, each name
    once, as [JSON.parse] builds it; numbers are integers. *)
Inductive json : Type :=
| JNull
| JBool (b : bool)
| JNumber (z : Z)
| JString (s : jsstring)
| JArray (l : list json)
| JObject (fields : list (jsstring * json)).

(** A [URL] object, as far as the code reads it. *)
Record URL : Type := {
  href : jsstring;
  pathname : jsstring
}.

(** The functions of [crypto], [Buffer], [JSON], [String] and [URL] the code
    calls; their implementation is Node's, not the repository's. *)
Record primitives : Type := {
  md5 : bytes -> bytes;                      (* createHash('md5') ... digest() *)
  sha256 : bytes -> bytes;                   (* createHash('sha256') ... digest() *)
  aes256_encrypt_block : bytes -> bytes -> bytes;   (* key, 16-byte block *)
  aes256_decrypt_block : bytes -> bytes -> bytes;
  utf8_encode : jsstring -> bytes;           (* Buffer.from(s) *)
  utf8_decode : bytes -> jsstring;           (* buf.toString('utf8') *)
  JSON_parse : jsstring -> option json;      (* None: SyntaxError *)
  toLowerCase : jsstring -> jsstring;
  new_URL : jsstring -> option URL           (* None: TypeError, invalid URL *)
}.

(** What the code relies on: MD5 digests have 16 bytes, and AES-256 is a
    permutation of the 16-byte blocks under every 32-byte key. *)
Record primitives_ok (P : primitives) : Prop := {
  md5_length : forall x, length (md5 P x) = 16;
  aes256_block_length :
    forall key block, length key = 32 -> length block = 16 ->
                      length (aes256_encrypt_block P key block) = 16;
  aes256_block_inverse :
    forall key block, length key = 32 -> length block = 16 ->
      aes256_decrypt_block P key (aes256_encrypt_block P key block) = block
}.

(** The two conversions between strings and buffers are those of Node. *)
Definition utf8_as_node (P : primitives) : Prop :=
  (forall s, utf8_encode P s = Utf8.encode s) /\
  (forall b, utf8_decode P b = Utf8.decode b).

(** ** [aes-256-cbc] as [createCipheriv] and [createDecipheriv] run it *)

Module Cbc.

Definition byte_xor (x y : byte) : byte :=
  let '(a0, (a1, (a2, (a3, (a4, (a5, (a6, a7))))))) := Byte.to_bits x in
  let '(b0, (b1, (b2, (b3, (b4, (b5, (b6, b7))))))) := Byte.to_bits y in
  Byte.of_bits (xorb a0 b0, (xorb a1 b1, (xorb a2 b2, (xorb a3 b3,
               (xorb a4 b4, (xorb a5 b5, (xorb a6 b6, xorb a7 b7))))))).

Fixpoint xor_bytes (a b : bytes) : bytes :=
  match a, b with
  | x :: a', y :: b' => byte_xor x y :: xor_bytes a' b'
  | _, _ => []
  end.

Definition byte_of_nat (n : nat) : byte :=
  match Byte.of_nat n with
  | Some b => b
  | None => x00
  end.

(** PKCS#7: [n] bytes of value [n], [1 <= n <= 16], up to the block size. *)
Definition pad (p : bytes) : bytes :=
  let n := 16 - length p mod 16 in
  p ++ repeat (byte_of_nat n) n.

(** [decipher.final()] checks every padding byte; [None] is the error it
    throws. *)
Definition unpad (p : bytes) : option bytes :=
  let n := Byte.to_nat (last p x00) in
  if (1 <=? n) && (n <=? 16) && (n <=? length p)
     && forallb (Byte.eqb (last p x00)) (skipn (length p - n) p)
  then Some (firstn (length p - n) p)
  else None.

Fixpoint encrypt_blocks (E : bytes -> bytes) (n : nat) (prev pt : bytes) : bytes :=
  match n with
  | O => []
  | S n' =>
      let c := E (xor_bytes (firstn 16 pt) prev) in
      c ++ encrypt_blocks E n' c (skipn 16 pt)
  end.

Fixpoint decrypt_blocks (D : bytes -> bytes) (n : nat) (prev ct : bytes) : bytes :=
  match n with
  | O => []
  | S n' =>
      let c := firstn 16 ct in
      xor_bytes (D c) prev ++ decrypt_blocks D n' c (skipn 16 ct)
  end.

(** [createCipheriv('aes-256-cbc', key, iv)], [update], [final]. *)
Definition encrypt (P : primitives) (key iv pt : bytes) : bytes :=
  let padded := pad pt in
  encrypt_blocks (aes256_encrypt_block P key) (length padded / 16) iv padded.

(** [createDecipheriv('aes-256-cbc', key, iv)], [update], [final]; [None]
    when one of them throws: a key that is not 32 bytes, an IV that is not 16
    bytes, a ciphertext that is empty or not a whole number of blocks, a bad
    padding. *)
Definition decrypt (P : primitives) (key iv ct : bytes) : option bytes :=
  if (length key =? 32) && (length iv =? 16)
     && (0 <? length ct) && (length ct mod 16 =? 0)
  then unpad (decrypt_blocks (aes256_decrypt_block P key) (length ct / 16) iv ct)
  else None.

End Cbc.

(* ------------------------------------------------------------------ *)
(** * Effects: exceptions, the calls made, the object under construction *)
(* ------------------------------------------------------------------ *)

(** How a call ends. [Diverge] is a loop that never exits. *)
Inductive outcome (A : Type) : Type :=
| Return (a : A)
| Throw (message : string)
| Diverge.
Arguments Throw {A} message.
Arguments Diverge {A}.

(** What a resolution does to the outside, in the order it happens: the
    three kinds of [axios.get] (the embed page, the sources endpoint, the
    key document at [KEY_URL]) and the entries into a decryption strategy. *)
Inductive call : Type :=
| FetchPage (url : jsstring)
| FetchSources (url : jsstring)
| FetchKeys
| Decrypt (strategy : string).

(** A computation over a mutable object of type [S]. *)
Definition M (S A : Type) : Type := S -> outcome A * S * list call.

Definition ret {S A : Type} (a : A) : M S A := fun s => (Return a, s, []).

Definition throw {S A : Type} (message : string) : M S A :=
  fun s => (Throw message, s, []).

Definition bind {S A B : Type} (m : M S A) (f : A -> M S B) : M S B :=
  fun s =>
    match m s with
    | (Return a, s', t) =>
        match f a s' with
        | (r, s'', t') => (r, s'', t ++ t')
        end
    | (Throw e, s', t) => (Throw e, s', t)
    | (Diverge, s', t) => (Diverge, s', t)
    end.

(** [try { m } catch (err) { h err }] *)
Definition try_catch {S A : Type} (m : M S A) (h : string -> M S A) : M S A :=
  fun s =>
    match m s with
    | (Throw e, s', t) =>
        match h e s' with
        | (r, s'', t') => (r, s'', t ++ t')
        end
    | other => other
    end.

Definition emit {S : Type} (c : call) : M S unit := fun s => (Return tt, s, [c]).

Definition get {S : Type} : M S S := fun s => (Return s, s, []).

Definition modify {S : Type} (f : S -> S) : M S unit :=
  fun s => (Return tt, f s, []).

(** A call that has no access to the object. *)
Definition lift {S A : Type} (o : outcome A) : M S A := fun s => (o, s, []).

(** A promise that resolves with a value or is rejected. *)
Definition await {S A : Type} (message : string) (o : option A) : M S A :=
  match o with
  | Some a => ret a
  | None => throw message
  end.

Declare Scope effect_scope.
Delimit Scope effect_scope with effect.
Notation "x <- m ;; k" := (bind m (fun x => k))
  (at level 61, m at next level, right associativity) : effect_scope.
Notation "m ;; k" := (bind m (fun _ => k))
  (at level 61, right associativity) : effect_scope.

(** A call of a method of a fresh object: what it returns, what it did. *)
Definition run {S A : Type} (m : M S A) (init : S) : outcome A * list call :=
  match m init with
  | (r, _, t) => (r, t)
  end.

(** A call inside another computation, on an object of its own. *)
Definition call_with {S S' A : Type} (m : M S' A) (init : S') : M S A :=
  fun s => match m init with (r, _, t) => (r, s, t) end.

(* ------------------------------------------------------------------ *)
(** * The payload of the sources endpoint and the result                *)
(* ------------------------------------------------------------------ *)

Record track : Type := {
  track_file : jsstring;
  track_label : option jsstring;
  track_kind : jsstring;
  track_default : option bool
}.

(** An element of [sources]: [{ file, type }], [type] possibly missing. *)
Record source_entry : Type := {
  entry_file : jsstring;
  entry_type : option jsstring
}.

Inductive sources_field : Type :=
| SourcesString (s : jsstring)
| SourcesArray (l : list source_entry)
| SourcesAbsent.                     (* missing or null *)

(** [extractedSrc], as the JSON response carries it. *)
Record extractedSrc : Type := {
  sources : sources_field;
  tracks : option (list track);      (* None: missing *)
  t : option Z;
  server : option Z;
  encrypted : option bool
}.

(** The key document, read as the code reads it: the secret fields that are
    present and hold a string. *)
Record key_document : Type := {
  vidstr : option jsstring;
  rabbit : option jsstring;
  rabbitstream_key : option jsstring
}.

(** The network, as one resolution sees it: the response to each request,
    [None] for a request that fails. *)
Record world : Type := {
  embed_page : jsstring -> option jsstring;
  getSources : jsstring -> option (option extractedSrc);  (* Some None: the body null *)
  key_file : option key_document
}.

(** An entry of the [sources] that a resolver returns. Its [file] is a
    string wherever it is taken from the payload, which is typed; the
    resolver with local decryption takes it from the decrypted JSON, where it
    is whatever truthy value the member holds. A string stands for itself. *)
Coercion JString : jsstring >-> json.

Record resolved_source : Type := {
  file : json;
  type : jsstring
}.

Record ExtractedData : Type := {
  data_sources : list resolved_source;
  data_tracks : list track;
  data_t : Z;
  data_server : Z
}.

(** What [MegaCloud.extract] returns: [{ sources, tracks? }]. *)
Record resolution : Type := {
  result_sources : list resolved_source;
  result_tracks : option (list track)
}.

Definition MAIN_URL : jsstring := js "https://videostr.net".

Definition KEY_URL : jsstring :=
  js "https://raw.githubusercontent.com/yogesh-hacker/MegacloudKeys/refs/heads/main/keys.json".

(** [`${MAIN_URL}/embed-1/v3/e-1/getSources?id=${fileId}&_k=${nonce}`] *)
Definition getSources_url (fileId nonce : jsstring) : jsstring :=
  MAIN_URL ++ js "/embed-1/v3/e-1/getSources?id=" ++ fileId ++ js "&_k=" ++ nonce.

(** [/data-id=Q([^Q]+)Q/], where Q stands for the double quote, code unit
    34. *)
Definition re_data_id : regex :=
  literal (list_ascii_of_string "data-id=")
    (Seq (Chr (fun c => (c =? 34)%N))
         (Seq (Group 1 (Plus CharClass.not_quote)) (Chr (fun c => (c =? 34)%N)))).

(** [html.match(/data-id=.../)?.[1]] *)
Definition file_id (html : jsstring) : option jsstring :=
  match js_match html re_data_id with
  | Some m => group m 1
  | None => None
  end.

(** Truthiness of a string that may be missing. *)
Definition truthy_string (s : option jsstring) : bool :=
  match s with
  | Some (_ :: _) => true
  | _ => false
  end.

Definition truthy_sources (s : sources_field) : bool :=
  match s with
  | SourcesString (_ :: _) => true
  | SourcesString [] => false
  | SourcesArray _ => true        (* an array is truthy, the empty one too *)
  | SourcesAbsent => false
  end.

Definition truthy_flag (b : option bool) : bool :=
  match b with
  | Some true => true
  | _ => false
  end.

(** [src.type || 'hls'] *)
Definition type_or_hls (ty : option jsstring) : jsstring :=
  match ty with
  | Some (c :: s) => c :: s
  | _ => js "hls"
  end.

(** [track.kind === 'captions' || track.kind === 'subtitles'] *)
Definition caption_or_subtitle (tr : track) : bool :=
  jsstring_eqb (track_kind tr) (js "captions")
  || jsstring_eqb (track_kind tr) (js "subtitles").

(** [x || 0] on a number that may be missing *)
Definition number_or_0 (z : option Z) : Z :=
  match z with
  | Some n => n
  | None => 0%Z
  end.

(** [x || []] *)
Definition list_or_empty {A : Type} (l : option (list A)) : list A :=
  match l with
  | Some x => x
  | None => []
  end.

(* ------------------------------------------------------------------ *)
(** * src/extractors/megacloud.ts                                       *)
(* ------------------------------------------------------------------ *)

Module Extractors.

Local Open Scope effect_scope.

Definition extract2 (w : world) (embedIframeURL : URL)
  : M unit ExtractedData :=
  emit (FetchPage (href embedIframeURL)) ;;
  html <- await "Request failed" (embed_page w (href embedIframeURL)) ;;
  (* Extract fileId *)
  fileId <- (if truthy_string (file_id html)
             then ret (match file_id html with Some f => f | None => [] end)
             else throw "Could not find file ID in embed page") ;;
  (* Extract nonce *)
  nonce <- (if truthy_string (extractNonce html)
            then ret (match extractNonce html with Some n => n | None => [] end)
            else throw "Could not extract nonce from embed page") ;;
  (* Call getSources endpoint *)
  let apiUrl := getSources_url fileId nonce in
  emit (FetchSources apiUrl) ;;
  response <- await "Request failed" (getSources w apiUrl) ;;
  data <- await "TypeError: Cannot read properties of null" response ;;
  let sources :=
    match sources data with
    | SourcesArray l =>
        map (fun src => {| file := entry_file src;
                           type := type_or_hls (entry_type src) |}) l
    | SourcesString s => [{| file := s; type := js "hls" |}]
    | SourcesAbsent => []
    end in
  let tracks := filter caption_or_subtitle (list_or_empty (tracks data)) in
  ret {| data_sources := sources;
         data_tracks := tracks;
         data_t := number_or_0 (t data);
         data_server := number_or_0 (server data) |}.

Definition extract (P : primitives) (w : world) (url : jsstring)
  : M unit resolution :=
  embedUrl <- await "TypeError: Invalid URL" (new_URL P url) ;;
  result <- extract2 w embedUrl ;;
  ret {| result_sources := data_sources result;
         result_tracks := Some (data_tracks result) |}.

End Extractors.

(* ------------------------------------------------------------------ *)
(** * The resolver with local decryption (flagged payloads)             *)
(* ------------------------------------------------------------------ *)

(** The argument that [Buffer.from(_, 'base64')] receives. It is typed
    [string]; the cast [data.sources as string] at the call site is
    unchecked, so at run time it is a string or the array of sources, whose
    entries [Buffer.from] reads as bytes, an object as 0. *)
Inductive encoded : Type :=
| EncodedString (s : jsstring)
| EncodedArray (n : nat).

Definition Buffer_from_base64 (e : encoded) : bytes :=
  match e with
  | EncodedString s => Base64.decode s
  | EncodedArray n => repeat x00 n
  end.

Definition as_encoded (s : sources_field) : encoded :=
  match s with
  | SourcesString x => EncodedString x
  | SourcesArray l => EncodedArray (length l)
  | SourcesAbsent => EncodedString []
  end.

(** [try { a } catch {}] followed by [b]: [b] runs when [a] throws. *)
Definition or_else {A : Type} (a b : outcome A) : outcome A :=
  match a with
  | Throw _ => b
  | other => other
  end.

Definition ExtractedData_init : ExtractedData :=
  {| data_sources := []; data_tracks := []; data_t := 0%Z; data_server := 0%Z |}.

Definition set_sources (l : list resolved_source) (d : ExtractedData) : ExtractedData :=
  {| data_sources := l; data_tracks := data_tracks d;
     data_t := data_t d; data_server := data_server d |}.

Definition set_tracks (l : list track) (d : ExtractedData) : ExtractedData :=
  {| data_sources := data_sources d; data_tracks := l;
     data_t := data_t d; data_server := data_server d |}.

Definition set_t (z : Z) (d : ExtractedData) : ExtractedData :=
  {| data_sources := data_sources d; data_tracks := data_tracks d;
     data_t := z; data_server := data_server d |}.

Definition set_server (z : Z) (d : ExtractedData) : ExtractedData :=
  {| data_sources := data_sources d; data_tracks := data_tracks d;
     data_t := data_t d; data_server := z |}.

(** The member [name] of the fields of an object. *)
Fixpoint lookup_field (name : jsstring) (fields : list (jsstring * json))
  : option json :=
  match fields with
  | [] => None
  | (k, v) :: rest => if jsstring_eqb k name then Some v else lookup_field name rest
  end.

(** Truthiness of a JSON value. *)
Definition truthy_json (v : json) : bool :=
  match v with
  | JNull | JBool false | JNumber 0%Z | JString [] => false
  | _ => true
  end.

(** [obj?.name] on a parsed JSON value: a member of an object; [None]
    (undefined) on every other value. *)
Definition member (name : jsstring) (obj : json) : option json :=
  match obj with
  | JObject fields => lookup_field name fields
  | _ => None
  end.

Definition truthy_member (name : jsstring) (obj : json) : bool :=
  match member name obj with
  | Some v => truthy_json v
  | None => false
  end.

(** [src.name] of an entry of the decrypted list of sources, read at the
    type [unencryptedSrc] that the code declares for it: a string, or
    missing. *)
Definition string_member (name : jsstring) (obj : json) : option jsstring :=
  match obj with
  | JObject fields =>
      match lookup_field name fields with
      | Some (JString s) => Some s
      | _ => None
      end
  | _ => None
  end.

Module LocalDecrypt.

Local Open Scope effect_scope.

(** The loop of [evpBytesToKey]: [fuel] bounds the iterations. *)
Fixpoint evp_loop (P : primitives) (fuel : nat) (password : jsstring)
         (salt : bytes) (need : nat) (data prev : bytes) : option bytes :=
  if (need <=? length data)%nat then Some data
  else match fuel with
       | O => None
       | S fuel' =>
           let prev' := md5 P (prev ++ utf8_encode P password ++ salt) in
           evp_loop P fuel' password salt need (data ++ prev') prev'
       end.

(** [keyLen + ivLen] iterations are enough as soon as a digest is not empty;
    with empty digests the loop never exits. *)
Definition evpBytesToKey (P : primitives) (password : jsstring) (salt : bytes)
           (keyLen ivLen : nat) : outcome (bytes * bytes) :=
  match evp_loop P (keyLen + ivLen) password salt (keyLen + ivLen) [] [] with
  | Some data => Return (slice 0 keyLen data, slice keyLen (keyLen + ivLen) data)
  | None => Diverge
  end.

Definition decryptOpenSSL (P : primitives) (encryptedB64 : encoded)
           (password : jsstring) : outcome jsstring :=
  let buf := Buffer_from_base64 encryptedB64 in
  if negb (bytes_eqb (slice 0 8 buf) (ascii_bytes "Salted__"))
  then Throw "Invalid OpenSSL format"
  else
    let salt := slice 8 16 buf in
    match evpBytesToKey P password salt 32 16 with
    | Return (key, iv) =>
        match Cbc.decrypt P key iv (skipn 16 buf) with
        | Some out => Return (utf8_decode P out)
        | None => Throw "decipher"
        end
    | Throw e => Throw e
    | Diverge => Diverge
    end.

(** The second strategy of [decryptLocally]. *)
Definition decryptWithNonce (P : primitives) (encryptedData : encoded)
           (nonce secret : jsstring) : outcome jsstring :=
  let key := sha256 P (utf8_encode P secret) in
  let iv := slice 0 16 (utf8_encode P nonce) in
  let enc := Buffer_from_base64 encryptedData in
  match Cbc.decrypt P key iv enc with
  | Some out => Return (utf8_decode P out)
  | None => Throw "decipher"
  end.

Definition decryptLocally (P : primitives) (encryptedData : encoded)
           (nonce secret : jsstring) : outcome jsstring :=
  (* 1) Try OpenSSL salted payload first *)
  or_else (decryptOpenSSL P encryptedData secret)
  (* 2) Fallback: AES-256-CBC with key=sha256(secret) and iv=first 16 bytes of nonce *)
    (or_else (decryptWithNonce P encryptedData nonce secret)
       (Throw "Local decryption failed")).

(** [obj?.file || obj?.url || null] after [JSON.parse], the text itself when
    it does not parse; [None] is null. The members are read as they are: a
    member that is truthy is the value, whatever its type. *)
Definition file_url (P : primitives) (decryptedText : jsstring) : option json :=
  match JSON_parse P decryptedText with
  | Some obj =>
      if truthy_member (js "file") obj then member (js "file") obj
      else if truthy_member (js "url") obj then member (js "url") obj
           else None
  | None => Some (JString decryptedText)
  end.

Definition extract2 (P : primitives) (w : world) (embedIframeURL : URL)
  : M unit ExtractedData :=
  call_with
    (try_catch
       ((* 1. Fetch the embed page to get fileId and nonce *)
        emit (FetchPage (href embedIframeURL)) ;;
        html <- await "Request failed" (embed_page w (href embedIframeURL)) ;;
        fileId <- (if truthy_string (file_id html)
                   then ret (match file_id html with Some f => f | None => [] end)
                   else throw "Could not find file ID in embed page") ;;
        nonce <- (if truthy_string (extractNonce html)
                  then ret (match extractNonce html with Some n => n | None => [] end)
                  else throw "Could not extract nonce from embed page") ;;
        (* 2. Get the encrypted sources from the API *)
        let apiUrl := getSources_url fileId nonce in
        emit (FetchSources apiUrl) ;;
        response <- await "Request failed" (getSources w apiUrl) ;;
        match response with
        | None => get                         (* if (!data) return extractedData *)
        | Some data =>
            (* 3. Check if sources are encrypted and handle accordingly *)
            (if truthy_flag (encrypted data) && truthy_sources (sources data)
             then
               try_catch
                 ((* Get decryption key *)
                  emit FetchKeys ;;
                  keyData <- await "Request failed" (key_file w) ;;
                  secret <- (if truthy_string (vidstr keyData)
                             then ret (match vidstr keyData with
                                       | Some k => k | None => [] end)
                             else throw "No decryption key found") ;;
                  emit (Decrypt "decryptLocally") ;;
                  decryptedText <-
                    lift (decryptLocally P (as_encoded (sources data)) nonce secret) ;;
                  match file_url P decryptedText with
                  | Some fileUrl =>
                      if truthy_json fileUrl
                      then modify (set_sources
                                     [{| file := fileUrl; type := js "hls" |}])
                      else throw "Video URL not found in decrypted text"
                  | None => throw "Video URL not found in decrypted text"
                  end)
                 (fun _ => ret tt)
             else
               match sources data with
               | SourcesArray l =>
                   (* Non-encrypted sources array *)
                   modify (set_sources
                             (map (fun src =>
                                     {| file := entry_file src;
                                        type := type_or_hls (entry_type src) |}) l))
               | SourcesString s =>
                   (* Non-encrypted single source *)
                   modify (set_sources [{| file := s; type := js "hls" |}])
               | SourcesAbsent => ret tt
               end) ;;
            (* Process tracks (subtitles/captions) *)
            modify (set_tracks
                      (filter caption_or_subtitle (list_or_empty (tracks data)))) ;;
            modify (set_t (number_or_0 (t data))) ;;
            modify (set_server (number_or_0 (server data))) ;;
            get
        end)
       (fun _ => get))
    ExtractedData_init.

Definition extract (P : primitives) (w : world) (url : jsstring)
  : M unit resolution :=
  try_catch
    (embedUrl <- await "TypeError: Invalid URL" (new_URL P url) ;;
     result <- extract2 P w embedUrl ;;
     ret {| result_sources := data_sources result;
            result_tracks := Some (data_tracks result) |})
    (fun _ => ret {| result_sources := []; result_tracks := None |}).

End LocalDecrypt.

(* ------------------------------------------------------------------ *)
(** * The salted local scheme, encryption side                          *)
(* ------------------------------------------------------------------ *)

(** The encryption side is in no source file; these definitions follow the
    description of the scheme word for word, to be compared with
    [decryptOpenSSL]: hash previous-block, secret and salt repeatedly and
    concatenate the digests ... *)
Fixpoint digest_chain (P : primitives) (secret salt : bytes) (n : nat)
         (prev : bytes) : bytes :=
  match n with
  | O => []
  | S n' =>
      let d := md5 P (prev ++ secret ++ salt) in
      d ++ digest_chain P secret salt n' d
  end.

(** ... until at least 48 bytes (three digests of 16 bytes); the first 32
    bytes are the key, the next 16 the IV. *)
Definition salted_key_iv (P : primitives) (secret : jsstring) (salt : bytes)
  : bytes * bytes :=
  let data := digest_chain P (utf8_encode P secret) salt 3 [] in
  (firstn 32 data, firstn 16 (skipn 32 data)).

(** Encrypt with AES-256-CBC under that key and IV, prefix the marker and
    the salt, encode in base64. *)
Definition encrypt_salted (P : primitives) (secret : jsstring) (salt : bytes)
           (plaintext : bytes) : jsstring :=
  Base64.encode
    (ascii_bytes "Salted__" ++ salt
       ++ Cbc.encrypt P (fst (salted_key_iv P secret salt))
                      (snd (salted_key_iv P secret salt)) plaintext).

(* ------------------------------------------------------------------ *)
(** * The resolver with the salted strategy only (shape-detected payloads) *)
(* ------------------------------------------------------------------ *)

(** [s.split(sep).pop()]: what follows the last separator. *)
Definition last_segment (sep : N) (s : jsstring) : jsstring :=
  fold_left (fun cur c => if (c =? sep)%N then [] else cur ++ [c]) s [].

Module SaltedOnly.

Local Open Scope effect_scope.

(** The sources of this variant keep a missing [type] missing. *)
Record source : Type := {
  src_file : option jsstring;
  src_type : option jsstring
}.

Record ExtractedData : Type := {
  data_sources : list source;
  data_tracks : list track;
  data_t : Z;
  data_server : Z
}.

Record resolution : Type := {
  result_sources : list source;
  result_tracks : option (list track)
}.

Definition ExtractedData_init : ExtractedData :=
  {| data_sources := []; data_tracks := []; data_t := 0%Z; data_server := 0%Z |}.

Definition set_sources (l : list source) (d : ExtractedData) : ExtractedData :=
  {| data_sources := l; data_tracks := data_tracks d;
     data_t := data_t d; data_server := data_server d |}.

Definition set_tracks (l : list track) (d : ExtractedData) : ExtractedData :=
  {| data_sources := data_sources d; data_tracks := l;
     data_t := data_t d; data_server := data_server d |}.

Definition set_t (z : Z) (d : ExtractedData) : ExtractedData :=
  {| data_sources := data_sources d; data_tracks := data_tracks d;
     data_t := z; data_server := data_server d |}.

Definition set_server (z : Z) (d : ExtractedData) : ExtractedData :=
  {| data_sources := data_sources d; data_tracks := data_tracks d;
     data_t := data_t d; data_server := z |}.

(** [evpBytesToKey] and [decryptOpenSSL] are, statement for statement, those
    of the resolver with local decryption. *)
Definition decryptOpenSSL := LocalDecrypt.decryptOpenSSL.

(** [keyData?.vidstr ?? keyData?.rabbit ?? keyData?.rabbitstream?.key] *)
Definition password_of (keyData : key_document) : option jsstring :=
  match vidstr keyData with
  | Some p => Some p
  | None =>
      match rabbit keyData with
      | Some p => Some p
      | None => rabbitstream_key keyData
      end
  end.

(** [parsed.map(src => ({ file: src.file, type: src.type }))]; [None] is the
    TypeError of a [parsed] that is no array or holds a null. *)
Fixpoint map_parsed (l : list json) : option (list source) :=
  match l with
  | [] => Some []
  | JNull :: _ => None
  | src :: rest =>
      match map_parsed rest with
      | Some out =>
          Some ({| src_file := string_member (js "file") src;
                   src_type := string_member (js "type") src |} :: out)
      | None => None
      end
  end.

Definition parsed_sources (P : primitives) (decrypted : jsstring)
  : option (list source) :=
  match JSON_parse P decrypted with
  | Some (JArray l) => map_parsed l
  | _ => None
  end.

Definition extract2 (P : primitives) (w : world) (embedIframeURL : URL)
  : M unit ExtractedData :=
  call_with
    (try_catch
       (let id := last_segment 47 (pathname embedIframeURL) in
        (* Fetch token from embed page *)
        token <- try_catch
                   (emit (FetchPage (href embedIframeURL)) ;;
                    html <- await "Request failed"
                                  (embed_page w (href embedIframeURL)) ;;
                    ret (option_map whole (js_match html re_nonce48)))
                   (fun _ => ret None) ;;
        let apiUrl :=
          MAIN_URL ++ js "/embed-1/v3/e-1/getSources?id=" ++ id
                   ++ (if truthy_string token
                       then js "&_k=" ++ match token with Some k => k | None => [] end
                       else []) in
        emit (FetchSources apiUrl) ;;
        response <- await "Request failed" (getSources w apiUrl) ;;
        match response with
        | None => get
        | Some data =>
            match sources data with
            | SourcesString s =>
                try_catch
                  (emit FetchKeys ;;
                   keyData <- await "Request failed" (key_file w) ;;
                   if truthy_string (password_of keyData)
                   then
                     emit (Decrypt "decryptOpenSSL") ;;
                     decrypted <-
                       lift (decryptOpenSSL P (EncodedString s)
                               (match password_of keyData with
                                | Some k => k | None => [] end)) ;;
                     parsed <- await "TypeError" (parsed_sources P decrypted) ;;
                     modify (set_sources parsed)
                   else ret tt)
                  (fun _ => ret tt)
            | SourcesArray l =>
                modify (set_sources
                          (map (fun src =>
                                  {| src_file := Some (entry_file src);
                                     src_type := entry_type src |}) l))
            | SourcesAbsent => ret tt
            end ;;
            modify (set_tracks (list_or_empty (tracks data))) ;;
            modify (set_t (number_or_0 (t data))) ;;
            modify (set_server (number_or_0 (server data))) ;;
            get
        end)
       (fun _ => get))
    ExtractedData_init.

Definition extract (P : primitives) (w : world) (url : jsstring)
  : M unit resolution :=
  try_catch
    (embedUrl <- await "TypeError: Invalid URL" (new_URL P url) ;;
     result <- extract2 P w embedUrl ;;
     ret {| result_sources := data_sources result;
            result_tracks := Some (data_tracks result) |})
    (fun _ => ret {| result_sources := []; result_tracks := None |}).

End SaltedOnly.

(* ------------------------------------------------------------------ *)
(** * The title matcher of the HTTP server                              *)
(* ------------------------------------------------------------------ *)

(** ** Numbers

    A number of JavaScript is a double. The numbers that this code computes
    with are integers (counts, years, what [parseInt] returns) or an
    infinity; an integer is modelled by itself, [Infinity] by [2 ^ 1024], the
    first power of two that no double holds, and [-Infinity] by its
    opposite. NaN is the [None] of an [option]. *)
Module Double.

Local Open Scope Z_scope.

Definition infinity : Z := 2 ^ 1024.

Definition infinite (z : Z) : bool := infinity <=? Z.abs z.

(** The double nearest to a natural number, ties to the even significand: a
    number below [2 ^ 53] is a double; above, the 53 leading bits are kept
    and the rest decides the rounding; from [2 ^ 1024 - 2 ^ 970] on the
    result is [Infinity]. *)
Definition round_nat (n : Z) : Z :=
  if n <? 2 ^ 53 then n
  else
    let e := Z.log2 n - 52 in
    let q := n / 2 ^ e in
    let r := n mod 2 ^ e in
    let half := 2 ^ (e - 1) in
    let q' := if r <? half then q
              else if half <? r then q + 1
                   else if Z.even q then q else q + 1 in
    if infinity <=? q' * 2 ^ e then infinity else q' * 2 ^ e.

(** The double nearest to an integer. *)
Definition round (z : Z) : Z := Z.sgn z * round_nat (Z.abs z).

(** [a - b]; [None] is NaN, the difference of two infinities of one sign. *)
Definition sub (a b : Z) : option Z :=
  if infinite a
  then if infinite b && (Z.sgn a =? Z.sgn b) then None
       else Some (Z.sgn a * infinity)
  else if infinite b then Some (- Z.sgn b * infinity)
       else Some (round (a - b)).

End Double.

Module JsString.

(** ECMAScript WhiteSpace and LineTerminator: what [trim], [\s] and
    [parseInt] skip. *)
Definition white_space (c : N) : bool :=
  CharClass.in_range 9 13 c || (c =? 32)%N || (c =? 160)%N || (c =? 5760)%N
  || CharClass.in_range 8192 8202 c || (c =? 8232)%N || (c =? 8233)%N
  || (c =? 8239)%N || (c =? 8287)%N || (c =? 12288)%N || (c =? 65279)%N.

Fixpoint trim_start (s : jsstring) : jsstring :=
  match s with
  | c :: rest => if white_space c then trim_start rest else s
  | [] => []
  end.

Definition trim (s : jsstring) : jsstring := rev (trim_start (rev (trim_start s))).

(** [s.split(/\s+/)] *)
Fixpoint split_spaces_from (s : jsstring) (cur : jsstring) (after_sep : bool)
  : list jsstring :=
  match s with
  | [] => [rev cur]
  | c :: rest =>
      if white_space c
      then if after_sep then split_spaces_from rest [] true
           else rev cur :: split_spaces_from rest [] true
      else split_spaces_from rest (c :: cur) false
  end.

Definition split_spaces (s : jsstring) : list jsstring :=
  split_spaces_from s [] false.

Fixpoint starts_with (prefix s : jsstring) : bool :=
  match prefix, s with
  | [], _ => true
  | p :: prefix', c :: s' => (p =? c)%N && starts_with prefix' s'
  | _ :: _, [] => false
  end.

(** [s.includes(needle)] *)
Fixpoint includes (s needle : jsstring) : bool :=
  starts_with needle s ||
  match s with
  | _ :: s' => includes s' needle
  | [] => false
  end.

(** [s.split(sep)[0]] *)
Fixpoint before_first (sep : N) (s : jsstring) : jsstring :=
  match s with
  | c :: rest => if (c =? sep)%N then [] else c :: before_first sep rest
  | [] => []
  end.

Definition digit_value (c : N) : option Z :=
  if CharClass.in_range 48 57 c then Some (Z.of_N c - 48)%Z else None.

Definition hex_value (c : N) : option Z :=
  if CharClass.in_range 48 57 c then Some (Z.of_N c - 48)%Z
  else if CharClass.in_range 97 102 c then Some (Z.of_N c - 87)%Z
  else if CharClass.in_range 65 70 c then Some (Z.of_N c - 55)%Z
  else None.

Fixpoint parse_digits (value_of : N -> option Z) (radix : Z) (s : jsstring)
         (acc : option Z) : option Z :=
  match s with
  | c :: rest =>
      match value_of c with
      | Some d =>
          parse_digits value_of radix rest
            (Some (match acc with Some a => a * radix + d | None => d end)%Z)
      | None => acc
      end
  | [] => acc
  end.

(** [parseInt(s)]; [None] is NaN. The result is the double nearest to the
    integer that the digits denote. *)
Definition parseInt (s : jsstring) : option Z :=
  let s1 := trim_start s in
  let signed :=
    match s1 with
    | 45%N :: r => ((-1)%Z, r)
    | 43%N :: r => (1%Z, r)
    | _ => (1%Z, s1)
    end in
  option_map (fun mathInt => Double.round (fst signed * mathInt))
    match snd signed with
    | 48%N :: 120%N :: r | 48%N :: 88%N :: r => parse_digits hex_value 16 r None
    | s2 => parse_digits digit_value 10 s2 None
    end.

End JsString.

Module Server.

Record FlixHQSearchResult : Type := {
  id : jsstring;
  title : jsstring;
  type : jsstring;
  releaseDate : option jsstring;
  seasons : option Z
}.

(** A number of a JSON response, where the response may hold null. *)
Inductive nullable_number : Type :=
| Null
| Number (n : Z).

(** [TMDBMovieDetails | TMDBTVDetails]: the fields the matcher reads, each
    missing on the other member of the union. *)
Record TMDBDetails : Type := {
  tmdb_title : option jsstring;
  tmdb_name : option jsstring;
  release_date : option jsstring;
  first_air_date : option jsstring;
  number_of_seasons : option nullable_number
}.

Definition isTitleSimilarEnough (P : primitives) (title1 title2 : jsstring) : bool :=
  let title1 := JsString.trim (toLowerCase P title1) in
  let title2 := JsString.trim (toLowerCase P title2) in
  (* Check for exact match *)
  if jsstring_eqb title1 title2 then true
  else
    (* Split titles into words *)
    let words1 := filter (fun w => (0 <? length w)%nat) (JsString.split_spaces title1) in
    let words2 := filter (fun w => (0 <? length w)%nat) (JsString.split_spaces title2) in
    if ((length words1 <=? 2)%nat || (length words2 <=? 2)%nat)
       && (JsString.includes title1 title2 || JsString.includes title2 title1)
    then true
    else
      (* Calculate word overlap *)
      let commonWords :=
        filter (fun word => existsb (jsstring_eqb word) words2) words1 in
      (* commonWords.length / Math.min(...) < 0.7, on exact fractions *)
      if (10 * length commonWords <? 7 * Nat.min (length words1) (length words2))%nat
      then false
      else true.

(** [m.releaseDate ? m.releaseDate.split("-")[0] : undefined] *)
Definition flixYear (m : FlixHQSearchResult) : option jsstring :=
  if truthy_string (releaseDate m)
  then option_map (JsString.before_first 45) (releaseDate m)
  else None.

(** [===] on two strings that may be undefined *)
Definition same_string (a b : option jsstring) : bool :=
  match a, b with
  | Some x, Some y => jsstring_eqb x y
  | None, None => true
  | _, _ => false
  end.

(** [Math.abs(a - b)], NaN when one of them is *)
Definition abs_diff (a b : option Z) : option Z :=
  match a, b with
  | Some x, Some y => option_map Z.abs (Double.sub x y)
  | _, _ => None
  end.

(** [flixHQSeasons === tmdbNumberOfSeasons] *)
Definition same_count (flixHQSeasons : option Z)
           (tmdbNumberOfSeasons : nullable_number) : bool :=
  match flixHQSeasons, tmdbNumberOfSeasons with
  | Some n, Number k => (n =? k)%Z
  | _, _ => false
  end.

(** A number or null as an operand of [-]: null counts as 0. *)
Definition to_number (x : nullable_number) : Z :=
  match x with
  | Null => 0%Z
  | Number n => n
  end.

(** [a < b] on numbers, false as soon as one is NaN *)
Definition number_lt (a b : option Z) : bool :=
  match a, b with
  | Some x, Some y => (x <? y)%Z
  | _, _ => false
  end.

(** [parseInt(m.releaseDate ? m.releaseDate.split("-")[0] : "0")] *)
Definition year_number (m : FlixHQSearchResult) : option Z :=
  JsString.parseInt (match flixYear m with Some y => y | None => js "0" end).

Definition findBestFlixHQMatch (P : primitives)
           (searchResults : list FlixHQSearchResult) (tmdbDetails : TMDBDetails)
           (type_ : jsstring) : outcome (option FlixHQSearchResult) :=
  let isMovie := jsstring_eqb type_ (js "MOVIE") in
  match (if isMovie then tmdb_title tmdbDetails else tmdb_name tmdbDetails) with
  | None => Throw "TypeError: Cannot read properties of undefined"
  | Some raw =>
      let tmdbTitle := toLowerCase P raw in
      let relevantResults :=
        filter (fun m => jsstring_eqb (type m) type_) searchResults in
      let similar := fun m => isTitleSimilarEnough P (title m) tmdbTitle in
      match relevantResults with
      | [] => Return None
      | first :: _ =>
          (* --- TV Series Specific Matching (Prioritize Seasons) --- *)
          let tv :=
            match (if isMovie then None else number_of_seasons tmdbDetails) with
            | None => None
            | Some tmdbNumberOfSeasons =>
                match find (fun show =>
                              similar show
                              && same_count (seasons show) tmdbNumberOfSeasons)
                           relevantResults with
                | Some foundMatch => Some foundMatch
                | None =>
                    match filter similar relevantResults with
                    | [] => None
                    | show0 :: shows =>
                        Some (fold_left
                                (fun closest current =>
                                   let currentSeasons :=
                                     number_or_0 (seasons current) in
                                   let closestSeasons :=
                                     number_or_0 (seasons closest) in
                                   let diffCurrent :=
                                     abs_diff (Some currentSeasons)
                                       (Some (to_number tmdbNumberOfSeasons)) in
                                   let diffClosest :=
                                     abs_diff (Some closestSeasons)
                                       (Some (to_number tmdbNumberOfSeasons)) in
                                   if number_lt diffCurrent diffClosest
                                   then current else closest)
                                (show0 :: shows) show0)
                    end
                end
            end in
          match tv with
          | Some bestMatch => Return (Some bestMatch)
          | None =>
              (* --- Movie Specific Matching (Prioritize Year) & TV Series Fallback --- *)
              let tmdbYear :=
                option_map (firstn 4)
                  (if isMovie then release_date tmdbDetails
                   else first_air_date tmdbDetails) in
              let tmdbYearNum :=
                JsString.parseInt
                  (if truthy_string tmdbYear
                   then match tmdbYear with Some y => y | None => [] end
                   else js "0") in
              match find (fun m => similar m && same_string (flixYear m) tmdbYear)
                         relevantResults with
              | Some exactMatch => Return (Some exactMatch)
              | None =>
                  if isMovie && truthy_string tmdbYear
                     && negb (jsstring_eqb
                                (JsString.trim
                                   (match tmdbYear with Some y => y | None => [] end))
                                [])
                  then Return None
                  else
                    match filter similar relevantResults with
                    | m0 :: ms =>
                        if number_lt (Some 0%Z) tmdbYearNum
                        then
                          Return
                            (Some (fold_left
                                     (fun closest current =>
                                        if number_lt
                                             (abs_diff (year_number current) tmdbYearNum)
                                             (abs_diff (year_number closest) tmdbYearNum)
                                        then current else closest)
                                     (m0 :: ms) m0))
                        else Return (Some m0)
                    | [] =>
                        (* 3. Fallback: For TV series only *)
                        if negb isMovie then Return (Some first) else Return None
                    end
              end
          end
      end
  end.

End Server.

(* ------------------------------------------------------------------ *)
(** * A small instance of the primitives and of the network             *)
(* ------------------------------------------------------------------ *)

(** Stand-ins for Node's functions, enough to run the resolvers on examples
    and to show that what is assumed of the primitives can hold: digests that
    fold their input into 16 and 32 bytes, a block cipher that XORs the block
    with the head of the key, Latin-1 in place of UTF-8, a JSON parser that
    accepts nothing, a URL parser for [scheme://host/path]. *)
Module Sample.

Fixpoint fold_digest (size : nat) (acc : bytes) (x : bytes) : bytes :=
  match x with
  | [] => acc
  | b :: x' =>
      fold_digest size (skipn 1 acc ++ [Cbc.byte_xor (hd x00 acc) b]) x'
  end.

Definition digest (size : nat) (x : bytes) : bytes :=
  firstn size (fold_digest size (repeat x00 size) x ++ repeat x00 size).

Definition xor_block (key block : bytes) : bytes :=
  Cbc.xor_bytes block (firstn 16 key).

Definition latin1_encode (s : jsstring) : bytes := map byte_of_N s.
Definition latin1_decode (b : bytes) : jsstring := map Byte.to_N b.

Definition ascii_lower (c : N) : N :=
  if CharClass.in_range 65 90 c then (c + 32)%N else c.

(** The path of [scheme://host/path?query]. *)
Fixpoint drop_until (sep : N) (s : jsstring) : jsstring :=
  match s with
  | c :: rest => if (c =? sep)%N then s else drop_until sep rest
  | [] => []
  end.

Definition path_of (s : jsstring) : jsstring :=
  JsString.before_first 63
    (drop_until 47 (skipn 2 (drop_until 47 s))).

Definition parse_url (s : jsstring) : option URL :=
  if JsString.starts_with (js "https://") s
  then Some {| href := s; pathname := path_of s |}
  else None.

Definition node : primitives :=
  {| md5 := digest 16;
     sha256 := digest 32;
     aes256_encrypt_block := xor_block;
     aes256_decrypt_block := xor_block;
     utf8_encode := latin1_encode;
     utf8_decode := latin1_decode;
     JSON_parse := fun _ => None;
     toLowerCase := map ascii_lower;
     new_URL := parse_url |}.

(** The same stand-ins for the digests and the block cipher, with the
    conversions between strings and buffers as Node has them. *)
Definition node_utf8 : primitives :=
  {| md5 := digest 16;
     sha256 := digest 32;
     aes256_encrypt_block := xor_block;
     aes256_decrypt_block := xor_block;
     utf8_encode := Utf8.encode;
     utf8_decode := Utf8.decode;
     JSON_parse := fun _ => None;
     toLowerCase := map ascii_lower;
     new_URL := parse_url |}.

(** The same stand-ins, with a [JSON.parse] that returns [parsed] whatever
    the text. *)
Definition node_parsing (parsed : option json) : primitives :=
  {| md5 := digest 16;
     sha256 := digest 32;
     aes256_encrypt_block := xor_block;
     aes256_decrypt_block := xor_block;
     utf8_encode := latin1_encode;
     utf8_decode := latin1_decode;
     JSON_parse := fun _ => parsed;
     toLowerCase := map ascii_lower;
     new_URL := parse_url |}.

Definition quote : jsstring := [34%N].

(** Four runs of 16 alphanumeric characters. *)
Definition a16 : jsstring := js "aaaaaaaaaaaaaaaa".
Definition b16 : jsstring := js "bbbbbbbbbbbbbbbb".
Definition c16 : jsstring := js "cccccccccccccccc".
Definition d16 : jsstring := js "dddddddddddddddd".

Definition embed_url : jsstring := js "https://videostr.net/embed-1/v3/e-1/abc123?z=".

Definition nonce48 : jsstring :=
  js "a1b2c3d4e5f6g7h8i9j0k1l2m3n4o5p6q7r8s9t0u1v2w3x4".

(** An embed page with a [data-id] attribute and a 48-character token. *)
Definition html_ok : jsstring :=
  js "<div id=" ++ quote ++ js "player" ++ quote ++ js " data-id=" ++ quote
     ++ js "abc123" ++ quote ++ js "></div><script>window._k = '" ++ nonce48
     ++ js "';</script>".

(** An embed page on which a longer attribute name ends in [data-id]. *)
Definition html_two_ids : jsstring :=
  js "<div data-episode-data-id=" ++ quote ++ js "q1" ++ quote ++ js " data-id="
     ++ quote ++ js "zzz" ++ quote ++ js "></div>".

(** An embed page without a [data-id] attribute. *)
Definition html_without_id : jsstring :=
  js "<html><body>File not found</body></html>".

Definition captions_en : track :=
  {| track_file := js "https://cdn/en.vtt"; track_label := Some (js "English");
     track_kind := js "captions"; track_default := Some true |}.

Definition thumbnails : track :=
  {| track_file := js "https://cdn/thumbs.vtt"; track_label := None;
     track_kind := js "thumbnails"; track_default := None |}.

Definition hls_entry : source_entry :=
  {| entry_file := js "https://cdn/x.m3u8"; entry_type := Some (js "hls") |}.

(** The payload of the end-to-end scenario: a list of sources. *)
Definition payload_list : extractedSrc :=
  {| sources := SourcesArray [hls_entry];
     tracks := Some [captions_en; thumbnails];
     t := Some 0%Z; server := Some 1%Z; encrypted := None |}.

(** The same list, flagged as encrypted. *)
Definition payload_flagged_list : extractedSrc :=
  {| sources := SourcesArray [hls_entry];
     tracks := Some [captions_en; thumbnails];
     t := Some 0%Z; server := Some 1%Z; encrypted := Some true |}.

(** A string payload without the flag. *)
Definition payload_plain_string : extractedSrc :=
  {| sources := SourcesString (js "https://cdn/x.m3u8");
     tracks := Some [captions_en; thumbnails];
     t := Some 0%Z; server := Some 1%Z; encrypted := None |}.

(** A string payload flagged as encrypted. *)
Definition payload_flagged_string : extractedSrc :=
  {| sources := SourcesString (js "bm90IHNhbHRlZCBhdCBhbGw=");
     tracks := Some [captions_en; thumbnails];
     t := Some 0%Z; server := Some 1%Z; encrypted := Some true |}.

Definition no_keys : key_document :=
  {| vidstr := None; rabbit := None; rabbitstream_key := None |}.

Definition world_of (html : jsstring) (payload : extractedSrc) : world :=
  {| embed_page := fun url => if jsstring_eqb url embed_url then Some html else None;
     getSources := fun _ => Some (Some payload);
     key_file := Some no_keys |}.

End Sample.

(* ------------------------------------------------------------------ *)
(** * Vocabulary of the properties of the resolvers                     *)
(* ------------------------------------------------------------------ *)

(** The resolution of [url] gets as far as a payload: the page is fetched,
    it holds a content id and a nonce, the sources endpoint answers [data]. *)
Definition reaches_payload (w : world) (url : URL) (fileId nonce : jsstring)
           (data : extractedSrc) : Prop :=
  exists html,
    embed_page w (href url) = Some html /\
    file_id html = Some fileId /\
    extractNonce html = Some nonce /\
    getSources w (getSources_url fileId nonce) = Some (Some data).

(** The entries of a list of sources, as resolved sources. *)
Definition passthrough (l : list source_entry) : list resolved_source :=
  map (fun src => {| file := entry_file src;
                     type := type_or_hls (entry_type src) |}) l.

(** The caption and subtitle tracks of a payload, in its order. *)
Definition captions_and_subtitles (data : extractedSrc) : list track :=
  filter caption_or_subtitle (list_or_empty (tracks data)).

Definition calls_key_provider (trace : list call) : Prop := In FetchKeys trace.

Definition calls_decryption (trace : list call) : Prop :=
  exists strategy, In (Decrypt strategy) trace.

(** A resolution that took the passthrough branch on the list [l] of the
    payload [data]: the entries are the resolved sources, and neither the
    key document nor a decryption strategy was called. *)
Definition passed_through (o : outcome resolution * list call)
           (l : list source_entry) (data : extractedSrc) : Prop :=
  exists trace,
    o = (Return {| result_sources := passthrough l;
                   result_tracks := Some (captions_and_subtitles data) |},
         trace) /\
    ~ calls_key_provider trace /\ ~ calls_decryption trace.

(** A search result that is a movie, has a title similar to the TMDB title
    [raw] and was released in [year]. *)
Definition exact_year_match (P : primitives) (raw year : jsstring)
           (m : Server.FlixHQSearchResult) : Prop :=
  Server.type m = js "MOVIE" /\
  Server.isTitleSimilarEnough P (Server.title m) (toLowerCase P raw) = true /\
  Server.flixYear m = Some year.

Module SampleCatalog.

Definition heat_1995 : Server.FlixHQSearchResult :=
  {| Server.id := js "movie/watch-heat-19520"; Server.title := js "Heat";
     Server.type := js "MOVIE"; Server.releaseDate := Some (js "1995-12-15");
     Server.seasons := None |}.

Definition heat_2023 : Server.FlixHQSearchResult :=
  {| Server.id := js "movie/watch-heat-91000"; Server.title := js "Heat";
     Server.type := js "MOVIE"; Server.releaseDate := Some (js "2023");
     Server.seasons := None |}.

Definition kitchen_wars : Server.FlixHQSearchResult :=
  {| Server.id := js "tv/watch-kitchen-wars-39000";
     Server.title := js "Kitchen Wars";
     Server.type := js "TV Series"; Server.releaseDate := None;
     Server.seasons := Some 2%Z |}.

Definition movie (release : jsstring) : Server.TMDBDetails :=
  {| Server.tmdb_title := Some (js "Heat"); Server.tmdb_name := None;
     Server.release_date := Some release; Server.first_air_date := None;
     Server.number_of_seasons := None |}.

Definition series : Server.TMDBDetails :=
  {| Server.tmdb_title := None; Server.tmdb_name := Some (js "Heat");
     Server.release_date := None; Server.first_air_date := Some (js "2010-01-01");
     Server.number_of_seasons := None |}.

End SampleCatalog.

(** ** Runs

    A run of [n] alphanumeric code units delimited by word boundaries:
    [before] and [after] are the text on either side, in document order. *)
Definition ends_with_word (before : jsstring) : bool := is_word_at (rev before).
Definition starts_with_word (after : jsstring) : bool := is_word_at after.

Definition delimited_run (n : nat) (before run after : jsstring) : Prop :=
  length run = n /\ forallb CharClass.alnum run = true /\
  ends_with_word before = false /\ starts_with_word after = false.

(** The same test at a cursor, as the matcher meets it. *)
Definition run_here (n : nat) (b a : list N) : bool :=
  negb (is_word_at b) && (n <=? length a)%nat
  && forallb CharClass.alnum (firstn n a) && negb (is_word_at (skipn n a)).

Definition no_line_terminator (g : jsstring) : Prop :=
  forallb CharClass.dot g = true.

(** Three delimited 16-character runs [a], [b], [c] in document order. *)
Definition three_runs (html pre a g1 b g2 c post : jsstring) : Prop :=
  html = pre ++ a ++ g1 ++ b ++ g2 ++ c ++ post /\
  delimited_run 16 pre a (g1 ++ b ++ g2 ++ c ++ post) /\
  delimited_run 16 (pre ++ a ++ g1) b (g2 ++ c ++ post) /\
  delimited_run 16 (pre ++ a ++ g1 ++ b ++ g2) c post.

(** ... that lie on one line. *)
Definition three_runs_on_a_line (html pre a g1 b g2 c post : jsstring) : Prop :=
  three_runs html pre a g1 b g2 c post /\
  no_line_terminator g1 /\ no_line_terminator g2.

Definition no_run48 (html : jsstring) : Prop :=
  forall pre run post, html = pre ++ run ++ post -> ~ delimited_run 48 pre run post.

(** The first delimited 48-character run of a text. *)
Definition first_run48 (html pre run post : jsstring) : Prop :=
  html = pre ++ run ++ post /\ delimited_run 48 pre run post /\
  forall pre' run' post',
    html = pre' ++ run' ++ post' -> delimited_run 48 pre' run' post' ->
    length pre <= length pre'.

(** The leftmost three runs on a line: leftmost first run, then the nearest
    second and third. *)
Definition leftmost_three_runs (html pre a g1 b g2 c post : jsstring) : Prop :=
  three_runs_on_a_line html pre a g1 b g2 c post /\
  forall pre' a' g1' b' g2' c' post',
    three_runs_on_a_line html pre' a' g1' b' g2' c' post' ->
    length pre <= length pre' /\
    (length pre' = length pre ->
     length g1 <= length g1' /\
     (length g1' = length g1 -> length g2 <= length g2')).

(** Three runs on a line, seen from a cursor placed before the first. *)
Definition three_runs_at (b0 : list N) (a g1 b g2 c post : jsstring) : Prop :=
  length a = 16 /\ length b = 16 /\ length c = 16 /\
  run_here 16 b0 (a ++ g1 ++ b ++ g2 ++ c ++ post) = true /\
  forallb CharClass.dot g1 = true /\
  run_here 16 (rev g1 ++ rev a ++ b0) (b ++ g2 ++ c ++ post) = true /\
  forallb CharClass.dot g2 = true /\
  run_here 16 (rev g2 ++ rev b ++ rev g1 ++ rev a ++ b0) (c ++ post) = true.

(** The continuation that ends a match started at [cur0]. *)
Definition finish (cur0 : cursor) : cont match_result :=
  fun cur' caps => Some (MkMatch (consumed cur0 cur') caps).

(** The pattern after the first lazy star: [\b(..)\b.*?\b(..)\b]. *)
Definition re_tail16x2 : regex :=
  Seq (re_seg16 2) (Seq (LazyStar CharClass.dot) (re_seg16 3)).

(* ------------------------------------------------------------------ *)
(** * The resolvers that decrypt through a remote service               *)
(* ------------------------------------------------------------------ *)

(** What [axios.get] hands over as [data] for a response of the decoding
    service: the body as a text, or the value that axios parsed from a JSON
    body, which is no string. *)
Inductive response_data : Type :=
| DataText (s : jsstring)
| DataParsed.

(** The network of these resolvers: the three endpoints of [world], and the
    decoding service, by the URL requested; [None] is a request that fails. *)
Record remote_world : Type := {
  network : world;
  decoding_service : jsstring -> option response_data
}.

Module UrlEncoded.

(** An upper-case hexadecimal digit. *)
Definition hex_digit (n : N) : N :=
  if (n <? 10)%N then (48 + n)%N else (55 + n)%N.

(** The [application/x-www-form-urlencoded] serialisation of a byte: a
    space becomes [+], the letters, the digits and [*-._] stand for
    themselves, every other byte is percent-encoded. *)
Definition byte (b : Byte.byte) : jsstring :=
  let c := Byte.to_N b in
  if (c =? 32)%N then [43%N]
  else if CharClass.alnum c || (c =? 42)%N || (c =? 45)%N || (c =? 46)%N
          || (c =? 95)%N
       then [c]
       else [37%N; hex_digit (c / 16); hex_digit (c mod 16)].

Definition component (P : primitives) (s : jsstring) : jsstring :=
  flat_map byte (utf8_encode P s).

(** [new URLSearchParams({ ... }).toString()] *)
Fixpoint toString (P : primitives) (params : list (jsstring * jsstring))
  : jsstring :=
  match params with
  | [] => []
  | [(name, value)] => component P name ++ js "=" ++ component P value
  | (name, value) :: rest =>
      component P name ++ js "=" ++ component P value ++ js "&"
        ++ toString P rest
  end.

End UrlEncoded.

(** [String(x)] of what the cast [data.sources as string] lets through: the
    string itself, or the array, whose entries are objects. *)
Fixpoint join_objects (n : nat) : jsstring :=
  match n with
  | O => []
  | S O => js "[object Object]"
  | S n' => js "[object Object]," ++ join_objects n'
  end.

Definition String_of_encoded (e : encoded) : jsstring :=
  match e with
  | EncodedString s => s
  | EncodedArray n => join_objects n
  end.

Definition quote_char : ascii := ascii_of_nat 34.

(** [/QfileQ:Q(.*?)Q/], where Q stands for the double quote. *)
Definition re_file : regex :=
  literal (quote_char :: list_ascii_of_string "file"
             ++ quote_char :: list_ascii_of_string ":" ++ [quote_char])
    (Seq (Group 1 (LazyStar CharClass.dot)) (Chr (fun c => (c =? 34)%N))).

Module RemoteDecrypt.

Local Open Scope effect_scope.

(** [`${DECODE_URL}?${params.toString()}`] *)
Definition decode_request (P : primitives) (DECODE_URL : jsstring)
           (encryptedData : encoded) (nonce secret : jsstring) : jsstring :=
  DECODE_URL ++ js "?"
    ++ UrlEncoded.toString P
         [(js "encrypted_data", String_of_encoded encryptedData);
          (js "nonce", nonce);
          (js "secret", secret)].

(** The entry into [decryptWithGoogleScript] is recorded as the decryption
    call; the request it sends to the decoding service is read from
    [decoding_service]. *)
Definition decryptWithGoogleScript {S : Type} (P : primitives) (w : remote_world)
           (DECODE_URL : jsstring) (encryptedData : encoded)
           (nonce secret : jsstring) : M S jsstring :=
  try_catch
    (emit (Decrypt "decryptWithGoogleScript") ;;
     data <- await "Request failed"
                   (decoding_service w
                      (decode_request P DECODE_URL encryptedData nonce secret)) ;;
     (* Extract file URL from response *)
     match data with
     | DataText text =>
         match js_match text re_file with
         | Some m =>
             match group m 1 with
             | Some (c :: u) => ret (c :: u)
             | _ => throw "Video URL not found in decrypted response"
             end
         | None => throw "Video URL not found in decrypted response"
         end
     | DataParsed => throw "TypeError: data.match is not a function"
     end)
    (fun error => throw error).

End RemoteDecrypt.

(** ** The resolver that sends flagged payloads to the decoding service *)

Module RemoteByFlag.

Local Open Scope effect_scope.

Definition DECODE_URL : jsstring :=
  js "https://script.google.com/macros/s/AKfycbxHbYHbrGMXYD2-bC-C43D3njIbU-wGiYQuJL61H4vyy6YVXkybMNNEPJNPPuZrD1gRVA/exec".

Definition extract2 (P : primitives) (w : remote_world) (embedIframeURL : URL)
  : M unit ExtractedData :=
  call_with
    (try_catch
       ((* 1. Fetch the embed page to get fileId and nonce *)
        emit (FetchPage (href embedIframeURL)) ;;
        html <- await "Request failed"
                      (embed_page (network w) (href embedIframeURL)) ;;
        fileId <- (if truthy_string (file_id html)
                   then ret (match file_id html with Some f => f | None => [] end)
                   else throw "Could not find file ID in embed page") ;;
        nonce <- (if truthy_string (extractNonce html)
                  then ret (match extractNonce html with Some n => n | None => [] end)
                  else throw "Could not extract nonce from embed page") ;;
        (* 2. Get the encrypted sources from the API *)
        let apiUrl := getSources_url fileId nonce in
        emit (FetchSources apiUrl) ;;
        response <- await "Request failed" (getSources (network w) apiUrl) ;;
        match response with
        | None => get                         (* if (!data) return extractedData *)
        | Some data =>
            (* 3. Check if sources are encrypted and handle accordingly *)
            (if truthy_flag (encrypted data) && truthy_sources (sources data)
             then
               try_catch
                 ((* Get decryption key *)
                  emit FetchKeys ;;
                  keyData <- await "Request failed" (key_file (network w)) ;;
                  secret <- (if truthy_string (vidstr keyData)
                             then ret (match vidstr keyData with
                                       | Some k => k | None => [] end)
                             else throw "No decryption key found") ;;
                  decryptedUrl <-
                    RemoteDecrypt.decryptWithGoogleScript P w DECODE_URL
                      (as_encoded (sources data)) nonce secret ;;
                  modify (set_sources [{| file := decryptedUrl; type := js "hls" |}]))
                 (fun _ => ret tt)
             else
               match sources data with
               | SourcesArray l =>
                   (* Non-encrypted sources array *)
                   modify (set_sources
                             (map (fun src =>
                                     {| file := entry_file src;
                                        type := type_or_hls (entry_type src) |}) l))
               | SourcesString s =>
                   (* Non-encrypted single source *)
                   modify (set_sources [{| file := s; type := js "hls" |}])
               | SourcesAbsent => ret tt
               end) ;;
            (* Process tracks (subtitles/captions) *)
            modify (set_tracks
                      (filter caption_or_subtitle (list_or_empty (tracks data)))) ;;
            modify (set_t (number_or_0 (t data))) ;;
            modify (set_server (number_or_0 (server data))) ;;
            get
        end)
       (fun _ => get))
    ExtractedData_init.

Definition extract (P : primitives) (w : remote_world) (url : jsstring)
  : M unit resolution :=
  try_catch
    (embedUrl <- await "TypeError: Invalid URL" (new_URL P url) ;;
     result <- extract2 P w embedUrl ;;
     ret {| result_sources := data_sources result;
            result_tracks := Some (data_tracks result) |})
    (fun _ => ret {| result_sources := []; result_tracks := None |}).

End RemoteByFlag.

(** ** The resolver that sends string payloads to the decoding service *)

Module RemoteByShape.

Local Open Scope effect_scope.

Definition DECODE_URL : jsstring :=
  js "https://script.google.com/macros/s/AKfycbx-yHTwupis_JD0lNzoOnxYcEYeXmJZrg7JeMxYnEZnLBy5V0--UxEvP-y9txHyy1TX9Q/exec".

(** [embedIframeURL.pathname.split("/").pop()?.split("?")[0]], or the empty
    string when that is undefined or empty. *)
Definition id_of (embedIframeURL : URL) : jsstring :=
  JsString.before_first 63 (last_segment 47 (pathname embedIframeURL)).

Definition extract2 (P : primitives) (w : remote_world) (embedIframeURL : URL)
  : M unit ExtractedData :=
  call_with
    (try_catch
       (let id := id_of embedIframeURL in
        (* Fetch nonce from embed page *)
        nonce <- try_catch
                   (emit (FetchPage (href embedIframeURL)) ;;
                    html <- await "Request failed"
                                  (embed_page (network w) (href embedIframeURL)) ;;
                    ret (extractNonce html))
                   (fun _ => ret None) ;;
        if negb (truthy_string nonce)
        then get                              (* No nonce found, cannot proceed *)
        else
          let nonce := match nonce with Some n => n | None => [] end in
          let apiUrl := getSources_url id nonce in
          emit (FetchSources apiUrl) ;;
          response <- await "Request failed" (getSources (network w) apiUrl) ;;
          match response with
          | None => get
          | Some data =>
              (* Handle encrypted sources *)
              match sources data with
              | SourcesString s =>
                  try_catch
                    ((* Check if it's already an M3U8 URL *)
                     if JsString.includes s (js ".m3u8")
                     then modify (set_sources [{| file := s; type := js "hls" |}])
                     else
                       (* Decrypt using Google Apps Script *)
                       emit FetchKeys ;;
                       keyData <- await "Request failed" (key_file (network w)) ;;
                       secret <- (if truthy_string (vidstr keyData)
                                  then ret (match vidstr keyData with
                                            | Some k => k | None => [] end)
                                  else throw "No decryption key found") ;;
                       decryptedUrl <-
                         RemoteDecrypt.decryptWithGoogleScript P w DECODE_URL
                           (EncodedString s) nonce secret ;;
                       modify (set_sources
                                 [{| file := decryptedUrl; type := js "hls" |}]))
                    (fun _ => ret tt)
              | SourcesArray l =>
                  (* Handle unencrypted sources *)
                  modify (set_sources
                            (map (fun src =>
                                    {| file := entry_file src;
                                       type := type_or_hls (entry_type src) |}) l))
              | SourcesAbsent => ret tt
              end ;;
              (* Process tracks (subtitles/captions) *)
              modify (set_tracks
                        (filter caption_or_subtitle (list_or_empty (tracks data)))) ;;
              modify (set_t (number_or_0 (t data))) ;;
              modify (set_server (number_or_0 (server data))) ;;
              get
          end)
       (fun _ => get))
    ExtractedData_init.

Definition extract (P : primitives) (w : remote_world) (url : jsstring)
  : M unit resolution :=
  try_catch
    (embedUrl <- await "TypeError: Invalid URL" (new_URL P url) ;;
     result <- extract2 P w embedUrl ;;
     ret {| result_sources := data_sources result;
            result_tracks := Some (data_tracks result) |})
    (fun _ => ret {| result_sources := []; result_tracks := None |}).

End RemoteByShape.

(* ------------------------------------------------------------------ *)
(** * The cache of the HTTP server                                      *)
(* ------------------------------------------------------------------ *)

(** A [Map] with string keys, as far as [get], [set] and [delete] go. *)
Module JsMap.

Section Map.
Variable V : Type.

Definition t : Type := list (jsstring * V).

Fixpoint get (key : jsstring) (m : t) : option V :=
  match m with
  | [] => None
  | (k, v) :: rest => if jsstring_eqb k key then Some v else get key rest
  end.

(** [set] replaces the value of a key that is present and adds a key that is
    not. *)
Fixpoint set (key : jsstring) (v : V) (m : t) : t :=
  match m with
  | [] => [(key, v)]
  | (k, x) :: rest =>
      if jsstring_eqb k key then (k, v) :: rest else (k, x) :: set key v rest
  end.

Fixpoint delete (key : jsstring) (m : t) : t :=
  match m with
  | [] => []
  | (k, x) :: rest =>
      if jsstring_eqb k key then delete key rest else (k, x) :: delete key rest
  end.

End Map.

Arguments get {V} key m.
Arguments set {V} key v m.
Arguments delete {V} key m.

End JsMap.

Module Cache.

Local Open Scope effect_scope.

(** An entry of [memoryCache]. The field [value] is typed [string]; it holds
    what [JSON.stringify] returned, which is [undefined] for a value that has
    no JSON text. *)
Record entry : Type := {
  value : option jsstring;
  expiresAt : Z
}.

(** What the helpers read and write: the in-memory cache, the clock that
    [Date.now()] reads, and everything outside the process (the Redis
    server, the services behind the fetchers). *)
Record state (W : Type) : Type := {
  memoryCache : JsMap.t entry;
  now : Z;
  outside : W
}.
Arguments memoryCache {W}.
Arguments now {W}.
Arguments outside {W}.

Definition set_memoryCache {W : Type} (m : JsMap.t entry) (st : state W) : state W :=
  {| memoryCache := m; now := now st; outside := outside st |}.

(** A cached value: what a fetcher resolved to, or what [JSON.parse]
    returned; [None] is [undefined], [Some JNull] is [null]. *)
Definition cached_value : Type := option json.

Definition CACHE_TTL_SECONDS : Z := 60 * 60 * 12.

Section Helpers.

Variable W : Type.
(** A Redis client. *)
Variable Redis : Type.
(** [JSON.stringify]; [None] is [undefined]. *)
Variable JSON_stringify : cached_value -> option jsstring.
Variable P : primitives.

(** The module [./utils/cache], which is given the client. *)
Record cacheUtils_module : Type := {
  cacheUtils_get : Redis -> jsstring -> M (state W) cached_value;
  cacheUtils_set : Redis -> jsstring -> M (state W) cached_value -> Z
                   -> M (state W) cached_value;
  cacheUtils_fetch : Redis -> jsstring -> M (state W) cached_value -> Z
                     -> M (state W) cached_value
}.

Variable cacheUtils : cacheUtils_module.

(** [JSON.parse(cached.value)]; [JSON.parse(undefined)] throws. *)
Definition parse_entry (cached : entry) : M (state W) cached_value :=
  match value cached with
  | Some text =>
      match JSON_parse P text with
      | Some v => ret (Some v)
      | None => throw "SyntaxError"
      end
  | None => throw "SyntaxError"
  end.

(** [memoryCache.set(key, { value: JSON.stringify(value),
    expiresAt: Date.now() + ttlSeconds * 1000 })] *)
Definition memory_set (key : jsstring) (v : cached_value) (ttlSeconds : Z)
  : M (state W) unit :=
  modify (fun st =>
            set_memoryCache
              (JsMap.set key {| value := JSON_stringify v;
                                expiresAt := now st + ttlSeconds * 1000 |}
                         (memoryCache st)) st).

(** Helper: get value from cache (Redis if connected, else memory) *)
Definition cacheGet (redis : option Redis) (key : jsstring)
  : M (state W) cached_value :=
  let memory :=
    (* Fallback to in-memory cache *)
    st <- get ;;
    match JsMap.get key (memoryCache st) with
    | None => ret (Some JNull)
    | Some cached =>
        if (expiresAt cached <? now st)%Z
        then modify (fun st => set_memoryCache
                                 (JsMap.delete key (memoryCache st)) st) ;;
             ret (Some JNull)                  (* expired *)
        else parse_entry cached
    end in
  match redis with
  | Some client => try_catch (cacheUtils_get cacheUtils client key) (fun _ => memory)
  | None => memory
  end.

(** Helper: set value in cache (Redis if connected, else memory) *)
Definition cacheSet (redis : option Redis) (key : jsstring) (v : cached_value)
           (ttlSeconds : Z) : M (state W) cached_value :=
  match redis with
  | Some client =>
      try_catch (cacheUtils_set cacheUtils client key (ret v) ttlSeconds)
                (fun _ => memory_set key v ttlSeconds ;; ret v)
  | None => memory_set key v ttlSeconds ;; ret v
  end.

(** Helper: fetch from cache or call fetcher function *)
Definition cacheFetch (redis : option Redis) (key : jsstring)
           (fetcher : M (state W) cached_value) (ttlSeconds : Z)
  : M (state W) cached_value :=
  match redis with
  | Some client =>
      try_catch (cacheUtils_fetch cacheUtils client key fetcher ttlSeconds)
                (fun _ => fetcher)
  | None =>
      (* Check memory cache *)
      cached <- cacheGet None key ;;
      match cached with
      | Some JNull =>
          (* Fetch and cache *)
          v <- fetcher ;;
          cacheSet None key v ttlSeconds ;;
          ret v
      | _ => ret cached
      end
  end.

End Helpers.

End Cache.

(* ------------------------------------------------------------------ *)
(** * The Redis client of the HTTP server                               *)
(* ------------------------------------------------------------------ *)

Module RedisClient.

Definition MAX_REDIS_CONNECTION_ATTEMPTS : Z := 3.

(** [retryStrategy]: the delay before the next attempt in milliseconds,
    [None] (null) to stop retrying. *)
Definition retryStrategy (times : Z) : option Z :=
  if (times >=? MAX_REDIS_CONNECTION_ATTEMPTS)%Z
  then None                              (* Stop retrying after max attempts *)
  else Some (Z.min (times * 200) 1000).

(** The two module variables that the event handlers write. *)
Record state (Redis : Type) : Type := {
  redis : option Redis;
  redisConnectionAttempts : Z
}.

(** The events of the client that have a handler. *)
Inductive event : Type :=
| Error
| Connect.

Section Handlers.
Variable Redis : Type.

(** [redis.on("error", ...)] *)
Definition on_error (st : state Redis) : state Redis :=
  let attempts := (redisConnectionAttempts st + 1)%Z in
  if (attempts >=? MAX_REDIS_CONNECTION_ATTEMPTS)%Z
  then
    (* Disconnect and set to null to prevent further connection attempts *)
    {| redis := match redis st with
                | Some _ => None
                | None => None
                end;
       redisConnectionAttempts := attempts |}
  else {| redis := redis st; redisConnectionAttempts := attempts |}.

(** [redis.on("connect", ...)] *)
Definition on_connect (st : state Redis) : state Redis :=
  (* Reset connection attempts on successful connection *)
  {| redis := redis st; redisConnectionAttempts := 0 |}.

Definition handle (st : state Redis) (ev : event) : state Redis :=
  match ev with
  | Error => on_error st
  | Connect => on_connect st
  end.

(** The state after a sequence of events, from the state in which the
    client was created. *)
Definition after (client : Redis) (events : list event) : state Redis :=
  fold_left handle events {| redis := Some client; redisConnectionAttempts := 0 |}.

End Handlers.

End RedisClient.


(* ------------------------------------------------------------------ *)
(** * The episode of a series, in the handler of [/tv]                  *)
(* ------------------------------------------------------------------ *)

Module TvRoute.

Record FlixHQEpisode : Type := {
  ep_id : jsstring;
  ep_title : jsstring;
  ep_number : option Z;
  ep_season : option Z;
  ep_url : jsstring
}.

(** [field === num] on a field that may be missing and a number that
    [parseInt] returned ([None]: NaN). *)
Definition strict_equal (field num : option Z) : bool :=
  match field, num with
  | Some a, Some b => (a =? b)%Z
  | _, _ => false
  end.

(** [tvInfo.episodes?.find(ep => ep.season === seasonNum &&
    ep.number === episodeNum)] *)
Definition targetEpisode (episodes : option (list FlixHQEpisode))
           (seasonNum episodeNum : option Z) : option FlixHQEpisode :=
  match episodes with
  | Some eps =>
      find (fun ep => strict_equal (ep_season ep) seasonNum
                      && strict_equal (ep_number ep) episodeNum) eps
  | None => None
  end.

(** An object with numbers as keys, its members in the order in which the
    keys of the object are listed: the array indices first, ascending, then
    the other keys in the order they were added. *)
Definition seasons_object : Type := list (Z * list Z).

Fixpoint lookup (season : Z) (o : seasons_object) : option (list Z) :=
  match o with
  | [] => None
  | (k, numbers) :: rest =>
      if (k =? season)%Z then Some numbers else lookup season rest
  end.

(** A key that is an array index: these come first when the keys of an
    object are listed, in ascending order. *)
Definition array_index (k : Z) : bool := ((0 <=? k) && (k <? 4294967295))%Z.

(** [availableSeasons[season] = [number]] for a key that is new. *)
Fixpoint insert (season number : Z) (o : seasons_object) : seasons_object :=
  match o with
  | [] => [(season, [number])]
  | (k, numbers) :: rest =>
      if array_index season && (negb (array_index k) || (season <? k)%Z)
      then (season, [number]) :: o
      else (k, numbers) :: insert season number rest
  end.

(** [availableSeasons[season].push(number)] for a key that is there. *)
Fixpoint append (season number : Z) (o : seasons_object) : seasons_object :=
  match o with
  | [] => []
  | (k, numbers) :: rest =>
      if (k =? season)%Z then (k, numbers ++ [number]) :: rest
      else (k, numbers) :: append season number rest
  end.

(** [availableSeasons[season].push(number)], after
    [if (!availableSeasons[season]) availableSeasons[season] = []] *)
Definition push (season number : Z) (o : seasons_object) : seasons_object :=
  match lookup season o with
  | Some _ => append season number o
  | None => insert season number o
  end.

(** The listing that the handler sends when the episode is not found. *)
Definition availableSeasons (episodes : option (list FlixHQEpisode))
  : seasons_object :=
  fold_left (fun o ep =>
               let season := number_or_0 (ep_season ep) in
               let number := number_or_0 (ep_number ep) in
               push season number o)
            (list_or_empty episodes) [].

End TvRoute.

(* ------------------------------------------------------------------ *)
(** * The script that sends the test requests                           *)
(* ------------------------------------------------------------------ *)

Module LoadScript.

(** [l.slice(0, end)] for an integer [end]: a negative [end] counts from
    the end of the list. *)
Definition slice_to {A : Type} (end_ : Z) (l : list A) : list A :=
  firstn (Z.to_nat (if (end_ <? 0)%Z then Z.of_nat (length l) + end_ else end_)) l.

(** [while (ids.length < TARGET_COUNT) ids.push(seedStart + ids.length)]:
    [fuel] bounds the iterations. *)
Fixpoint pad_loop (fuel : nat) (TARGET_COUNT : Z) (ids : list Z)
  : option (list Z) :=
  if (Z.of_nat (length ids) <? TARGET_COUNT)%Z
  then match fuel with
       | O => None
       | S fuel' =>
           pad_loop fuel' TARGET_COUNT (ids ++ [(10000 + Z.of_nat (length ids))%Z])
       end
  else Some ids.

(** The list [ids] of the script, for a list [tmdbIds] and an integer
    [TARGET_COUNT]; as many iterations as the target are enough. *)
Definition ids (tmdbIds : list Z) (TARGET_COUNT : Z) : outcome (list Z) :=
  let ids := slice_to TARGET_COUNT tmdbIds in
  if (Z.of_nat (length ids) <? TARGET_COUNT)%Z
  then match pad_loop (Z.to_nat TARGET_COUNT) TARGET_COUNT ids with
       | Some padded => Return padded
       | None => Diverge
       end
  else Return ids.

End LoadScript.

(* ------------------------------------------------------------------ *)
(** * The handlers of [/movie] and [/tv]                                *)
(* ------------------------------------------------------------------ *)

Module Routes.

Local Open Scope effect_scope.

Definition TMDB_IMAGE_BASE_URL : jsstring := js "https://image.tmdb.org/t/p/".
Definition POSTER_SIZE : jsstring := js "w500".
Definition BACKDROP_SIZE : jsstring := js "original".

(** What [flixhq.fetchMediaInfo] resolves to, as far as the handlers read
    it. *)
Record MediaInfo : Type := {
  episodes : option (list TvRoute.FlixHQEpisode);
  media_title : option json;
  image : option json;
  description : option json
}.

(** What [flixhq.fetchMovieEmbedLinks] and [flixhq.fetchTvEpisodeEmbedLinks]
    resolve to. *)
Record EmbedLinks : Type := {
  embed_sources : option json;
  url : option jsstring;
  server : option jsstring;
  isM3U8 : option json;
  quality : option json;
  subtitles : option json
}.

(** The services behind the handlers, by the arguments of the call; [None]
    is a call that fails. *)
Record services : Type := {
  tmdb_details : jsstring -> jsstring -> option json;     (* type, id *)
  tmdb_episode : jsstring -> option Z -> option Z -> option json;
  flixhq_search : option json -> option (list Server.FlixHQSearchResult);
  flixhq_fetchMediaInfo : jsstring -> option MediaInfo;
  flixhq_fetchMovieEmbedLinks : jsstring -> option jsstring -> option EmbedLinks;
  flixhq_fetchTvEpisodeEmbedLinks : jsstring -> option jsstring -> option EmbedLinks
}.

(** The parameters of the route. *)
Record params : Type := {
  tmdbId : jsstring;
  season : jsstring;
  episode : jsstring;
  serverName : option jsstring
}.

(** The body of the answer to [/movie]. *)
Record movie_body : Type := {
  movie_tmdbId : jsstring;
  movie_tmdbTitle : option json;
  movie_tmdbPosterPath : option json;
  movie_tmdbBackdropPath : option json;
  movie_tmdbPosterUrl : option jsstring;          (* None: null *)
  movie_tmdbBackdropUrl : option jsstring;
  movie_title : option json;
  movie_image : option json;
  movie_description : option json;
  movie_sources : list json;
  movie_requestedServer : jsstring
}.

(** The body of the answer to [/tv]. *)
Record episode_body : Type := {
  tv_tmdbId : jsstring;
  tv_tmdbTitle : option json;
  tv_tmdbPosterPath : option json;
  tv_tmdbBackdropPath : option json;
  tv_tmdbPosterUrl : option jsstring;
  tv_tmdbBackdropUrl : option jsstring;
  tv_episodeName : option json;
  tv_title : option json;
  tv_episode : jsstring;
  tv_season : option Z;
  tv_number : option Z;
  tv_image : option json;
  tv_description : option json;
  tv_sources : list json;
  tv_requestedServer : jsstring
}.

(** The objects that the handlers send. *)
Inductive body : Type :=
| ErrorBody (error : string)                     (* { error } *)
| InternalError (message : string)
    (* { error: "Internal server error", message } *)
| NoSources (tmdbDetails : option json)
    (* { error: "No sources found for this movie on FlixHQ", tmdbDetails } *)
| EpisodeNotFound (seasonNum episodeNum : option Z)
                  (availableSeasons : TvRoute.seasons_object)
| MovieBody (b : movie_body)
| EpisodeBody (b : episode_body).

Record response : Type := {
  status : Z;
  sent : body
}.

(** [x.name] for a value [x] of a JSON response. *)
Definition property (name : jsstring) (x : option json) : outcome (option json) :=
  match x with
  | None | Some JNull => Throw "TypeError: Cannot read properties"
  | Some (JObject fields) => Return (lookup_field name fields)
  | Some _ => Return None
  end.

(** The same once [x] is known to be neither null nor undefined. *)
Definition field (name : jsstring) (x : option json) : option json :=
  match x with
  | Some (JObject fields) => lookup_field name fields
  | _ => None
  end.

Definition json_truthy (v : option json) : bool :=
  match v with
  | None | Some JNull | Some (JBool false) | Some (JNumber 0%Z)
  | Some (JString []) => false
  | Some _ => true
  end.

Definition string_field (name : jsstring) (x : option json) : option jsstring :=
  match field name x with
  | Some (JString s) => Some s
  | _ => None
  end.

Definition nullable_number_field (name : jsstring) (x : option json)
  : option Server.nullable_number :=
  match field name x with
  | Some (JNumber z) => Some (Server.Number z)
  | Some JNull => Some Server.Null
  | _ => None
  end.

(** The details of TMDB as [findBestFlixHQMatch] reads them: the response
    is read at its declared type [TMDBMovieDetails | TMDBTVDetails], a field
    holding a string, respectively a number, or null, or missing. A string
    field that holds null reads as a missing one does ([?.substring]); a
    number of seasons that holds null is not undefined, and is kept. *)
Definition details_of (tmdbDetails : option json) : Server.TMDBDetails :=
  {| Server.tmdb_title := string_field (js "title") tmdbDetails;
     Server.tmdb_name := string_field (js "name") tmdbDetails;
     Server.release_date := string_field (js "release_date") tmdbDetails;
     Server.first_air_date := string_field (js "first_air_date") tmdbDetails;
     Server.number_of_seasons :=
       nullable_number_field (js "number_of_seasons") tmdbDetails |}.

(** [path ? `${TMDB_IMAGE_BASE_URL}${size}${path}` : null] *)
Definition image_url (size : jsstring) (path : option jsstring) : option jsstring :=
  if truthy_string path
  then Some (TMDB_IMAGE_BASE_URL ++ size
               ++ match path with Some p => p | None => [] end)
  else None.

(** [a || b] on two values. *)
Definition or_value (a b : option json) : option json :=
  if json_truthy a then a else b.

(** [a || b] on two strings. *)
Definition or_string (a : option jsstring) (b : jsstring) : jsstring :=
  if truthy_string a then match a with Some s => s | None => [] end else b.

(** An object literal: the members that are not undefined. *)
Fixpoint object_literal (members : list (jsstring * option json))
  : list (jsstring * json) :=
  match members with
  | [] => []
  | (name, Some v) :: rest => (name, v) :: object_literal rest
  | (_, None) :: rest => object_literal rest
  end.

(** Normalise result so that "sources" is always an array *)
Definition resultSources (embedLinks : EmbedLinks) (serverName : option jsstring)
  : list json :=
  match embed_sources embedLinks with
  | Some (JArray l) => l
  | _ =>
      if truthy_string (url embedLinks)
      then [JObject
              (object_literal
                 [(js "server",
                   Some (JString (or_string (server embedLinks)
                                    (or_string serverName (js "unknown")))));
                  (js "url", option_map JString (url embedLinks));
                  (js "isM3U8", isM3U8 embedLinks);
                  (js "quality", quality embedLinks);
                  (js "subtitles",
                   or_value (subtitles embedLinks) (Some (JArray [])))])]
      else []
  end.

Section Handlers.

Variable W : Type.
Variable Redis : Type.
Variable JSON_stringify : Cache.cached_value -> option jsstring.
Variable P : primitives.
Variable cacheUtils : Cache.cacheUtils_module W Redis.
Variable remote : services.

(** [res.status(code).json(body)] *)
Definition send (code : Z) (b : body) : M (Cache.state W) response :=
  ret {| status := code; sent := b |}.

Definition getTMDBDetails (redis : option Redis) (id type_ : jsstring)
  : M (Cache.state W) Cache.cached_value :=
  let cacheKey := js "tmdb:details:" ++ type_ ++ js ":" ++ id in
  Cache.cacheFetch JSON_stringify P cacheUtils redis cacheKey
    (data <- await "Request failed" (tmdb_details remote type_ id) ;;
     ret (Some data))
    Cache.CACHE_TTL_SECONDS.

(** Movie endpoint: /movie/{tmdbId}/{server?} *)
Definition movie (redis : option Redis) (req : params)
  : M (Cache.state W) response :=
  try_catch
    ((* Get movie details from TMDB API *)
     tmdbDetails <- getTMDBDetails redis (tmdbId req) (js "movie") ;;
     (* Prepare search query for FlixHQ (prefer TMDB title) *)
     searchQuery <- lift (property (js "title") tmdbDetails) ;;
     searchResults <- await "Request failed"
                            (flixhq_search remote searchQuery) ;;
     found <- lift (Server.findBestFlixHQMatch P searchResults
                      (details_of tmdbDetails) (js "MOVIE")) ;;
     match found with
     | None =>
         send 404 (ErrorBody "Movie not found on FlixHQ after multiple attempts")
     | Some movie =>
         (* Fetch movie info from FlixHQ *)
         movieInfo <- await "Request failed"
                            (flixhq_fetchMediaInfo remote (Server.id movie)) ;;
         (* For movies, get the first episode (which is the movie itself) *)
         match episodes movieInfo with
         | Some (first :: _) =>
             (* Get all available servers and sources *)
             embedLinks <-
               await "Request failed"
                     (flixhq_fetchMovieEmbedLinks remote (TvRoute.ep_id first)
                        (if truthy_string (serverName req)
                         then serverName req else None)) ;;
             send 200
               (MovieBody
                  {| movie_tmdbId := tmdbId req;
                     movie_tmdbTitle := field (js "title") tmdbDetails;
                     movie_tmdbPosterPath := field (js "poster_path") tmdbDetails;
                     movie_tmdbBackdropPath :=
                       field (js "backdrop_path") tmdbDetails;
                     movie_tmdbPosterUrl :=
                       image_url POSTER_SIZE
                         (string_field (js "poster_path") tmdbDetails);
                     movie_tmdbBackdropUrl :=
                       image_url BACKDROP_SIZE
                         (string_field (js "backdrop_path") tmdbDetails);
                     movie_title := media_title movieInfo;
                     movie_image := image movieInfo;
                     movie_description :=
                       or_value (description movieInfo)
                                (field (js "overview") tmdbDetails);
                     movie_sources := resultSources embedLinks (serverName req);
                     movie_requestedServer :=
                       or_string (serverName req) (js "all") |})
         | _ => send 404 (NoSources tmdbDetails)
         end
     end)
    (fun message => send 500 (InternalError message)).

(** TV Series endpoint: /tv/{tmdbId}/{season}/{episode}/{server?} *)
Definition tv (redis : option Redis) (req : params)
  : M (Cache.state W) response :=
  try_catch
    (let seasonNum := JsString.parseInt (season req) in
     let episodeNum := JsString.parseInt (episode req) in
     (* Get TMDB details in parallel *)
     tmdbDetails <- getTMDBDetails redis (tmdbId req) (js "tv") ;;
     let episodeDetails :=
       match tmdb_episode remote (tmdbId req) seasonNum episodeNum with
       | Some data => Some data
       | None => Some JNull                         (* .catch(() => null) *)
       end in
     if negb (json_truthy tmdbDetails)
     then send 404 (ErrorBody "TV show not found on TMDB")
     else
       (* Prepare search query for FlixHQ (prefer TMDB name) *)
       let searchQuery := field (js "name") tmdbDetails in
       searchResults <- await "Request failed"
                              (flixhq_search remote searchQuery) ;;
       found <- lift (Server.findBestFlixHQMatch P searchResults
                        (details_of tmdbDetails) (js "TVSERIES")) ;;
       match found with
       | None =>
           send 404
             (ErrorBody "TV show not found on FlixHQ after multiple attempts")
       | Some tvShow =>
           (* Fetch TV show info from FlixHQ *)
           tvInfo <- await "Request failed"
                           (flixhq_fetchMediaInfo remote (Server.id tvShow)) ;;
           (* Find the requested episode *)
           match TvRoute.targetEpisode (episodes tvInfo) seasonNum episodeNum with
           | None =>
               (* Return a more concise list of available episodes *)
               send 404
                 (EpisodeNotFound seasonNum episodeNum
                    (TvRoute.availableSeasons (episodes tvInfo)))
           | Some targetEpisode =>
               (* Get all available servers and sources for the episode *)
               embedLinks <-
                 await "Request failed"
                       (flixhq_fetchTvEpisodeEmbedLinks remote
                          (TvRoute.ep_id targetEpisode)
                          (if truthy_string (serverName req)
                           then serverName req else None)) ;;
               send 200
                 (EpisodeBody
                    {| tv_tmdbId := tmdbId req;
                       tv_tmdbTitle := field (js "name") tmdbDetails;
                       tv_tmdbPosterPath := field (js "poster_path") tmdbDetails;
                       tv_tmdbBackdropPath :=
                         field (js "backdrop_path") tmdbDetails;
                       tv_tmdbPosterUrl :=
                         image_url POSTER_SIZE
                           (string_field (js "poster_path") tmdbDetails);
                       tv_tmdbBackdropUrl :=
                         image_url BACKDROP_SIZE
                           (string_field (js "backdrop_path") tmdbDetails);
                       tv_episodeName :=
                         or_value (field (js "name") episodeDetails)
                                  (Some (JString (TvRoute.ep_title targetEpisode)));
                       tv_title := media_title tvInfo;
                       tv_episode := TvRoute.ep_title targetEpisode;
                       tv_season := seasonNum;
                       tv_number := episodeNum;
                       tv_image := image tvInfo;
                       tv_description :=
                         or_value (field (js "overview") episodeDetails)
                                  (field (js "overview") tmdbDetails);
                       tv_sources := resultSources embedLinks (serverName req);
                       tv_requestedServer :=
                         or_string (serverName req) (js "all") |})
           end
       end)
    (fun message => send 500 (InternalError message)).

End Handlers.

End Routes.

(* ------------------------------------------------------------------ *)
(** * Vocabulary of the further properties                          *)
(* ------------------------------------------------------------------ *)

(** The double quote, code unit 34, and the text [data-id=Q]. *)
Definition data_id_prefix : jsstring := js "data-id=" ++ [34%N].

(** An occurrence of the text [data-id=QidQ] with a value [id] that is not
    empty and holds no quote: [pre] and [post] are the text on either side.
    The pattern of the source has no boundary in front, so [pre] is any
    text: the end of a longer attribute name, as [data-episode-data-id], is
    such an occurrence too. *)
Definition data_id_text_at (html pre fileId post : jsstring) : Prop :=
  html = pre ++ data_id_prefix ++ fileId ++ [34%N] ++ post /\
  fileId <> [] /\ forallb CharClass.not_quote fileId = true.

(** The request that the resolver with the salted strategy only sends to the
    sources endpoint: the last segment of the path as id, and the token of
    the page when the page was fetched and holds one. *)
Definition SaltedOnly_id_url (url : URL) : jsstring :=
  MAIN_URL ++ js "/embed-1/v3/e-1/getSources?id=" ++ last_segment 47 (pathname url).

Definition SaltedOnly_api_url (w : world) (url : URL) : jsstring :=
  MAIN_URL ++ js "/embed-1/v3/e-1/getSources?id=" ++ last_segment 47 (pathname url)
    ++ match embed_page w (href url) with
       | Some html =>
           match js_match html re_nonce48 with
           | Some m => js "&_k=" ++ whole m
           | None => []
           end
       | None => []
       end.

(** The search results that [findBestFlixHQMatch] considers for the TMDB
    title [raw]: those of the type asked for. *)
Definition relevant (type_ : jsstring) (m : Server.FlixHQSearchResult) : Prop :=
  Server.type m = type_.

(** [searchResults.results.filter(m => m.type === type)] *)
Definition relevantResults (type_ : jsstring)
           (results : list Server.FlixHQSearchResult)
  : list Server.FlixHQSearchResult :=
  filter (fun m => jsstring_eqb (Server.type m) type_) results.

Definition similar_to (P : primitives) (raw : jsstring)
           (m : Server.FlixHQSearchResult) : Prop :=
  Server.isTitleSimilarEnough P (Server.title m) (toLowerCase P raw) = true.

(** How far the season count of a search result (0 when missing) is from
    [n], as the code computes it: [Math.abs(seasons - n)] on doubles, NaN
    being [None]. *)
Definition season_distance (n : Z) (m : Server.FlixHQSearchResult) : option Z :=
  Server.abs_diff (Some (number_or_0 (Server.seasons m))) (Some n).

(** [Math.abs(a - n)] for a finite [n], where it is no NaN. *)
Definition distance_to (n : Z) (a : Z) : Z :=
  match Double.sub a n with
  | Some d => Z.abs d
  | None => 0%Z
  end.

(** The text [QfileQ:Q] that opens the member read by [re_file]. *)
Definition file_prefix : jsstring := [34%N] ++ js "file" ++ [34%N] ++ js ":" ++ [34%N].

(** A member [QfileQ:QvalueQ] of a text whose value holds no double quote and
    no line terminator; [pre] and [post] are the text on either side. *)
Definition file_member_at (text pre value post : jsstring) : Prop :=
  text = pre ++ file_prefix ++ value ++ [34%N] ++ post /\
  forallb CharClass.dot value = true /\
  forallb CharClass.not_quote value = true.

(** The first such member of a text. *)
Definition first_file_member (text pre value post : jsstring) : Prop :=
  file_member_at text pre value post /\
  forall pre' value' post',
    file_member_at text pre' value' post' -> length pre <= length pre'.

(** The page of [url] is fetched and holds the nonce; the sources endpoint
    answers [data] for the id of the URL and that nonce. *)
Definition reaches_payload_by_id (w : world) (url : URL) (nonce : jsstring)
           (data : extractedSrc) : Prop :=
  exists html,
    embed_page w (href url) = Some html /\
    extractNonce html = Some nonce /\
    getSources w (getSources_url (RemoteByShape.id_of url) nonce) = Some (Some data).

(** What [cacheFetch] makes of the outcome of the fetcher when it has found
    nothing in the memory cache: a value is stored under [key] with its
    expiry, an exception passes. *)
Definition store_fetched {W : Type}
           (JSON_stringify : Cache.cached_value -> option jsstring)
           (key : jsstring) (ttlSeconds : Z)
           (fetched : outcome Cache.cached_value * Cache.state W * list call)
  : outcome Cache.cached_value * Cache.state W * list call :=
  match fetched with
  | (Return v, st, trace) =>
      (Return v,
       Cache.set_memoryCache
         (JsMap.set key {| Cache.value := JSON_stringify v;
                           Cache.expiresAt := Cache.now st + ttlSeconds * 1000 |}
                    (Cache.memoryCache st)) st,
       trace)
  | other => other
  end.

(** The entry of [key] is present and has not expired. *)
Definition fresh_entry {W : Type} (st : Cache.state W) (key : jsstring)
           (cached : Cache.entry) : Prop :=
  JsMap.get key (Cache.memoryCache st) = Some cached /\
  (Cache.now st <= Cache.expiresAt cached)%Z.

(** What [cacheGet] returns for a fresh entry: its text, parsed. *)
Definition parsed_entry (P : primitives) (cached : Cache.entry)
  : outcome Cache.cached_value :=
  match Cache.value cached with
  | Some text =>
      match JSON_parse P text with
      | Some v => Return (Some v)
      | None => Throw "SyntaxError"
      end
  | None => Throw "SyntaxError"
  end.

(** The numbers (0 when missing) of the episodes whose season (0 when
    missing) is [season], in the order of the episodes. *)
Definition numbers_of_season (season : Z) (eps : list TvRoute.FlixHQEpisode)
  : list Z :=
  map (fun ep => number_or_0 (TvRoute.ep_number ep))
      (filter (fun ep => (number_or_0 (TvRoute.ep_season ep) =? season)%Z) eps).

(** Three [error] events in a row, with no [connect] between them. *)
Definition three_errors_in_a_row (events : list RedisClient.event) : Prop :=
  exists before later,
    events = before ++ [RedisClient.Error; RedisClient.Error; RedisClient.Error]
                    ++ later.

(** The number of [error] events since the last [connect]. *)
Fixpoint errors_at_end (reversed : list RedisClient.event) : Z :=
  match reversed with
  | RedisClient.Error :: earlier => (errors_at_end earlier + 1)%Z
  | _ => 0%Z
  end.

(* ------------------------------------------------------------------ *)
(** * Further sample data                                           *)
(* ------------------------------------------------------------------ *)

(** A network whose key document holds a secret, and a payload encrypted
    under it with the salted scheme. *)
Module SampleSecret.

Definition secret : jsstring := js "s3cret".

Definition keys : key_document :=
  {| vidstr := Some secret; rabbit := None; rabbitstream_key := None |}.

Definition ciphertext : jsstring :=
  encrypt_salted Sample.node secret (ascii_bytes "saltsalt")
    (ascii_bytes "https://cdn/x.m3u8").

Definition payload_encrypted : extractedSrc :=
  {| sources := SourcesString ciphertext;
     tracks := Some [Sample.captions_en; Sample.thumbnails];
     t := Some 0%Z; server := Some 1%Z; encrypted := Some true |}.

Definition world_of (html : jsstring) (payload : extractedSrc) : world :=
  {| embed_page := fun url => if jsstring_eqb url Sample.embed_url
                              then Some html else None;
     getSources := fun _ => Some (Some payload);
     key_file := Some keys |}.

Definition url : URL :=
  {| href := Sample.embed_url; pathname := Sample.path_of Sample.embed_url |}.

End SampleSecret.

Module SampleShows.

Definition kitchen_wars_uk : Server.FlixHQSearchResult :=
  {| Server.id := js "tv/watch-kitchen-wars-uk-41000";
     Server.title := js "Kitchen Wars";
     Server.type := js "TV Series"; Server.releaseDate := Some (js "2019-03-01");
     Server.seasons := Some 5%Z |}.

(** The TMDB details of a series with four seasons. *)
Definition kitchen_wars_details : Server.TMDBDetails :=
  {| Server.tmdb_title := None; Server.tmdb_name := Some (js "Kitchen Wars");
     Server.release_date := None; Server.first_air_date := Some (js "2019-03-01");
     Server.number_of_seasons := Some (Server.Number 4) |}.

End SampleShows.

Module SampleRemote.

(** What the decoding service answers: a text that is no JSON. *)
Definition answer : jsstring :=
  js "ok " ++ file_prefix ++ js "https://cdn/x.m3u8" ++ [34%N] ++ js " done".

Definition world_of (html : jsstring) (payload : extractedSrc) : remote_world :=
  {| network := SampleSecret.world_of html payload;
     decoding_service := fun _ => Some (DataText answer) |}.

(** A string payload that is no URL, flagged as encrypted. *)
Definition payload_opaque : extractedSrc :=
  {| sources := SourcesString (js "b3BhcXVl");
     tracks := Some [Sample.captions_en; Sample.thumbnails];
     t := Some 0%Z; server := Some 1%Z; encrypted := Some true |}.

End SampleRemote.

(** Stand-ins for [JSON.stringify] and [JSON.parse], on null and on strings
    without escapes, and a server without Redis. *)
Module SampleCache.

Definition stringify (v : Cache.cached_value) : option jsstring :=
  match v with
  | None => None
  | Some JNull => Some (js "null")
  | Some (JString s) => Some ([34%N] ++ s ++ [34%N])
  | Some _ => Some (js "{}")
  end.

Definition parse (text : jsstring) : option json :=
  if jsstring_eqb text (js "null") then Some JNull
  else match text with
       | 34%N :: rest =>
           match rev rest with
           | 34%N :: body => Some (JString (rev body))
           | _ => None
           end
       | _ => None
       end.

Definition node : primitives :=
  {| md5 := md5 Sample.node;
     sha256 := sha256 Sample.node;
     aes256_encrypt_block := aes256_encrypt_block Sample.node;
     aes256_decrypt_block := aes256_decrypt_block Sample.node;
     utf8_encode := utf8_encode Sample.node;
     utf8_decode := utf8_decode Sample.node;
     JSON_parse := parse;
     toLowerCase := toLowerCase Sample.node;
     new_URL := new_URL Sample.node |}.

Definition no_redis : Cache.cacheUtils_module unit unit :=
  {| Cache.cacheUtils_get := fun _ _ => throw "Redis is not connected";
     Cache.cacheUtils_set := fun _ _ _ _ => throw "Redis is not connected";
     Cache.cacheUtils_fetch := fun _ _ _ _ => throw "Redis is not connected" |}.

(** An empty cache at a time [now]. *)
Definition empty (now : Z) : Cache.state unit :=
  {| Cache.memoryCache := []; Cache.now := now; Cache.outside := tt |}.

(** The same cache [ms] milliseconds later. *)
Definition later (ms : Z) (st : Cache.state unit) : Cache.state unit :=
  {| Cache.memoryCache := Cache.memoryCache st;
     Cache.now := (Cache.now st + ms)%Z;
     Cache.outside := Cache.outside st |}.

Definition key : jsstring := js "tmdb:details:movie:550".

End SampleCache.

Module SampleRoutes.

Definition heat_details : json :=
  JObject [(js "title", JString (js "Heat"));
           (js "release_date", JString (js "1995-12-15"));
           (js "overview", JString (js "A crew of thieves."))].

Definition kitchen_wars_details : json :=
  JObject [(js "name", JString (js "Kitchen Wars"));
           (js "first_air_date", JString (js "2019-03-01"));
           (js "number_of_seasons", JNumber 2)].

Definition kitchen_wars : Server.FlixHQSearchResult :=
  {| Server.id := js "tv/watch-kitchen-wars-39000";
     Server.title := js "Kitchen Wars";
     Server.type := js "TVSERIES"; Server.releaseDate := None;
     Server.seasons := Some 2%Z |}.

Definition episode_of (season number : Z) (id title : string)
  : TvRoute.FlixHQEpisode :=
  {| TvRoute.ep_id := js id; TvRoute.ep_title := js title;
     TvRoute.ep_number := Some number; TvRoute.ep_season := Some season;
     TvRoute.ep_url := js "https://flixhq.to/ajax/episode/" ++ js id |}.

Definition listing : list TvRoute.FlixHQEpisode :=
  [episode_of 1 1 "1001" "Eps 1: Knives Out";
   episode_of 1 2 "1002" "Eps 2: Salt";
   episode_of 2 1 "2001" "Eps 1: Second Helping"].

Definition stream : Routes.EmbedLinks :=
  {| Routes.embed_sources := None;
     Routes.url := Some (js "https://cdn/x.m3u8");
     Routes.server := None;
     Routes.isM3U8 := Some (JBool true);
     Routes.quality := None;
     Routes.subtitles := None |}.

Definition remote : Routes.services :=
  {| Routes.tmdb_details := fun type_ _ =>
       if jsstring_eqb type_ (js "movie") then Some heat_details
       else Some kitchen_wars_details;
     Routes.tmdb_episode := fun _ _ _ => None;
     Routes.flixhq_search := fun _ =>
       Some [SampleCatalog.heat_2023; kitchen_wars; SampleCatalog.heat_1995];
     Routes.flixhq_fetchMediaInfo := fun _ =>
       Some {| Routes.episodes := Some listing;
               Routes.media_title := Some (JString (js "Kitchen Wars"));
               Routes.image := None;
               Routes.description := None |};
     Routes.flixhq_fetchMovieEmbedLinks := fun _ _ => Some stream;
     Routes.flixhq_fetchTvEpisodeEmbedLinks := fun _ _ => Some stream |}.

Definition request (season episode : string) : Routes.params :=
  {| Routes.tmdbId := js "949"; Routes.season := js season;
     Routes.episode := js episode; Routes.serverName := None |}.

(** A request of [/movie/949]: the route has no season and no episode. *)
Definition movie_request : Routes.params :=
  {| Routes.tmdbId := js "949"; Routes.season := [];
     Routes.episode := []; Routes.serverName := None |}.

Definition getTMDBDetails :=
  Routes.getTMDBDetails SampleCache.stringify SampleCache.node
    SampleCache.no_redis remote None.

Definition movie :=
  Routes.movie SampleCache.stringify SampleCache.node SampleCache.no_redis
    remote None.

Definition tv :=
  Routes.tv SampleCache.stringify SampleCache.node SampleCache.no_redis
    remote None.

(** The answer of [/tv/949/1/2] over these services. *)
Definition second_episode : Routes.episode_body :=
  {| Routes.tv_tmdbId := js "949";
     Routes.tv_tmdbTitle := Some (JString (js "Kitchen Wars"));
     Routes.tv_tmdbPosterPath := None;
     Routes.tv_tmdbBackdropPath := None;
     Routes.tv_tmdbPosterUrl := None;
     Routes.tv_tmdbBackdropUrl := None;
     Routes.tv_episodeName := Some (JString (js "Eps 2: Salt"));
     Routes.tv_title := Some (JString (js "Kitchen Wars"));
     Routes.tv_episode := js "Eps 2: Salt";
     Routes.tv_season := Some 1%Z;
     Routes.tv_number := Some 2%Z;
     Routes.tv_image := None;
     Routes.tv_description := None;
     Routes.tv_sources :=
       [JObject [(js "server", JString (js "unknown"));
                 (js "url", JString (js "https://cdn/x.m3u8"));
                 (js "isM3U8", JBool true);
                 (js "subtitles", JArray [])]];
     Routes.tv_requestedServer := js "all" |}.

End SampleRoutes.

(* ================================================================== *)
(** * Part II: properties                                               *)
(* ================================================================== *)

Unset Implicit Arguments.

(** ** The matcher on the patterns of the source *)

Section MatcherFacts.
Variable R : Type.
Implicit Types (k : cont R) (b a : list N) (caps : captures).

Lemma rmatch_seq r1 r2 cur caps k :
  rmatch r1 cur caps (fun cur' caps' => rmatch r2 cur' caps' k)
  = rmatch (Seq r1 r2) cur caps k.
Proof. reflexivity. Qed.

Lemma rmatch_repeat_chr p n : forall b a caps k,
  rmatch (Repeat n (Chr p)) (b, a) caps k =
  if (n <=? length a)%nat && forallb p (firstn n a)
  then k (rev (firstn n a) ++ b, skipn n a) caps else None.
Proof.
  induction n as [|n IH]; intros b a caps k.
  - reflexivity.
  - destruct a as [|c a'].
    + reflexivity.
    + change (rmatch (Repeat (S n) (Chr p)) (b, c :: a') caps k)
        with (if p c then rmatch (Repeat n (Chr p)) (c :: b, a') caps k else None).
      rewrite IH. simpl firstn. simpl skipn. simpl forallb. simpl rev.
      rewrite <- app_assoc. simpl app.
      change (S n <=? length (c :: a'))%nat with (n <=? length a')%nat.
      destruct (p c); [reflexivity|].
      rewrite andb_false_r. reflexivity.
Qed.

Lemma alnum_word c : CharClass.alnum c = true -> CharClass.word c = true.
Proof. unfold CharClass.word. intros ->. reflexivity. Qed.

Lemma is_word_at_alnum l rest :
  l <> [] -> forallb CharClass.alnum l = true -> is_word_at (l ++ rest) = true.
Proof.
  destruct l as [|c l]; [congruence|]. simpl. intros _ H.
  apply andb_prop in H. apply alnum_word, H.
Qed.

Lemma is_word_at_rev_alnum l rest :
  l <> [] -> forallb CharClass.alnum l = true ->
  is_word_at (rev l ++ rest) = true.
Proof.
  intros Hne H. apply is_word_at_alnum.
  - intros E. apply Hne. rewrite <- (rev_involutive l), E. reflexivity.
  - rewrite forallb_forall in *. intros x Hx. apply H, in_rev, Hx.
Qed.

Lemma firstn_nonempty (n : nat) a :
  (S n <=? length a)%nat = true -> firstn (S n) a <> [].
Proof. destruct a; simpl; [discriminate|congruence]. Qed.

Lemma consumed_firstn n b a b' :
  (n <=? length a)%nat = true -> consumed (b, a) (b', skipn n a) = firstn n a.
Proof.
  intros H. apply Nat.leb_le in H. unfold consumed. cbn [snd].
  rewrite length_skipn. f_equal. lia.
Qed.

(** A body that eats [S n] alphanumeric code units, between two [\b]. *)
Lemma rmatch_delimited body f n b a caps k :
  (forall k', rmatch body (b, a) caps k' =
              if (S n <=? length a)%nat && forallb CharClass.alnum (firstn (S n) a)
              then k' (rev (firstn (S n) a) ++ b, skipn (S n) a) (f caps)
              else None) ->
  rmatch (Seq WordB (Seq body WordB)) (b, a) caps k
  = if run_here (S n) b a
    then k (rev (firstn (S n) a) ++ b, skipn (S n) a) (f caps) else None.
Proof.
  intros Hbody.
  change (rmatch (Seq WordB (Seq body WordB)) (b, a) caps k)
    with (if boundary (b, a)
          then rmatch body (b, a) caps
                 (fun cur' caps' => if boundary cur' then k cur' caps' else None)
          else None).
  rewrite Hbody. unfold run_here, boundary. cbn [fst snd].
  destruct (S n <=? length a)%nat eqn:Hlen; cbn [andb];
    [|rewrite andb_false_r; destruct (xorb _ _); reflexivity].
  destruct (forallb CharClass.alnum (firstn (S n) a)) eqn:Hal; cbn [andb];
    [|rewrite andb_false_r; destruct (xorb _ _); reflexivity].
  rewrite andb_true_r.
  assert (Hw : is_word_at a = true).
  { rewrite <- (firstn_skipn (S n) a).
    apply is_word_at_alnum; [apply firstn_nonempty, Hlen | exact Hal]. }
  rewrite Hw, (is_word_at_rev_alnum _ b (firstn_nonempty _ _ Hlen) Hal).
  destruct (is_word_at b), (is_word_at (skipn (S n) a)); reflexivity.
Qed.

(** [\b[a-zA-Z0-9]{n}\b] at a cursor is the test [run_here]. *)
Lemma rmatch_run n b a caps k :
  rmatch (Seq WordB (Seq (Repeat (S n) (Chr CharClass.alnum)) WordB)) (b, a) caps k
  = if run_here (S n) b a
    then k (rev (firstn (S n) a) ++ b, skipn (S n) a) caps else None.
Proof.
  apply (rmatch_delimited _ (fun c => c)). intros k'. apply rmatch_repeat_chr.
Qed.

(** [\b([a-zA-Z0-9]{n})\b]: the group captures the run. *)
Lemma rmatch_run_group i n b a caps k :
  rmatch (Seq WordB (Seq (Group i (Repeat (S n) (Chr CharClass.alnum))) WordB))
         (b, a) caps k
  = if run_here (S n) b a
    then k (rev (firstn (S n) a) ++ b, skipn (S n) a)
           ((i, firstn (S n) a) :: caps)
    else None.
Proof.
  apply (rmatch_delimited _ (fun c => (i, firstn (S n) a) :: c)). intros k'.
  change (rmatch (Group i (Repeat (S n) (Chr CharClass.alnum))) (b, a) caps k')
    with (rmatch (Repeat (S n) (Chr CharClass.alnum)) (b, a) caps
            (fun cur' caps' => k' cur' ((i, consumed (b, a) cur') :: caps'))).
  rewrite rmatch_repeat_chr.
  destruct (S n <=? length a)%nat eqn:Hlen; [|reflexivity].
  rewrite (consumed_firstn _ _ _ _ Hlen). reflexivity.
Qed.

(** *** The lazy star *)

Lemma lazy_star_skip p k caps : forall g b rest,
  forallb p g = true ->
  (forall g1 g2, g = g1 ++ g2 -> g2 <> [] ->
                 k (rev g1 ++ b, g2 ++ rest) caps = None) ->
  lazy_star p b (g ++ rest) caps k = lazy_star p (rev g ++ b) rest caps k.
Proof.
  induction g as [|c g IH]; intros b rest Hp Hnone.
  - reflexivity.
  - simpl in Hp. apply andb_prop in Hp as [Hc Hg].
    simpl app. simpl lazy_star.
    pose proof (Hnone [] (c :: g) eq_refl ltac:(discriminate)) as H0.
    simpl in H0. rewrite H0, Hc.
    rewrite IH; [simpl; rewrite <- app_assoc; reflexivity | exact Hg |].
    intros g1 g2 -> Hne.
    specialize (Hnone (c :: g1) g2 eq_refl Hne).
    simpl in Hnone. rewrite <- app_assoc in Hnone. exact Hnone.
Qed.

Lemma lazy_star_here p k caps b a r :
  k (b, a) caps = Some r -> lazy_star p b a caps k = Some r.
Proof. intros H. destruct a; simpl; rewrite H; reflexivity. Qed.

Lemma lazy_star_some p k caps r : forall a b,
  lazy_star p b a caps k = Some r ->
  exists g rest, a = g ++ rest /\ forallb p g = true /\
                 k (rev g ++ b, rest) caps = Some r /\
                 (forall g1 g2, g = g1 ++ g2 -> g2 <> [] ->
                                k (rev g1 ++ b, g2 ++ rest) caps = None).
Proof.
  induction a as [|c a IH]; intros b H; simpl in H.
  - destruct (k (b, []) caps) eqn:E; [|discriminate].
    exists [], []. repeat split; try assumption.
    + simpl. congruence.
    + intros g1 g2 E' Hne. destruct g1, g2; try discriminate. congruence.
  - destruct (k (b, c :: a) caps) eqn:E.
    + exists [], (c :: a). repeat split.
      * simpl. congruence.
      * intros g1 g2 E' Hne. destruct g1, g2; try discriminate. congruence.
    + destruct (p c) eqn:Hc; [|discriminate].
      destruct (IH _ H) as (g & rest & -> & Hg & Hk & Hmin).
      exists (c :: g), rest. repeat split.
      * simpl. rewrite Hc, Hg. reflexivity.
      * simpl. rewrite <- app_assoc. exact Hk.
      * intros g1 g2 E' Hne. destruct g1 as [|c' g1].
        -- simpl in *. subst g2. exact E.
        -- simpl in E'. injection E' as <- ->.
           simpl. rewrite <- app_assoc. apply Hmin; [reflexivity|exact Hne].
Qed.

(** The lazy star succeeds as soon as the rest of the pattern can succeed
    somewhere within its reach. *)
Lemma lazy_star_reach p k caps r : forall g b rest,
  forallb p g = true -> k (rev g ++ b, rest) caps = Some r ->
  exists r', lazy_star p b (g ++ rest) caps k = Some r'.
Proof.
  induction g as [|c g IH]; intros b rest Hp Hk.
  - exists r. apply lazy_star_here. exact Hk.
  - simpl in Hp. apply andb_prop in Hp as [Hc Hg].
    simpl app. simpl lazy_star.
    destruct (k (b, c :: g ++ rest) caps) as [r0|]; [exists r0; reflexivity|].
    rewrite Hc. apply IH; [exact Hg|].
    simpl in Hk. rewrite <- app_assoc in Hk. exact Hk.
Qed.

End MatcherFacts.

(** *** Leftmost search *)

Lemma search_split r : forall pre b suf m,
  (forall p1 p2, pre = p1 ++ p2 -> p2 <> [] ->
                 match_here r (rev p1 ++ b, p2 ++ suf) = None) ->
  match_here r (rev pre ++ b, suf) = Some m ->
  search r b (pre ++ suf) = Some m.
Proof.
  induction pre as [|c pre IH]; intros b suf m Hnone Hm.
  - simpl in *. destruct suf; simpl; rewrite Hm; reflexivity.
  - simpl app. simpl search.
    pose proof (Hnone [] (c :: pre) eq_refl ltac:(discriminate)) as H0.
    simpl in H0. rewrite H0.
    apply IH.
    + intros p1 p2 -> Hne. specialize (Hnone (c :: p1) p2 eq_refl Hne).
      simpl in Hnone. rewrite <- app_assoc in Hnone. exact Hnone.
    + simpl in Hm. rewrite <- app_assoc in Hm. exact Hm.
Qed.

Lemma search_some r m : forall a b,
  search r b a = Some m ->
  exists pre suf, a = pre ++ suf /\
                  match_here r (rev pre ++ b, suf) = Some m /\
                  (forall p1 p2, pre = p1 ++ p2 -> p2 <> [] ->
                                 match_here r (rev p1 ++ b, p2 ++ suf) = None).
Proof.
  induction a as [|c a IH]; intros b H; simpl in H.
  - destruct (match_here r (b, [])) eqn:E; [|discriminate].
    exists [], []. repeat split; [simpl; congruence|].
    intros p1 p2 E' Hne. destruct p1, p2; try discriminate. congruence.
  - destruct (match_here r (b, c :: a)) eqn:E.
    + exists [], (c :: a). repeat split; [simpl; congruence|].
      intros p1 p2 E' Hne. destruct p1, p2; try discriminate. congruence.
    + destruct (IH _ H) as (pre & suf & -> & Hm & Hmin).
      exists (c :: pre), suf. repeat split.
      * simpl. rewrite <- app_assoc. exact Hm.
      * intros p1 p2 E' Hne. destruct p1 as [|c' p1].
        -- simpl in *. subst p2. exact E.
        -- simpl in E'. injection E' as <- ->.
           simpl. rewrite <- app_assoc. apply Hmin; [reflexivity|exact Hne].
Qed.

Lemma search_none r : forall a b,
  search r b a = None ->
  forall pre suf, a = pre ++ suf -> match_here r (rev pre ++ b, suf) = None.
Proof.
  induction a as [|c a IH]; intros b H pre suf E; simpl in H.
  - destruct pre, suf; try discriminate. simpl.
    destruct (match_here r (b, [])); [discriminate|reflexivity].
  - destruct (match_here r (b, c :: a)) eqn:E0; [discriminate|].
    destruct pre as [|c' pre].
    + simpl in *. subst suf. exact E0.
    + simpl in E. injection E as <- ->. simpl. rewrite <- app_assoc.
      apply (IH _ H). reflexivity.
Qed.

Lemma search_reach r m : forall pre b suf,
  match_here r (rev pre ++ b, suf) = Some m ->
  exists m', search r b (pre ++ suf) = Some m'.
Proof.
  intros pre b suf Hm.
  destruct (search r b (pre ++ suf)) as [m'|] eqn:E; [exists m'; reflexivity|].
  rewrite (search_none r _ _ E pre suf eq_refl) in Hm. discriminate.
Qed.

(** ** Runs, in a text and at a cursor *)

Lemma firstn_app_exact {A} (l r : list A) n :
  length l = n -> firstn n (l ++ r) = l.
Proof.
  intros <-. rewrite firstn_app, Nat.sub_diag, firstn_all. simpl.
  apply app_nil_r.
Qed.

Lemma skipn_app_exact {A} (l r : list A) n :
  length l = n -> skipn n (l ++ r) = r.
Proof.
  intros <-. rewrite skipn_app, Nat.sub_diag, skipn_all. reflexivity.
Qed.

Lemma run_here_intro n before run after :
  delimited_run n before run after ->
  run_here n (rev before) (run ++ after) = true.
Proof.
  intros (Hlen & Hal & Hb & Ha). unfold run_here.
  rewrite (firstn_app_exact _ _ _ Hlen), (skipn_app_exact _ _ _ Hlen).
  unfold ends_with_word, starts_with_word in *. rewrite Hb, Ha, Hal.
  rewrite length_app, <- Hlen.
  replace (length run <=? length run + length after)%nat with true;
    [reflexivity|]. symmetry. apply Nat.leb_le. lia.
Qed.

Lemma run_here_elim n b a :
  run_here n b a = true ->
  exists run after, a = run ++ after /\ length run = n /\
                    forallb CharClass.alnum run = true /\
                    is_word_at b = false /\ is_word_at after = false.
Proof.
  unfold run_here. intros H.
  apply andb_prop in H as [H Ha]. apply andb_prop in H as [H Hal].
  apply andb_prop in H as [Hb Hlen]. apply Nat.leb_le in Hlen.
  exists (firstn n a), (skipn n a). repeat split.
  - symmetry. apply firstn_skipn.
  - apply firstn_length_le, Hlen.
  - exact Hal.
  - destruct (is_word_at b); [discriminate|reflexivity].
  - destruct (is_word_at (skipn n a)); [discriminate|reflexivity].
Qed.

Lemma run_here_delimited n before a :
  run_here n (rev before) a = true ->
  exists run after, a = run ++ after /\ delimited_run n before run after.
Proof.
  intros H. destruct (run_here_elim _ _ _ H) as (run & after & -> & H1 & H2 & H3 & H4).
  exists run, after. split; [reflexivity|]. repeat split; assumption.
Qed.

(** ** Tier one: the 48-character pattern *)

Lemma match_here_nonce48 b a :
  match_here re_nonce48 (b, a)
  = if run_here 48 b a then Some (MkMatch (firstn 48 a) []) else None.
Proof.
  unfold match_here, re_nonce48. rewrite rmatch_run.
  destruct (run_here 48 b a) eqn:H; [|reflexivity].
  rewrite consumed_firstn; [reflexivity|].
  unfold run_here in H. apply andb_prop in H as [H _].
  apply andb_prop in H as [H _]. apply andb_prop in H as [_ H]. exact H.
Qed.

Lemma app_split_length {A} (p q p' q' : list A) :
  p ++ q = p' ++ q' -> length p <= length p' ->
  exists m, p' = p ++ m /\ q = m ++ q'.
Proof.
  revert p'. induction p as [|x p IH]; intros p' E L.
  - exists p'. simpl in *. auto.
  - destruct p' as [|y p']; [simpl in L; lia|].
    simpl in E. injection E as -> E. simpl in L.
    destruct (IH p' E ltac:(lia)) as (m & -> & ->).
    exists m. auto.
Qed.

Lemma js_match_nonce48_some html m :
  js_match html re_nonce48 = Some m ->
  exists pre run post, first_run48 html pre run post /\ m = MkMatch run [].
Proof.
  unfold js_match. intros H.
  destruct (search_some _ _ _ _ H) as (pre & suf & -> & Hm & Hmin).
  rewrite match_here_nonce48, app_nil_r in Hm.
  destruct (run_here 48 (rev pre) suf) eqn:Hrun; [|discriminate].
  assert (Em : m = MkMatch (firstn 48 suf) []) by congruence. clear Hm H.
  destruct (run_here_delimited _ _ _ Hrun) as (run & post & -> & Hd).
  exists pre, run, post. split.
  - split; [reflexivity|]. split; [exact Hd|].
    intros pre' run' post' E Hd'.
    destruct (Nat.le_gt_cases (length pre) (length pre')) as [|Hlt]; [assumption|].
    exfalso.
    destruct (app_split_length pre' (run' ++ post') pre (run ++ post)
                (eq_sym E) ltac:(lia)) as (mid & -> & E2).
    assert (Hne : mid <> []).
    { intros ->. rewrite app_nil_r in Hlt. lia. }
    specialize (Hmin pre' mid eq_refl Hne).
    rewrite match_here_nonce48, app_nil_r, <- E2 in Hmin.
    rewrite (run_here_intro _ _ _ _ Hd') in Hmin. discriminate.
  - destruct Hd as (Hlen & _).
    rewrite (firstn_app_exact _ _ _ Hlen) in Em. exact Em.
Qed.

Lemma js_match_nonce48_none html :
  js_match html re_nonce48 = None <-> no_run48 html.
Proof.
  unfold js_match, no_run48. split.
  - intros H pre run post -> Hd.
    pose proof (search_none _ _ _ H pre (run ++ post) eq_refl) as Hn.
    rewrite match_here_nonce48, app_nil_r, (run_here_intro _ _ _ _ Hd) in Hn.
    discriminate.
  - intros H. destruct (search re_nonce48 [] html) as [m|] eqn:E; [|reflexivity].
    destruct (js_match_nonce48_some _ _ E) as (pre & run & post & (-> & Hd & _) & _).
    exfalso. exact (H pre run post eq_refl Hd).
Qed.

(** ** Tier two: three 16-character runs *)

Lemma run_here_exact n before run after :
  length run = n -> run_here n (rev before) (run ++ after) = true ->
  delimited_run n before run after.
Proof.
  intros Hlen H. unfold run_here in H.
  rewrite (firstn_app_exact _ _ _ Hlen), (skipn_app_exact _ _ _ Hlen) in H.
  apply andb_prop in H as [H Ha]. apply andb_prop in H as [H Hal].
  apply andb_prop in H as [Hb _].
  unfold delimited_run, ends_with_word, starts_with_word.
  repeat split; try assumption.
  - destruct (is_word_at (rev before)); [discriminate|reflexivity].
  - destruct (is_word_at after); [discriminate|reflexivity].
Qed.

Lemma rev_app3 (pre a g : list N) :
  rev (pre ++ a ++ g) = rev g ++ rev a ++ rev pre.
Proof. rewrite !rev_app_distr, app_assoc. reflexivity. Qed.

Lemma rev_app5 (pre a g1 b g2 : list N) :
  rev (pre ++ a ++ g1 ++ b ++ g2)
  = rev g2 ++ rev b ++ rev g1 ++ rev a ++ rev pre.
Proof. rewrite !rev_app_distr, <- !app_assoc. reflexivity. Qed.

Lemma three_runs_at_iff pre a g1 b g2 c post :
  three_runs_on_a_line (pre ++ a ++ g1 ++ b ++ g2 ++ c ++ post)
                       pre a g1 b g2 c post
  <-> three_runs_at (rev pre) a g1 b g2 c post.
Proof.
  unfold three_runs_on_a_line, three_runs, three_runs_at, no_line_terminator.
  split.
  - intros ((_ & Ha & Hb & Hc) & Hg1 & Hg2).
    pose proof (run_here_intro _ _ _ _ Ha) as Ra.
    pose proof (run_here_intro _ _ _ _ Hb) as Rb.
    pose proof (run_here_intro _ _ _ _ Hc) as Rc.
    rewrite rev_app3 in Rb. rewrite rev_app5 in Rc.
    destruct Ha as (La & _), Hb as (Lb & _), Hc as (Lc & _).
    repeat split; assumption.
  - intros (La & Lb & Lc & Ra & Hg1 & Rb & Hg2 & Rc).
    rewrite <- rev_app3 in Rb. rewrite <- rev_app5 in Rc.
    refine (conj (conj eq_refl (conj _ (conj _ _))) (conj Hg1 Hg2));
      apply run_here_exact; assumption.
Qed.

Lemma consumed_app b l post b' :
  consumed (b, l ++ post) (b', post) = l.
Proof.
  unfold consumed. cbn [snd]. rewrite length_app.
  replace (length l + length post - length post) with (length l) by lia.
  apply firstn_app_exact. reflexivity.
Qed.

Lemma rmatch_seg16 (R : Type) i b a caps (k : cont R) :
  rmatch (re_seg16 i) (b, a) caps k
  = if run_here 16 b a
    then k (rev (firstn 16 a) ++ b, skipn 16 a) ((i, firstn 16 a) :: caps)
    else None.
Proof. unfold re_seg16. apply rmatch_run_group. Qed.

Lemma rmatch_seg16_star (R : Type) i p r b a caps (k : cont R) :
  rmatch (Seq (re_seg16 i) (Seq (LazyStar p) r)) (b, a) caps k
  = if run_here 16 b a
    then lazy_star p (rev (firstn 16 a) ++ b) (skipn 16 a)
           ((i, firstn 16 a) :: caps)
           (fun cur' caps' => rmatch r cur' caps' k)
    else None.
Proof.
  change (rmatch (Seq (re_seg16 i) (Seq (LazyStar p) r)) (b, a) caps k)
    with (rmatch (re_seg16 i) (b, a) caps
            (fun cur' caps' => rmatch (Seq (LazyStar p) r) cur' caps' k)).
  rewrite rmatch_seg16. reflexivity.
Qed.

Lemma run_here_split16 b a :
  run_here 16 b a = true ->
  exists run rest, a = run ++ rest /\ length run = 16 /\
                   firstn 16 a = run /\ skipn 16 a = rest.
Proof.
  intros H. destruct (run_here_elim _ _ _ H) as (run & rest & -> & L & _).
  exists run, rest. repeat split; try assumption.
  - apply firstn_app_exact, L.
  - apply skipn_app_exact, L.
Qed.

(** What a match of the tail means. *)
Lemma tail_inv cur0 b a caps m :
  rmatch re_tail16x2 (b, a) caps (finish cur0) = Some m ->
  exists rb g2 rc post,
    a = rb ++ g2 ++ rc ++ post /\ length rb = 16 /\ length rc = 16 /\
    run_here 16 b a = true /\ forallb CharClass.dot g2 = true /\
    run_here 16 (rev g2 ++ rev rb ++ b) (rc ++ post) = true /\
    m = MkMatch (consumed cur0 (rev rc ++ rev g2 ++ rev rb ++ b, post))
                ((3, rc) :: (2, rb) :: caps) /\
    (forall x y, g2 = x ++ y -> y <> [] ->
                 run_here 16 (rev x ++ rev rb ++ b) (y ++ rc ++ post) = false).
Proof.
  unfold re_tail16x2. rewrite rmatch_seg16_star.
  destruct (run_here 16 b a) eqn:Rb; [|discriminate].
  destruct (run_here_split16 _ _ Rb) as (rb & rest & -> & Lb & -> & ->).
  intros H. apply lazy_star_some in H.
  destruct H as (g2 & rest' & -> & Hg2 & Hk & Hmin).
  rewrite rmatch_seg16 in Hk.
  destruct (run_here 16 (rev g2 ++ rev rb ++ b) rest') eqn:Rc; [|discriminate].
  destruct (run_here_split16 _ _ Rc) as (rc & post & -> & Lc & E1 & E2).
  rewrite E1, E2 in Hk. unfold finish in Hk.
  exists rb, g2, rc, post. repeat split; try assumption.
  - congruence.
  - intros x y -> Hne. specialize (Hmin x y eq_refl Hne).
    rewrite rmatch_seg16 in Hmin.
    destruct (run_here 16 (rev x ++ rev rb ++ b) (y ++ rc ++ post));
      [discriminate|reflexivity].
Qed.

Lemma tail_reach cur0 b rb g2 rc post caps :
  length rb = 16 ->
  run_here 16 b (rb ++ g2 ++ rc ++ post) = true ->
  forallb CharClass.dot g2 = true ->
  run_here 16 (rev g2 ++ rev rb ++ b) (rc ++ post) = true ->
  exists m, rmatch re_tail16x2 (b, rb ++ g2 ++ rc ++ post) caps (finish cur0)
            = Some m.
Proof.
  intros Lb Rb Hg2 Rc. unfold re_tail16x2.
  rewrite rmatch_seg16_star, Rb.
  rewrite (firstn_app_exact _ _ _ Lb), (skipn_app_exact _ _ _ Lb).
  eapply lazy_star_reach; [exact Hg2|].
  rewrite rmatch_seg16, Rc. unfold finish. reflexivity.
Qed.

(** What a match of the whole pattern at a cursor means. *)
Lemma match_here_16x3_inv b0 s m :
  match_here re_nonce16x3 (b0, s) = Some m ->
  exists a g1 b g2 c post,
    s = a ++ g1 ++ b ++ g2 ++ c ++ post /\
    three_runs_at b0 a g1 b g2 c post /\
    m = MkMatch (a ++ g1 ++ b ++ g2 ++ c) [(3, c); (2, b); (1, a)] /\
    (forall x y, g1 = x ++ y -> y <> [] ->
       rmatch re_tail16x2 (rev x ++ rev a ++ b0, y ++ b ++ g2 ++ c ++ post)
              [(1, a)] (finish (b0, s)) = None) /\
    (forall x y, g2 = x ++ y -> y <> [] ->
       run_here 16 (rev x ++ rev b ++ rev g1 ++ rev a ++ b0) (y ++ c ++ post)
       = false).
Proof.
  unfold match_here, re_nonce16x3.
  change (fun (cur' : cursor) (caps : captures) =>
            Some (MkMatch (consumed (b0, s) cur') caps))
    with (finish (b0, s)).
  rewrite rmatch_seg16_star.
  destruct (run_here 16 b0 s) eqn:Ra; [|discriminate].
  destruct (run_here_split16 _ _ Ra) as (a & rest & Es & La & -> & ->).
  intros H. apply lazy_star_some in H.
  destruct H as (g1 & rest' & -> & Hg1 & Hk & Hmin).
  fold re_tail16x2 in Hk, Hmin.
  apply tail_inv in Hk.
  destruct Hk as (b & g2 & c & post & -> & Lb & Lc & Rb & Hg2 & Rc & Em & Hmin2).
  exists a, g1, b, g2, c, post.
  split; [exact Es|]. split; [|split; [|split]].
  - unfold three_runs_at. rewrite <- Es.
    repeat split; assumption.
  - rewrite Em, Es.
    replace (a ++ g1 ++ b ++ g2 ++ c ++ post)
      with ((a ++ g1 ++ b ++ g2 ++ c) ++ post)
      by (rewrite <- !app_assoc; reflexivity).
    rewrite consumed_app. reflexivity.
  - intros x y -> Hne. exact (Hmin x y eq_refl Hne).
  - intros x y -> Hne. specialize (Hmin2 x y eq_refl Hne).
    exact Hmin2.
Qed.

Lemma match_here_16x3_reach b0 a g1 b g2 c post :
  three_runs_at b0 a g1 b g2 c post ->
  exists m, match_here re_nonce16x3 (b0, a ++ g1 ++ b ++ g2 ++ c ++ post)
            = Some m.
Proof.
  intros (La & Lb & Lc & Ra & Hg1 & Rb & Hg2 & Rc).
  unfold match_here, re_nonce16x3.
  rewrite rmatch_seg16_star, Ra.
  rewrite (firstn_app_exact _ _ _ La), (skipn_app_exact _ _ _ La).
  destruct (tail_reach (b0, a ++ g1 ++ b ++ g2 ++ c ++ post)
              (rev g1 ++ rev a ++ b0) b g2 c post [(1, a)] Lb Rb Hg2)
    as (m & Hm).
  { exact Rc. }
  eapply lazy_star_reach; [exact Hg1|]. exact Hm.
Qed.

Lemma app_eq_len {A} (p q p' q' : list A) :
  p ++ q = p' ++ q' -> length p = length p' -> p = p' /\ q = q'.
Proof.
  intros E L. destruct (app_split_length p q p' q' E ltac:(lia)) as (m & -> & ->).
  rewrite length_app in L. destruct m; [|simpl in L; lia].
  rewrite app_nil_r. auto.
Qed.

Lemma app_split_shorter {A} (p q p' q' : list A) :
  p ++ q = p' ++ q' -> length p < length p' ->
  exists m, m <> [] /\ p' = p ++ m /\ q = m ++ q'.
Proof.
  intros E L. destruct (app_split_length p q p' q' E ltac:(lia)) as (m & -> & ->).
  exists m. repeat split. intros ->. rewrite app_nil_r in L. lia.
Qed.

Lemma js_match_16x3_some html m :
  js_match html re_nonce16x3 = Some m ->
  exists pre a g1 b g2 c post,
    leftmost_three_runs html pre a g1 b g2 c post /\
    m = MkMatch (a ++ g1 ++ b ++ g2 ++ c) [(3, c); (2, b); (1, a)].
Proof.
  unfold js_match. intros H.
  destruct (search_some _ _ _ _ H) as (pre & s & -> & Hm & Hmin).
  rewrite app_nil_r in Hm.
  destruct (match_here_16x3_inv _ _ _ Hm)
    as (a & g1 & b & g2 & c & post & -> & Hat & -> & Hmin1 & Hmin2).
  exists pre, a, g1, b, g2, c, post. split; [|reflexivity].
  split; [apply three_runs_at_iff, Hat|].
  intros pre' a' g1' b' g2' c' post' H'.
  assert (E : pre ++ a ++ g1 ++ b ++ g2 ++ c ++ post
              = pre' ++ a' ++ g1' ++ b' ++ g2' ++ c' ++ post')
    by (destruct H' as ((E & _) & _); exact E).
  rewrite E in H'. apply three_runs_at_iff in H'.
  split.
  { destruct (Nat.le_gt_cases (length pre) (length pre')) as [|Hlt]; [assumption|].
    exfalso.
    destruct (app_split_shorter _ _ _ _ (eq_sym E) Hlt) as (mid & Hne & -> & E2).
    specialize (Hmin pre' mid eq_refl Hne). rewrite app_nil_r, <- E2 in Hmin.
    destruct (match_here_16x3_reach _ _ _ _ _ _ _ H') as (m' & Hm').
    congruence. }
  intros Lpre. destruct (app_eq_len _ _ _ _ E (eq_sym Lpre)) as (<- & E1).
  destruct H' as (La' & Lb' & Lc' & Ra' & Hg1' & Rb' & Hg2' & Rc').
  destruct Hat as (La & Lb & Lc & Ra & Hg1 & Rb & Hg2 & Rc).
  destruct (app_eq_len _ _ _ _ E1 ltac:(lia)) as (<- & E2).
  split.
  { destruct (Nat.le_gt_cases (length g1) (length g1')) as [|Hlt]; [assumption|].
    exfalso.
    destruct (app_split_shorter _ _ _ _ (eq_sym E2) Hlt) as (y & Hne & -> & E3).
    specialize (Hmin1 g1' y eq_refl Hne). rewrite <- E3 in Hmin1.
    destruct (tail_reach (rev pre, a ++ (g1' ++ y) ++ b ++ g2 ++ c ++ post)
                (rev g1' ++ rev a ++ rev pre) b' g2' c' post' [(1, a)]
                Lb' Rb' Hg2' Rc') as (m' & Hm').
    congruence. }
  intros Lg1. destruct (app_eq_len _ _ _ _ E2 (eq_sym Lg1)) as (<- & E3).
  destruct (app_eq_len _ _ _ _ E3 ltac:(lia)) as (<- & E4).
  destruct (Nat.le_gt_cases (length g2) (length g2')) as [|Hlt]; [assumption|].
  exfalso.
  destruct (app_split_shorter _ _ _ _ (eq_sym E4) Hlt) as (y & Hne & -> & E5).
  specialize (Hmin2 g2' y eq_refl Hne). rewrite <- E5 in Hmin2.
  congruence.
Qed.

Lemma js_match_16x3_reach html pre a g1 b g2 c post :
  three_runs_on_a_line html pre a g1 b g2 c post ->
  exists m, js_match html re_nonce16x3 = Some m.
Proof.
  intros H.
  assert (E : html = pre ++ a ++ g1 ++ b ++ g2 ++ c ++ post)
    by (destruct H as ((E & _) & _); exact E).
  subst html. apply three_runs_at_iff in H.
  destruct (match_here_16x3_reach _ _ _ _ _ _ _ H) as (m & Hm).
  unfold js_match. apply (search_reach _ m pre []).
  rewrite app_nil_r. exact Hm.
Qed.

Lemma leftmost_three_runs_unique html pre a g1 b g2 c post pre' a' g1' b' g2' c' post' :
  leftmost_three_runs html pre a g1 b g2 c post ->
  leftmost_three_runs html pre' a' g1' b' g2' c' post' ->
  a = a' /\ b = b' /\ c = c'.
Proof.
  intros (H1 & L1) (H2 & L2).
  destruct (L1 _ _ _ _ _ _ _ H2) as (P1 & Q1).
  destruct (L2 _ _ _ _ _ _ _ H1) as (P2 & Q2).
  assert (Lp : length pre = length pre') by lia.
  destruct (Q1 (eq_sym Lp)) as (G1 & K1). destruct (Q2 Lp) as (G2 & K2).
  assert (Lg : length g1 = length g1') by lia.
  specialize (K1 (eq_sym Lg)). specialize (K2 Lg).
  assert (Lh : length g2 = length g2') by lia.
  destruct H1 as ((E1 & (La & _) & (Lb & _) & (Lc & _)) & _).
  destruct H2 as ((E2 & (La' & _) & (Lb' & _) & (Lc' & _)) & _).
  rewrite E1 in E2.
  destruct (app_eq_len _ _ _ _ E2 Lp) as (_ & E3).
  destruct (app_eq_len _ _ _ _ E3 ltac:(lia)) as (Ea & E4).
  destruct (app_eq_len _ _ _ _ E4 Lg) as (_ & E5).
  destruct (app_eq_len _ _ _ _ E5 ltac:(lia)) as (Eb & E6).
  destruct (app_eq_len _ _ _ _ E6 Lh) as (_ & E7).
  destruct (app_eq_len _ _ _ _ E7 ltac:(lia)) as (Ec & _).
  auto.
Qed.

(** ** The token extractor *)

Lemma first_run48_unique html pre run post pre' run' post' :
  first_run48 html pre run post -> first_run48 html pre' run' post' ->
  run = run'.
Proof.
  intros (E & D & F) (E' & D' & F').
  pose proof (F _ _ _ E' D'). pose proof (F' _ _ _ E D).
  rewrite E in E'.
  destruct (app_eq_len _ _ _ _ E' ltac:(lia)) as (_ & E2).
  destruct D as (L & _), D' as (L' & _).
  destruct (app_eq_len _ _ _ _ E2 ltac:(lia)) as (Er & _). exact Er.
Qed.

Lemma extractNonce_tier1 html m :
  js_match html re_nonce48 = Some m -> extractNonce html = Some (whole m).
Proof. unfold extractNonce. intros ->. reflexivity. Qed.

Lemma extractNonce_tier2 html :
  js_match html re_nonce48 = None ->
  extractNonce html =
  match js_match html re_nonce16x3 with
  | Some match2 =>
      Some (group_or_empty match2 1 ++ group_or_empty match2 2
              ++ group_or_empty match2 3)
  | None => None
  end.
Proof. unfold extractNonce. intros ->. reflexivity. Qed.

(** C4. Whenever the HTML contains a run of exactly 48 alphanumeric
    characters delimited by word boundaries, [extractNonce] returns the first
    such run of the document: a first run exists and is what is returned, so
    a run that is the first one is returned itself. *)
Theorem extractNonce_returns_first_run48 html pre run post :
  html = pre ++ run ++ post ->
  delimited_run 48 pre run post ->
  (exists pre1 run1 post1,
      first_run48 html pre1 run1 post1 /\ extractNonce html = Some run1) /\
  (first_run48 html pre run post -> extractNonce html = Some run).
Proof.
  intros E D.
  assert (Hex : exists pre1 run1 post1,
             first_run48 html pre1 run1 post1 /\ extractNonce html = Some run1).
  { assert (Hm : match_here re_nonce48 (rev pre ++ [], run ++ post)
                 = Some (MkMatch (firstn 48 (run ++ post)) [])).
    { rewrite match_here_nonce48, app_nil_r, (run_here_intro _ _ _ _ D).
      reflexivity. }
    destruct (search_reach _ _ _ _ _ Hm) as (m & Hs).
    rewrite <- E in Hs.
    destruct (js_match_nonce48_some html m Hs) as (p1 & r1 & q1 & F & ->).
    exists p1, r1, q1. split; [exact F|].
    rewrite (extractNonce_tier1 _ _ Hs). reflexivity. }
  split; [exact Hex|].
  intros F. destruct Hex as (p1 & r1 & q1 & F1 & ->).
  f_equal. eapply first_run48_unique; eassumption.
Qed.

Lemma extractNonce_returns_first_run48_witness :
  (exists pre1 run1 post1,
      first_run48
        (js "k=" ++ js "abcdefghij0123456789ABCDEFGHIJ0123456789abcdefgh" ++ js ";")
        pre1 run1 post1 /\
      extractNonce
        (js "k=" ++ js "abcdefghij0123456789ABCDEFGHIJ0123456789abcdefgh" ++ js ";")
      = Some run1) /\
  (first_run48
     (js "k=" ++ js "abcdefghij0123456789ABCDEFGHIJ0123456789abcdefgh" ++ js ";")
     (js "k=") (js "abcdefghij0123456789ABCDEFGHIJ0123456789abcdefgh") (js ";") ->
   extractNonce
     (js "k=" ++ js "abcdefghij0123456789ABCDEFGHIJ0123456789abcdefgh" ++ js ";")
   = Some (js "abcdefghij0123456789ABCDEFGHIJ0123456789abcdefgh")).
Proof.
  apply (extractNonce_returns_first_run48
           (js "k=" ++ js "abcdefghij0123456789ABCDEFGHIJ0123456789abcdefgh" ++ js ";")
           (js "k=") (js "abcdefghij0123456789ABCDEFGHIJ0123456789abcdefgh")
           (js ";") eq_refl).
  repeat split; reflexivity.
Defined.

Lemma extractNonce_shape html nonce :
  extractNonce html = Some nonce ->
  length nonce = 48 /\ forallb CharClass.alnum nonce = true.
Proof.
  intros H.
  destruct (js_match html re_nonce48) as [m1|] eqn:H1.
  - rewrite (extractNonce_tier1 _ _ H1) in H. injection H as <-.
    destruct (js_match_nonce48_some _ _ H1)
      as (pre & run & post & (_ & (L & Hal & _) & _) & ->).
    split; assumption.
  - rewrite (extractNonce_tier2 _ H1) in H.
    destruct (js_match html re_nonce16x3) as [m2|] eqn:H2; [|discriminate].
    destruct (js_match_16x3_some _ _ H2)
      as (pre & a & g1 & b & g2 & c & post & (T & _) & ->).
    injection H as <-.
    destruct T as ((_ & (La & Aa & _) & (Lb & Ab & _) & (Lc & Ac & _)) & _).
    change (length (a ++ b ++ c) = 48
            /\ forallb CharClass.alnum (a ++ b ++ c) = true).
    rewrite !length_app, !forallb_app, La, Lb, Lc, Aa, Ab, Ac.
    split; reflexivity.
Qed.

(** C9. A nonce returned by [extractNonce] always has exactly 48 characters,
    all of them alphanumeric, whichever of the two patterns produced it. *)
Theorem extractNonce_is_48_alphanumerics html nonce :
  extractNonce html = Some nonce ->
  length nonce = 48 /\ forallb CharClass.alnum nonce = true.
Proof. apply extractNonce_shape. Qed.

Lemma extractNonce_is_48_alphanumerics_witness :
  length (js "aaaaaaaaaaaaaaaabbbbbbbbbbbbbbbbcccccccccccccccc") = 48 /\
  forallb CharClass.alnum (js "aaaaaaaaaaaaaaaabbbbbbbbbbbbbbbbcccccccccccccccc")
  = true.
Proof.
  apply (extractNonce_is_48_alphanumerics
           (js "x=[aaaaaaaaaaaaaaaa,bbbbbbbbbbbbbbbb,cccccccccccccccc]")).
  vm_compute. reflexivity.
Defined.

(** C5, as stated, fails: three 16-character runs in document order, each on
    a line of its own, and no 48-character run, yet no nonce is returned: the
    [.] of the pattern does not cross a line terminator. *)
Lemma extractNonce_three_runs_counterexample :
  ~ (forall html pre a g1 b g2 c post,
        no_run48 html -> three_runs html pre a g1 b g2 c post ->
        extractNonce html = Some (a ++ b ++ c)).
Proof.
  intros H.
  specialize (H (js "aaaaaaaaaaaaaaaa" ++ [10%N] ++ js "bbbbbbbbbbbbbbbb"
                   ++ [10%N] ++ js "cccccccccccccccc" ++ [])
                [] (js "aaaaaaaaaaaaaaaa") [10%N] (js "bbbbbbbbbbbbbbbb")
                [10%N] (js "cccccccccccccccc") []).
  assert (Hn : extractNonce
                 (js "aaaaaaaaaaaaaaaa" ++ [10%N] ++ js "bbbbbbbbbbbbbbbb"
                    ++ [10%N] ++ js "cccccccccccccccc" ++ []) = None)
    by (vm_compute; reflexivity).
  rewrite Hn in H. 
  assert (Hc : @None jsstring = Some (js "aaaaaaaaaaaaaaaa" ++ js "bbbbbbbbbbbbbbbb" ++ js "cccccccccccccccc")); [|discriminate].
  apply H.
  - apply js_match_nonce48_none. vm_compute. reflexivity.
  - unfold three_runs, delimited_run. repeat split; reflexivity.
Qed.

(** C5, amended. When the HTML contains no delimited 48-character run but
    contains three delimited 16-character runs in document order with no
    line terminator between them, [extractNonce] returns the concatenation,
    in document order, of the leftmost such three runs; when it contains
    neither a delimited 48-character run nor three such runs on a line, it
    returns null. *)
Theorem extractNonce_three_runs_on_a_line html :
  no_run48 html ->
  (forall pre a g1 b g2 c post,
      three_runs_on_a_line html pre a g1 b g2 c post ->
      exists pre' a' g1' b' g2' c' post',
        leftmost_three_runs html pre' a' g1' b' g2' c' post' /\
        extractNonce html = Some (a' ++ b' ++ c')) /\
  (forall pre a g1 b g2 c post,
      leftmost_three_runs html pre a g1 b g2 c post ->
      extractNonce html = Some (a ++ b ++ c)) /\
  ((forall pre a g1 b g2 c post,
       ~ three_runs_on_a_line html pre a g1 b g2 c post) ->
   extractNonce html = None).
Proof.
  intros Hno. apply js_match_nonce48_none in Hno.
  assert (Hex : forall pre a g1 b g2 c post,
      three_runs_on_a_line html pre a g1 b g2 c post ->
      exists pre' a' g1' b' g2' c' post',
        leftmost_three_runs html pre' a' g1' b' g2' c' post' /\
        extractNonce html = Some (a' ++ b' ++ c')).
  { intros pre a g1 b g2 c post T.
    destruct (js_match_16x3_reach _ _ _ _ _ _ _ _ T) as (m & Hm).
    destruct (js_match_16x3_some _ _ Hm)
      as (pre' & a' & g1' & b' & g2' & c' & post' & Hl & ->).
    exists pre', a', g1', b', g2', c', post'. split; [exact Hl|].
    rewrite (extractNonce_tier2 _ Hno), Hm. reflexivity. }
  split; [exact Hex|]. split.
  - intros pre a g1 b g2 c post Hl.
    destruct (Hex _ _ _ _ _ _ _ (proj1 Hl))
      as (pre' & a' & g1' & b' & g2' & c' & post' & Hl' & ->).
    destruct (leftmost_three_runs_unique _ _ _ _ _ _ _ _ _ _ _ _ _ _ _ Hl Hl')
      as (-> & -> & ->).
    reflexivity.
  - intros Hnone. rewrite (extractNonce_tier2 _ Hno).
    destruct (js_match html re_nonce16x3) as [m|] eqn:Hm; [|reflexivity].
    exfalso.
    destruct (js_match_16x3_some _ _ Hm)
      as (pre & a & g1 & b & g2 & c & post & (T & _) & _).
    exact (Hnone _ _ _ _ _ _ _ T).
Qed.

Lemma extractNonce_three_runs_on_a_line_witness :
  exists pre a g1 b g2 c post,
    leftmost_three_runs
      (js "x=[" ++ js "aaaaaaaaaaaaaaaa" ++ js "," ++ js "bbbbbbbbbbbbbbbb"
          ++ js "," ++ js "cccccccccccccccc" ++ js "]")
      pre a g1 b g2 c post /\
    extractNonce
      (js "x=[" ++ js "aaaaaaaaaaaaaaaa" ++ js "," ++ js "bbbbbbbbbbbbbbbb"
          ++ js "," ++ js "cccccccccccccccc" ++ js "]")
    = Some (a ++ b ++ c).
Proof.
  refine (proj1 (extractNonce_three_runs_on_a_line _ _)
                (js "x=[") (js "aaaaaaaaaaaaaaaa") (js ",")
                (js "bbbbbbbbbbbbbbbb") (js ",") (js "cccccccccccccccc")
                (js "]") _).
  - apply js_match_nonce48_none. vm_compute. reflexivity.
  - unfold three_runs_on_a_line, three_runs, delimited_run, no_line_terminator.
    repeat split; reflexivity.
Defined.

(** ** The token extractor on examples *)

(** The whole text is the run. *)
Example nonce_is_the_text : extractNonce (Sample.a16 ++ Sample.b16 ++ Sample.c16) = Some (Sample.a16 ++ Sample.b16 ++ Sample.c16).
Proof. vm_compute. reflexivity. Qed.

(** 49 characters are no run of 48, and no run of 16 either. *)
Example nonce_49_characters : extractNonce (Sample.a16 ++ Sample.b16 ++ Sample.c16 ++ js "x") = None.
Proof. vm_compute. reflexivity. Qed.

(** An underscore is a word character: no boundary next to it. *)
Example nonce_after_underscore :
  extractNonce (js "_" ++ Sample.a16 ++ Sample.b16 ++ Sample.c16 ++ js " ") = None.
Proof. vm_compute. reflexivity. Qed.

(** The 48-character pattern is tried first, wherever the runs of 16 are. *)
Example nonce_tier_order :
  extractNonce (Sample.a16 ++ js " " ++ Sample.b16 ++ js " " ++ Sample.c16 ++ js " "
                    ++ Sample.d16 ++ Sample.d16 ++ Sample.d16)
  = Some (Sample.d16 ++ Sample.d16 ++ Sample.d16).
Proof. vm_compute. reflexivity. Qed.

(** A run alone on its line is given up for three runs on the next line. *)
Example nonce_backtracks_to_next_line :
  extractNonce (Sample.a16 ++ [10%N] ++ Sample.b16 ++ js "," ++ Sample.c16 ++ js "," ++ Sample.d16)
  = Some (Sample.b16 ++ Sample.c16 ++ Sample.d16).
Proof. vm_compute. reflexivity. Qed.

(** Of four runs on a line, the first three. *)
Example nonce_first_three :
  extractNonce (Sample.a16 ++ js "-" ++ Sample.b16 ++ js "-" ++ Sample.c16 ++ js "-" ++ Sample.d16)
  = Some (Sample.a16 ++ Sample.b16 ++ Sample.c16).
Proof. vm_compute. reflexivity. Qed.

(** U+2028 ends a line as LF does. *)
Example nonce_line_separator :
  extractNonce (Sample.a16 ++ js "," ++ Sample.b16 ++ [8232%N] ++ Sample.c16) = None.
Proof. vm_compute. reflexivity. Qed.

(** ** AES-256-CBC with PKCS#7 padding: decryption undoes encryption *)

Lemma byte_xor_involutive x y : Cbc.byte_xor (Cbc.byte_xor x y) y = x.
Proof.
  unfold Cbc.byte_xor.
  destruct (Byte.to_bits x) as [a0 [a1 [a2 [a3 [a4 [a5 [a6 a7]]]]]]] eqn:Ex.
  destruct (Byte.to_bits y) as [b0 [b1 [b2 [b3 [b4 [b5 [b6 b7]]]]]]] eqn:Ey.
  rewrite Byte.to_bits_of_bits.
  rewrite !xorb_assoc, !xorb_nilpotent, !xorb_false_r.
  rewrite <- Ex. apply Byte.of_bits_to_bits.
Qed.

Lemma xor_bytes_length a : forall b,
  length a <= length b -> length (Cbc.xor_bytes a b) = length a.
Proof.
  induction a as [|x a IH]; intros [|y b] H;
    cbn [Cbc.xor_bytes length] in *; try lia.
  rewrite IH; lia.
Qed.

Lemma xor_bytes_involutive a : forall b,
  length a <= length b -> Cbc.xor_bytes (Cbc.xor_bytes a b) b = a.
Proof.
  induction a as [|x a IH]; intros [|y b] H;
    cbn [Cbc.xor_bytes length] in *; try lia; try reflexivity.
  rewrite byte_xor_involutive, IH; [reflexivity | lia].
Qed.

Lemma pad_length p : exists k, length (Cbc.pad p) = 16 * S k.
Proof.
  unfold Cbc.pad. rewrite length_app, repeat_length.
  exists (length p / 16).
  pose proof (Nat.div_mod_eq (length p) 16).
  pose proof (Nat.mod_upper_bound (length p) 16). lia.
Qed.

Lemma byte_to_nat_of_nat n : n <= 255 -> Byte.to_nat (Cbc.byte_of_nat n) = n.
Proof.
  intros H. unfold Cbc.byte_of_nat.
  destruct (Byte.of_nat n) as [b|] eqn:E.
  - apply Byte.to_of_nat, E.
  - apply Byte.of_nat_None_iff in E. lia.
Qed.

Lemma last_app_repeat {A} (l : list A) x d n :
  last (l ++ repeat x (S n)) d = x.
Proof.
  replace (repeat x (S n)) with (repeat x n ++ [x]).
  - rewrite app_assoc. apply last_last.
  - change [x] with (repeat x 1). rewrite <- repeat_app. f_equal. lia.
Qed.

Lemma forallb_eqb_repeat b n : forallb (Byte.eqb b) (repeat b n) = true.
Proof.
  induction n; simpl; [reflexivity|].
  rewrite IHn, (Byte.byte_dec_lb eq_refl). reflexivity.
Qed.

Lemma unpad_pad p : Cbc.unpad (Cbc.pad p) = Some p.
Proof.
  unfold Cbc.unpad, Cbc.pad.
  pose proof (Nat.mod_upper_bound (length p) 16 ltac:(lia)) as Hm.
  remember (16 - length p mod 16) as n eqn:En.
  destruct n as [|n]; [lia|].
  rewrite last_app_repeat, byte_to_nat_of_nat by lia.
  rewrite length_app, repeat_length.
  replace (length p + S n - S n) with (length p) by lia.
  rewrite (skipn_app_exact _ _ _ eq_refl), (firstn_app_exact _ _ _ eq_refl).
  rewrite forallb_eqb_repeat.
  replace (1 <=? S n) with true by (symmetry; apply Nat.leb_le; lia).
  replace (S n <=? 16) with true by (symmetry; apply Nat.leb_le; lia).
  replace (S n <=? length p + S n) with true by (symmetry; apply Nat.leb_le; lia).
  reflexivity.
Qed.

Section CbcBlocks.
Variables (E D : bytes -> bytes).
Hypothesis E_length : forall b, length b = 16 -> length (E b) = 16.
Hypothesis D_inverts_E : forall b, length b = 16 -> D (E b) = b.

Lemma encrypt_blocks_length n : forall prev pt,
  length prev = 16 -> length pt = 16 * n ->
  length (Cbc.encrypt_blocks E n prev pt) = 16 * n.
Proof.
  induction n as [|n IH]; intros prev pt Hp Hl; cbn [Cbc.encrypt_blocks];
    [reflexivity|].
  assert (Hx : length (Cbc.xor_bytes (firstn 16 pt) prev) = 16).
  { rewrite xor_bytes_length; rewrite firstn_length_le; lia. }
  rewrite length_app, (E_length _ Hx), IH.
  - lia.
  - apply E_length, Hx.
  - rewrite length_skipn. lia.
Qed.

Lemma decrypt_encrypt_blocks n : forall prev pt,
  length prev = 16 -> length pt = 16 * n ->
  Cbc.decrypt_blocks D n prev (Cbc.encrypt_blocks E n prev pt) = pt.
Proof.
  induction n as [|n IH]; intros prev pt Hp Hl;
    cbn [Cbc.encrypt_blocks Cbc.decrypt_blocks].
  - destruct pt; [reflexivity|simpl in Hl; lia].
  - assert (Hx : length (Cbc.xor_bytes (firstn 16 pt) prev) = 16).
    { rewrite xor_bytes_length; rewrite firstn_length_le; lia. }
    pose proof (E_length _ Hx) as Hc.
    rewrite (firstn_app_exact _ _ _ Hc), (skipn_app_exact _ _ _ Hc).
    rewrite D_inverts_E, xor_bytes_involutive by (try exact Hx; rewrite firstn_length_le; lia).
    rewrite IH; [apply firstn_skipn | exact Hc | rewrite length_skipn; lia].
Qed.

End CbcBlocks.

Lemma cbc_decrypt_encrypt P key iv pt :
  primitives_ok P -> length key = 32 -> length iv = 16 ->
  Cbc.decrypt P key iv (Cbc.encrypt P key iv pt) = Some pt.
Proof.
  intros [_ HEl HDE] Hk Hiv. unfold Cbc.decrypt, Cbc.encrypt.
  destruct (pad_length pt) as (k & Hlen).
  assert (Hdiv : length (Cbc.pad pt) / 16 = S k).
  { rewrite Hlen, Nat.mul_comm. apply Nat.div_mul. lia. }
  rewrite Hdiv.
  pose proof (encrypt_blocks_length (aes256_encrypt_block P key)
                (fun b => HEl key b Hk) (S k) iv (Cbc.pad pt) Hiv Hlen) as Hct.
  rewrite Hct, Hk, Hiv.
  replace (16 * S k / 16) with (S k) by (rewrite Nat.mul_comm, Nat.div_mul; lia).
  replace ((16 * S k) mod 16) with 0
    by (rewrite Nat.mul_comm, Nat.Div0.mod_mul; reflexivity).
  replace (0 <? 16 * S k) with true by (symmetry; apply Nat.ltb_lt; lia).
  cbn [Nat.eqb andb].
  rewrite (decrypt_encrypt_blocks _ _ (fun b => HEl key b Hk)
             (fun b => HDE key b Hk) (S k) iv (Cbc.pad pt) Hiv Hlen).
  apply unpad_pad.
Qed.

(** ** Base64: decoding undoes encoding *)

Lemma unbase64_b64char_nat n :
  n < 64 -> Base64.unbase64 (Base64.b64char (N.of_nat n)) = Some (N.of_nat n).
Proof.
  intros H.
  do 64 (destruct n as [|n]; [vm_compute; reflexivity|]).
  lia.
Qed.

Lemma unbase64_b64char v :
  (v < 64)%N -> Base64.unbase64 (Base64.b64char v) = Some v.
Proof.
  intros H. rewrite <- (N2Nat.id v). apply unbase64_b64char_nat. lia.
Qed.

Lemma b64char_not_padding_nat n :
  n < 64 -> (Base64.b64char (N.of_nat n) =? 61)%N = false.
Proof.
  intros H.
  do 64 (destruct n as [|n]; [vm_compute; reflexivity|]).
  lia.
Qed.

Lemma low_byte_b64char_nat n :
  n < 64 -> Base64.low_byte (Base64.b64char (N.of_nat n)) = Base64.b64char (N.of_nat n).
Proof.
  intros H.
  do 64 (destruct n as [|n]; [vm_compute; reflexivity|]).
  lia.
Qed.

Lemma sextets_b64char v rest :
  (v < 64)%N ->
  Base64.sextets (Base64.b64char v :: rest) = v :: Base64.sextets rest.
Proof.
  intros H. cbn [Base64.sextets]. cbv zeta.
  assert (Hlow : Base64.low_byte (Base64.b64char v) = Base64.b64char v).
  { rewrite <- (N2Nat.id v). apply low_byte_b64char_nat. lia. }
  assert (Hpad : (Base64.b64char v =? 61)%N = false).
  { rewrite <- (N2Nat.id v). apply b64char_not_padding_nat. lia. }
  rewrite Hlow, Hpad, (unbase64_b64char _ H). reflexivity.
Qed.

Lemma sextets_padding rest : Base64.sextets (61%N :: rest) = [].
Proof. reflexivity. Qed.

Lemma byte_of_N_to_N b : byte_of_N (Byte.to_N b) = b.
Proof.
  unfold byte_of_N. pose proof (Byte.to_N_bounded b).
  rewrite N.mod_small by lia. rewrite Byte.of_to_N. reflexivity.
Qed.

Lemma byte_of_N_eq n b : n = Byte.to_N b -> byte_of_N n = b.
Proof. intros ->. apply byte_of_N_to_N. Qed.

Lemma list_ind3 {A} (Q : list A -> Prop) :
  Q [] -> (forall a, Q [a]) -> (forall a b, Q [a; b]) ->
  (forall a b c l, Q l -> Q (a :: b :: c :: l)) ->
  forall l, Q l.
Proof.
  intros H0 H1 H2 H3 l.
  enough (Q l /\ (forall a, Q (a :: l)) /\ (forall a b, Q (a :: b :: l))) by tauto.
  induction l as [|x l (IH0 & IH1 & IH2)].
  - auto.
  - repeat split; auto.
Qed.

Ltac Zify.zify_post_hook ::= Z.to_euclidean_division_equations.

Lemma base64_decode_encode l : Base64.decode (Base64.encode l) = l.
Proof.
  unfold Base64.decode. induction l as [|b1|b1 b2|b1 b2 b3 l IH] using list_ind3.
  - reflexivity.
  - cbn [Base64.encode]. pose proof (Byte.to_N_bounded b1).
    rewrite !sextets_b64char, !sextets_padding by lia.
    cbn [Base64.sextets Base64.decode_groups]. f_equal.
    apply byte_of_N_eq. lia.
  - cbn [Base64.encode].
    pose proof (Byte.to_N_bounded b1). pose proof (Byte.to_N_bounded b2).
    rewrite !sextets_b64char, !sextets_padding by lia.
    cbn [Base64.sextets Base64.decode_groups].
    f_equal; [|f_equal]; apply byte_of_N_eq; lia.
  - cbn [Base64.encode].
    pose proof (Byte.to_N_bounded b1). pose proof (Byte.to_N_bounded b2).
    pose proof (Byte.to_N_bounded b3).
    rewrite !sextets_b64char by lia.
    cbn [Base64.decode_groups]. rewrite IH.
    f_equal; [|f_equal; [|f_equal]]; apply byte_of_N_eq; lia.
Qed.

(** A code unit from 256 on is read as its low byte: U+0155 counts as
    [U]. *)
Example base64_reads_low_bytes :
  Base64.decode (js "U2FsdGVkX18=") = ascii_bytes "Salted__" /\
  Base64.decode (341%N :: js "2FsdGVkX18=") = ascii_bytes "Salted__".
Proof. split; vm_compute; reflexivity. Qed.

(** ** UTF-8: decoding undoes encoding on well-formed strings *)

Lemma list_ind2 {A} (Q : list A -> Prop) :
  Q [] -> (forall a, Q [a]) ->
  (forall a b l, Q l -> Q (b :: l) -> Q (a :: b :: l)) ->
  forall l, Q l.
Proof.
  intros H0 H1 H2 l.
  enough (Q l /\ forall a, Q (a :: l)) by tauto.
  induction l as [|x l (IH0 & IH1)].
  - auto.
  - split; [apply IH1|]. intros a. apply H2; [exact IH0|apply IH1].
Qed.

Ltac utf8_bounds :=
  unfold Utf8.high_surrogate, Utf8.low_surrogate, Utf8.continuation,
    Utf8.second_lower, Utf8.second_upper, CharClass.in_range in *;
  repeat match goal with
         | H : (_ && _)%bool = true |- _ => apply andb_prop in H; destruct H
         | H : (_ && _)%bool = false |- _ => apply andb_false_iff in H; destruct H
         | H : negb _ = true |- _ => apply negb_true_iff in H
         | H : (_ <? _)%N = true |- _ => apply N.ltb_lt in H
         | H : (_ <? _)%N = false |- _ => apply N.ltb_ge in H
         | H : (_ <=? _)%N = true |- _ => apply N.leb_le in H
         | H : (_ <=? _)%N = false |- _ => apply N.leb_gt in H
         | H : (_ =? _)%N = true |- _ => apply N.eqb_eq in H
         | H : (_ =? _)%N = false |- _ => apply N.eqb_neq in H
         end.

Lemma ltb_false a b : (b <= a)%N -> (a <? b)%N = false.
Proof. intros. apply N.ltb_ge. assumption. Qed.

Lemma in_range_true lo hi c :
  (lo <= c)%N -> (c <= hi)%N -> CharClass.in_range lo hi c = true.
Proof.
  intros. unfold CharClass.in_range.
  apply andb_true_intro. split; apply N.leb_le; assumption.
Qed.

Lemma in_range_false lo hi c :
  (c < lo)%N \/ (hi < c)%N -> CharClass.in_range lo hi c = false.
Proof.
  intros H. unfold CharClass.in_range. apply andb_false_iff.
  destruct H; [left|right]; apply N.leb_gt; assumption.
Qed.

(** One character of a well-formed string and its bytes. *)
Lemma decode_one_byte c l :
  (c < 128)%N -> Utf8.decode_bytes (c :: l) = c :: Utf8.decode_bytes l.
Proof.
  intros H. cbn [Utf8.decode_bytes].
  replace (c <? 128)%N with true by (symmetry; apply N.ltb_lt; exact H).
  reflexivity.
Qed.

Lemma decode_two_bytes c l :
  (128 <= c < 2048)%N ->
  Utf8.decode_bytes (192 + c / 64 :: 128 + c mod 64 :: l)%N
  = c :: Utf8.decode_bytes l.
Proof.
  intros H. cbn [Utf8.decode_bytes].
  rewrite ltb_false by lia.
  rewrite in_range_true by lia.
  unfold Utf8.continuation. rewrite in_range_true by lia.
  f_equal. lia.
Qed.

Lemma decode_three_bytes c l :
  (2048 <= c < 65536)%N -> Utf8.high_surrogate c = false ->
  Utf8.low_surrogate c = false ->
  Utf8.decode_bytes
    (224 + c / 4096 :: 128 + (c / 64) mod 64 :: 128 + c mod 64 :: l)%N
  = c :: Utf8.decode_bytes l.
Proof.
  intros H Hh Hl.
  assert (Hc : (c < 55296 \/ 57343 < c)%N).
  { utf8_bounds; lia. }
  cbn [Utf8.decode_bytes].
  rewrite ltb_false by lia.
  rewrite (in_range_false 194 223) by lia.
  rewrite (in_range_true 224 239) by lia.
  assert (H2 : CharClass.in_range (Utf8.second_lower (224 + c / 4096))
                 (Utf8.second_upper (224 + c / 4096))
                 (128 + (c / 64) mod 64) = true).
  { unfold Utf8.second_lower, Utf8.second_upper.
    destruct (224 + c / 4096 =? 224)%N eqn:E0;
      destruct (224 + c / 4096 =? 237)%N eqn:E1;
      destruct (224 + c / 4096 =? 240)%N eqn:E2;
      destruct (224 + c / 4096 =? 244)%N eqn:E3;
      utf8_bounds; apply in_range_true; lia. }
  rewrite H2. unfold Utf8.continuation. rewrite in_range_true by lia.
  f_equal. lia.
Qed.

Lemma decode_four_bytes c d l :
  Utf8.high_surrogate c = true -> Utf8.low_surrogate d = true ->
  Utf8.decode_bytes
    (let cp := 65536 + (c - 55296) * 1024 + (d - 56320) in
     240 + cp / 262144 :: 128 + (cp / 4096) mod 64 :: 128 + (cp / 64) mod 64
       :: 128 + cp mod 64 :: l)%N
  = c :: d :: Utf8.decode_bytes l.
Proof.
  intros Hh Hl. cbv zeta.
  set (cp := (65536 + (c - 55296) * 1024 + (d - 56320))%N).
  assert (Hcp : (65536 <= cp < 1114112)%N /\ (c = 55296 + (cp - 65536) / 1024)%N
                /\ (d = 56320 + (cp - 65536) mod 1024)%N).
  { subst cp. utf8_bounds; lia. }
  destruct Hcp as (Hcp & Hc & Hd). clearbody cp.
  cbn [Utf8.decode_bytes].
  rewrite ltb_false by lia.
  rewrite (in_range_false 194 223) by lia.
  rewrite (in_range_false 224 239) by lia.
  rewrite (in_range_true 240 244) by lia.
  assert (H2 : CharClass.in_range (Utf8.second_lower (240 + cp / 262144))
                 (Utf8.second_upper (240 + cp / 262144))
                 (128 + (cp / 4096) mod 64) = true).
  { unfold Utf8.second_lower, Utf8.second_upper.
    destruct (240 + cp / 262144 =? 224)%N eqn:E0;
      destruct (240 + cp / 262144 =? 237)%N eqn:E1;
      destruct (240 + cp / 262144 =? 240)%N eqn:E2;
      destruct (240 + cp / 262144 =? 244)%N eqn:E3;
      utf8_bounds; apply in_range_true; lia. }
  rewrite H2. unfold Utf8.continuation. rewrite !in_range_true by lia.
  replace ((((240 + cp / 262144 - 240) * 64 + (128 + (cp / 4096) mod 64 - 128)) * 64
            + (128 + (cp / 64) mod 64 - 128)) * 64 + (128 + cp mod 64 - 128))%N
    with cp by lia.
  unfold Utf8.units. rewrite ltb_false by lia.
  cbn [app]. rewrite <- Hc, <- Hd. reflexivity.
Qed.

Lemma encode_units_plain c rest :
  Utf8.high_surrogate c = false -> Utf8.low_surrogate c = false ->
  Utf8.encode_units (c :: rest)
  = if (c <? 128)%N then c :: Utf8.encode_units rest
    else if (c <? 2048)%N
         then (192 + c / 64 :: 128 + c mod 64 :: Utf8.encode_units rest)%N
         else (224 + c / 4096 :: 128 + (c / 64) mod 64 :: 128 + c mod 64
                 :: Utf8.encode_units rest)%N.
Proof.
  intros Hh Hl. destruct rest; cbn [Utf8.encode_units]; rewrite Hh, Hl; reflexivity.
Qed.

Lemma encode_units_pair c d rest :
  Utf8.high_surrogate c = true -> Utf8.low_surrogate d = true ->
  Utf8.encode_units (c :: d :: rest)
  = (let cp := 65536 + (c - 55296) * 1024 + (d - 56320) in
     240 + cp / 262144 :: 128 + (cp / 4096) mod 64 :: 128 + (cp / 64) mod 64
       :: 128 + cp mod 64 :: Utf8.encode_units rest)%N.
Proof.
  intros Hh Hl.
  assert (Hc : (2048 <= c)%N) by (utf8_bounds; lia).
  destruct rest; cbn [Utf8.encode_units]; rewrite Hh, Hl, !ltb_false by lia;
    reflexivity.
Qed.

Lemma well_formed_plain c rest :
  Utf8.high_surrogate c = false ->
  Utf8.well_formed (c :: rest)
  = negb (Utf8.low_surrogate c) && (c <? 65536)%N && Utf8.well_formed rest.
Proof.
  intros Hh. destruct rest; cbn [Utf8.well_formed]; rewrite Hh; reflexivity.
Qed.

Lemma well_formed_pair c d rest :
  Utf8.high_surrogate c = true ->
  Utf8.well_formed (c :: d :: rest) = Utf8.low_surrogate d && Utf8.well_formed rest.
Proof.
  intros Hh. destruct rest; cbn [Utf8.well_formed]; rewrite Hh; reflexivity.
Qed.

Lemma decode_encode_plain c rest :
  Utf8.high_surrogate c = false -> Utf8.low_surrogate c = false ->
  (c < 65536)%N ->
  Utf8.decode_bytes (Utf8.encode_units (c :: rest))
  = c :: Utf8.decode_bytes (Utf8.encode_units rest).
Proof.
  intros Hh Hl Hc. rewrite (encode_units_plain c rest Hh Hl).
  destruct (c <? 128)%N eqn:E1.
  { apply N.ltb_lt in E1. apply decode_one_byte. exact E1. }
  apply N.ltb_ge in E1.
  destruct (c <? 2048)%N eqn:E2.
  { apply N.ltb_lt in E2. apply decode_two_bytes. lia. }
  apply N.ltb_ge in E2. apply decode_three_bytes; [lia|exact Hh|exact Hl].
Qed.

(** Decoding undoes encoding on every well-formed string. *)
Lemma utf8_decode_encode_units s :
  Utf8.well_formed s = true -> Utf8.decode_bytes (Utf8.encode_units s) = s.
Proof.
  induction s as [|c|c d s IH0 IH1] using list_ind2.
  - reflexivity.
  - destruct (Utf8.high_surrogate c) eqn:Hh.
    + cbn [Utf8.well_formed]. rewrite Hh. discriminate.
    + rewrite (well_formed_plain c [] Hh). intros H.
      apply andb_prop in H as (H & _). apply andb_prop in H as (Hl & Hc).
      apply negb_true_iff in Hl. apply N.ltb_lt in Hc.
      rewrite (decode_encode_plain c [] Hh Hl Hc). reflexivity.
  - destruct (Utf8.high_surrogate c) eqn:Hh.
    + rewrite (well_formed_pair c d s Hh). intros H.
      apply andb_prop in H as (Hl & Hwf).
      rewrite (encode_units_pair c d s Hh Hl), (decode_four_bytes c d _ Hh Hl).
      rewrite (IH0 Hwf). reflexivity.
    + rewrite (well_formed_plain c (d :: s) Hh). intros H.
      apply andb_prop in H as (H & Hwf). apply andb_prop in H as (Hl & Hc).
      apply negb_true_iff in Hl. apply N.ltb_lt in Hc.
      rewrite (decode_encode_plain c (d :: s) Hh Hl Hc), (IH1 Hwf). reflexivity.
Qed.

(** The bytes of a string are bytes. *)
Lemma encode_units_bytes s :
  Utf8.well_formed s = true -> Forall (fun b => (b < 256)%N) (Utf8.encode_units s).
Proof.
  induction s as [|c|c d s IH0 IH1] using list_ind2.
  - constructor.
  - destruct (Utf8.high_surrogate c) eqn:Hh.
    + cbn [Utf8.well_formed]. rewrite Hh. discriminate.
    + rewrite (well_formed_plain c [] Hh). intros H.
      apply andb_prop in H as (H & _). apply andb_prop in H as (Hl & Hc).
      apply negb_true_iff in Hl. apply N.ltb_lt in Hc.
      rewrite (encode_units_plain c [] Hh Hl).
      destruct (c <? 128)%N eqn:E1; [|destruct (c <? 2048)%N eqn:E2];
        utf8_bounds; repeat constructor; lia.
  - destruct (Utf8.high_surrogate c) eqn:Hh.
    + rewrite (well_formed_pair c d s Hh). intros H.
      apply andb_prop in H as (Hl & Hwf).
      rewrite (encode_units_pair c d s Hh Hl). cbv zeta.
      repeat (constructor; [utf8_bounds; lia|]). exact (IH0 Hwf).
    + rewrite (well_formed_plain c (d :: s) Hh). intros H.
      apply andb_prop in H as (H & Hwf). apply andb_prop in H as (Hl & Hc).
      apply negb_true_iff in Hl. apply N.ltb_lt in Hc.
      rewrite (encode_units_plain c (d :: s) Hh Hl).
      destruct (c <? 128)%N eqn:E1; [|destruct (c <? 2048)%N eqn:E2];
        utf8_bounds; repeat (constructor; [lia|]); exact (IH1 Hwf).
Qed.

Lemma byte_to_N_of_N n : (n < 256)%N -> Byte.to_N (byte_of_N n) = n.
Proof.
  intros H. unfold byte_of_N. rewrite N.mod_small by exact H.
  destruct (Byte.of_N n) as [b|] eqn:E.
  - apply Byte.to_of_N. exact E.
  - apply Byte.of_N_None_iff in E. lia.
Qed.

(** [Buffer.from(s).toString()] is [s] for every well-formed [s]. *)
Lemma utf8_decode_encode s :
  Utf8.well_formed s = true -> Utf8.decode (Utf8.encode s) = s.
Proof.
  intros H. unfold Utf8.decode, Utf8.encode.
  rewrite map_map.
  rewrite (map_ext_in _ (fun b => b)) , map_id.
  - apply utf8_decode_encode_units. exact H.
  - intros b Hb. apply byte_to_N_of_N.
    exact (proj1 (Forall_forall _ _) (encode_units_bytes s H) b Hb).
Qed.

(** ** The salted strategy *)

Lemma sample_primitives_ok : primitives_ok Sample.node.
Proof.
  split.
  - intros x. cbn [md5 Sample.node]. unfold Sample.digest.
    rewrite firstn_length_le; [reflexivity|].
    rewrite length_app, repeat_length. lia.
  - intros key block Hk Hb. cbn [aes256_encrypt_block Sample.node].
    unfold Sample.xor_block. rewrite xor_bytes_length; [exact Hb|].
    rewrite firstn_length_le; lia.
  - intros key block Hk Hb.
    cbn [aes256_encrypt_block aes256_decrypt_block Sample.node].
    unfold Sample.xor_block. apply xor_bytes_involutive.
    rewrite firstn_length_le; lia.
Qed.

(** The loop of [evpBytesToKey] exits after three digests: three
    iterations are enough fuel. *)
Lemma evp_loop_three_digests P fuel secret salt :
  primitives_ok P ->
  LocalDecrypt.evp_loop P (3 + fuel) secret salt 48 [] []
  = Some (digest_chain P (utf8_encode P secret) salt 3 []).
Proof.
  intros [Hmd5 _ _].
  cbn [Nat.add LocalDecrypt.evp_loop digest_chain].
  rewrite !length_app, !Hmd5. cbn [length Nat.add Nat.leb].
  assert (Hlen : (48 <=? length
                    (((([] ++ md5 P ([] ++ utf8_encode P secret ++ salt))
                         ++ md5 P (md5 P ([] ++ utf8_encode P secret ++ salt)
                                     ++ utf8_encode P secret ++ salt))
                        ++ md5 P (md5 P (md5 P ([] ++ utf8_encode P secret ++ salt)
                                           ++ utf8_encode P secret ++ salt)
                                    ++ utf8_encode P secret ++ salt))))
                 = true).
  { rewrite !length_app, !Hmd5. reflexivity. }
  destruct fuel; cbn [LocalDecrypt.evp_loop]; rewrite Hlen;
    rewrite !app_nil_r; cbn [app]; rewrite <- !app_assoc; reflexivity.
Qed.

(** [evpBytesToKey] derives the key and the IV of the scheme. *)
Lemma evpBytesToKey_derives P secret salt :
  primitives_ok P ->
  LocalDecrypt.evpBytesToKey P secret salt 32 16
  = Return (salted_key_iv P secret salt).
Proof.
  intros HP. unfold LocalDecrypt.evpBytesToKey, salted_key_iv, slice.
  change (LocalDecrypt.evp_loop P (32 + 16) secret salt (32 + 16) [] [])
    with (LocalDecrypt.evp_loop P (3 + 45) secret salt 48 [] []).
  rewrite (evp_loop_three_digests P 45 secret salt HP).
  cbn [skipn Nat.sub]. reflexivity.
Qed.

Lemma salted_key_iv_lengths P secret salt :
  primitives_ok P ->
  length (fst (salted_key_iv P secret salt)) = 32 /\
  length (snd (salted_key_iv P secret salt)) = 16.
Proof.
  intros [Hmd5 _ _]. unfold salted_key_iv. cbn [fst snd digest_chain].
  split.
  - rewrite firstn_length_le; [reflexivity|].
    rewrite !length_app, !Hmd5. cbn [length]. lia.
  - rewrite firstn_length_le; [reflexivity|].
    rewrite length_skipn, !length_app, !Hmd5. cbn [length]. lia.
Qed.

Lemma bytes_eqb_refl b : bytes_eqb b b = true.
Proof. unfold bytes_eqb. destruct (list_eq_dec _ b b); congruence. Qed.

Lemma bytes_eqb_false a b : a <> b -> bytes_eqb a b = false.
Proof. unfold bytes_eqb. destruct (list_eq_dec _ a b); congruence. Qed.

(** The salted strategy undoes the salted scheme. *)
Lemma decryptOpenSSL_encrypt_salted P plaintext secret salt :
  primitives_ok P -> length salt = 8 ->
  LocalDecrypt.decryptOpenSSL P
    (EncodedString (encrypt_salted P secret salt plaintext)) secret
  = Return (utf8_decode P plaintext).
Proof.
  intros HP Hsalt. unfold LocalDecrypt.decryptOpenSSL, encrypt_salted.
  cbn [Buffer_from_base64]. rewrite base64_decode_encode.
  set (ct := Cbc.encrypt P _ _ plaintext).
  assert (Hmark : slice 0 8 (ascii_bytes "Salted__" ++ salt ++ ct)
                  = ascii_bytes "Salted__").
  { unfold slice. cbn [skipn Nat.sub]. apply firstn_app_exact. reflexivity. }
  assert (Hs : slice 8 16 (ascii_bytes "Salted__" ++ salt ++ ct) = salt).
  { unfold slice.
    rewrite (skipn_app_exact (ascii_bytes "Salted__") (salt ++ ct) 8 eq_refl).
    apply firstn_app_exact. exact Hsalt. }
  assert (Hc : skipn 16 (ascii_bytes "Salted__" ++ salt ++ ct) = ct).
  { rewrite app_assoc. apply skipn_app_exact.
    rewrite length_app, Hsalt. reflexivity. }
  rewrite Hmark, Hs, Hc, bytes_eqb_refl. cbn [negb].
  rewrite (evpBytesToKey_derives P secret salt HP).
  destruct (salted_key_iv_lengths P secret salt HP) as (Hk & Hi).
  subst ct. destruct (salted_key_iv P secret salt) as (key, iv).
  cbn [fst snd] in *.
  rewrite (cbc_decrypt_encrypt P key iv plaintext HP Hk Hi). reflexivity.
Qed.

Lemma sample_utf8_primitives_ok : primitives_ok Sample.node_utf8.
Proof.
  destruct sample_primitives_ok as [H1 H2 H3]. split; assumption.
Qed.

Lemma sample_utf8_as_node : utf8_as_node Sample.node_utf8.
Proof. split; reflexivity. Qed.

(** C2, as stated, fails on a plaintext that is not UTF-8: [decryptOpenSSL]
    returns the decrypted bytes read as UTF-8, and the bytes [ff] and [fe]
    both read as U+FFFD, whose bytes are [ef bf bd]. *)
Lemma decryptOpenSSL_round_trip_counterexample :
  LocalDecrypt.decryptOpenSSL Sample.node_utf8
    (EncodedString
       (encrypt_salted Sample.node_utf8 (js "s3cret") (ascii_bytes "saltsalt")
          [xff]))
    (js "s3cret")
  = Return [65533%N]
  /\
  LocalDecrypt.decryptOpenSSL Sample.node_utf8
    (EncodedString
       (encrypt_salted Sample.node_utf8 (js "s3cret") (ascii_bytes "saltsalt")
          [xfe]))
    (js "s3cret")
  = Return [65533%N]
  /\
  utf8_encode Sample.node_utf8 [65533%N] = [xef; xbf; xbd]
  /\
  ~ (forall P plaintext secret salt,
        primitives_ok P -> utf8_as_node P -> length salt = 8 ->
        exists text,
          LocalDecrypt.decryptOpenSSL P
            (EncodedString (encrypt_salted P secret salt plaintext)) secret
          = Return text
          /\ utf8_encode P text = plaintext).
Proof.
  split; [vm_compute; reflexivity|].
  split; [vm_compute; reflexivity|].
  split; [vm_compute; reflexivity|].
  intros H.
  destruct (H Sample.node_utf8 [xff] (js "s3cret") (ascii_bytes "saltsalt")
              sample_utf8_primitives_ok sample_utf8_as_node eq_refl)
    as (text & Hrun & Hbytes).
  rewrite (decryptOpenSSL_encrypt_salted Sample.node_utf8 [xff] (js "s3cret")
             (ascii_bytes "saltsalt") sample_utf8_primitives_ok eq_refl) in Hrun.
  injection Hrun as <-. vm_compute in Hbytes. discriminate Hbytes.
Qed.

(** C2, amended. For a plaintext that is the UTF-8 encoding of a string in
    which every surrogate has its partner: encrypting it with the salted
    local scheme (key and IV by iterated MD5 of previous block, secret and
    salt; AES-256-CBC; the marker and the 8-byte salt in front; base64) and
    decrypting the result with [decryptOpenSSL] under the same secret returns
    that string, whose UTF-8 encoding is the plaintext byte for byte. *)
Theorem decryptOpenSSL_round_trip P plaintext text secret salt :
  primitives_ok P -> utf8_as_node P ->
  Utf8.well_formed text = true -> plaintext = Utf8.encode text ->
  length salt = 8 ->
  LocalDecrypt.decryptOpenSSL P
    (EncodedString (encrypt_salted P secret salt plaintext)) secret
  = Return text
  /\ utf8_encode P text = plaintext.
Proof.
  intros HP (Henc & Hdec) Hwf -> Hsalt. split; [|apply Henc].
  rewrite (decryptOpenSSL_encrypt_salted P (Utf8.encode text) secret salt HP Hsalt).
  rewrite Hdec, (utf8_decode_encode text Hwf). reflexivity.
Qed.

Lemma decryptOpenSSL_round_trip_witness :
  LocalDecrypt.decryptOpenSSL Sample.node_utf8
    (EncodedString
       (encrypt_salted Sample.node_utf8 (js "s3cret") (ascii_bytes "saltsalt")
          (Utf8.encode (js "https://cdn/caf" ++ [233%N] ++ js ".m3u8"))))
    (js "s3cret")
  = Return (js "https://cdn/caf" ++ [233%N] ++ js ".m3u8")
  /\ utf8_encode Sample.node_utf8 (js "https://cdn/caf" ++ [233%N] ++ js ".m3u8")
     = Utf8.encode (js "https://cdn/caf" ++ [233%N] ++ js ".m3u8").
Proof.
  apply (decryptOpenSSL_round_trip Sample.node_utf8
           (Utf8.encode (js "https://cdn/caf" ++ [233%N] ++ js ".m3u8"))
           (js "https://cdn/caf" ++ [233%N] ++ js ".m3u8")
           (js "s3cret") (ascii_bytes "saltsalt")).
  - exact sample_utf8_primitives_ok.
  - exact sample_utf8_as_node.
  - reflexivity.
  - reflexivity.
  - reflexivity.
Defined.

(** C3. When the base64 decoding of the ciphertext does not begin with the
    8-byte marker, the salted strategy fails with an exception that
    [decryptLocally] catches, and [decryptLocally] goes on to the next
    strategy: AES-256-CBC with the SHA-256 of the secret as key and the first
    16 bytes of the nonce string as IV, whose outcome decides. *)
Theorem decryptLocally_falls_back_without_marker P encryptedData nonce secret :
  firstn 8 (Base64.decode encryptedData) <> ascii_bytes "Salted__" ->
  LocalDecrypt.decryptOpenSSL P (EncodedString encryptedData) secret
  = Throw "Invalid OpenSSL format" /\
  LocalDecrypt.decryptLocally P (EncodedString encryptedData) nonce secret
  = match Cbc.decrypt P (sha256 P (utf8_encode P secret))
            (firstn 16 (utf8_encode P nonce)) (Base64.decode encryptedData) with
    | Some out => Return (utf8_decode P out)
    | None => Throw "Local decryption failed"
    end.
Proof.
  intros Hmark.
  assert (H1 : LocalDecrypt.decryptOpenSSL P (EncodedString encryptedData) secret
               = Throw "Invalid OpenSSL format").
  { unfold LocalDecrypt.decryptOpenSSL, slice. cbn [Buffer_from_base64 skipn Nat.sub].
    rewrite (bytes_eqb_false _ _ Hmark). reflexivity. }
  split; [exact H1|].
  unfold LocalDecrypt.decryptLocally. rewrite H1. cbn [or_else].
  unfold LocalDecrypt.decryptWithNonce, slice. cbn [Buffer_from_base64 skipn Nat.sub].
  destruct (Cbc.decrypt P _ _ _); reflexivity.
Qed.

Lemma decryptLocally_falls_back_without_marker_witness :
  LocalDecrypt.decryptOpenSSL Sample.node
    (EncodedString (js "bm90IHNhbHRlZCBhdCBhbGw=")) (js "s3cret")
  = Throw "Invalid OpenSSL format" /\
  LocalDecrypt.decryptLocally Sample.node
    (EncodedString (js "bm90IHNhbHRlZCBhdCBhbGw=")) Sample.nonce48 (js "s3cret")
  = match Cbc.decrypt Sample.node
            (sha256 Sample.node (utf8_encode Sample.node (js "s3cret")))
            (firstn 16 (utf8_encode Sample.node Sample.nonce48))
            (Base64.decode (js "bm90IHNhbHRlZCBhdCBhbGw=")) with
    | Some out => Return (utf8_decode Sample.node out)
    | None => Throw "Local decryption failed"
    end.
Proof.
  apply (decryptLocally_falls_back_without_marker Sample.node
           (js "bm90IHNhbHRlZCBhdCBhbGw=") Sample.nonce48 (js "s3cret")).
  vm_compute. discriminate.
Defined.

Example base64_decode_sample :
  Base64.decode (js "bm90IHNhbHRlZCBhdCBhbGw=") = ascii_bytes "not salted at all".
Proof. vm_compute. reflexivity. Qed.

(** The marker and the salt show in the base64 text. *)
Example encrypt_salted_sample :
  firstn 21 (encrypt_salted Sample.node (js "s3cret") (ascii_bytes "saltsalt")
               (ascii_bytes "https://cdn/x.m3u8"))
  = js "U2FsdGVkX19zYWx0c2Fsd".
Proof. vm_compute. reflexivity. Qed.

Example decryptOpenSSL_sample :
  LocalDecrypt.decryptOpenSSL Sample.node
    (EncodedString
       (encrypt_salted Sample.node (js "s3cret") (ascii_bytes "saltsalt")
          (ascii_bytes "https://cdn/x.m3u8")))
    (js "s3cret")
  = Return (js "https://cdn/x.m3u8").
Proof. vm_compute. reflexivity. Qed.

(** A wrong secret: the padding check fails, and so does the fallback. *)
Example decryptLocally_wrong_secret :
  LocalDecrypt.decryptLocally Sample.node
    (EncodedString
       (encrypt_salted Sample.node (js "s3cret") (ascii_bytes "saltsalt")
          (ascii_bytes "https://cdn/x.m3u8")))
    Sample.nonce48 (js "other")
  = Throw "Local decryption failed".
Proof. vm_compute. reflexivity. Qed.

(** A ciphertext without the marker, made for the second strategy. *)
Example decryptLocally_with_nonce :
  LocalDecrypt.decryptLocally Sample.node
    (EncodedString
       (Base64.encode
          (Cbc.encrypt Sample.node
             (sha256 Sample.node (utf8_encode Sample.node (js "s3cret")))
             (firstn 16 (utf8_encode Sample.node Sample.nonce48))
             (ascii_bytes "https://cdn/x.m3u8"))))
    Sample.nonce48 (js "s3cret")
  = Return (js "https://cdn/x.m3u8").
Proof. vm_compute. reflexivity. Qed.

(** ** The content id *)

Lemma rmatch_literal_some (R : Type) l rest (k : cont R) r : forall cur caps,
  rmatch (literal l rest) cur caps k = Some r ->
  exists cur', rmatch rest cur' caps k = Some r.
Proof.
  induction l as [|a l IH]; intros cur caps H.
  - exists cur. exact H.
  - cbn [literal rmatch] in H.
    destruct (snd cur) as [|c a']; [discriminate|].
    destruct (CharClass.lit a c); [|discriminate].
    apply IH in H. exact H.
Qed.

Lemma greedy_star_some (R : Type) p (k : cont R) caps r : forall a b,
  greedy_star p b a caps k = Some r ->
  exists b' a', k (b', a') caps = Some r /\ length a' <= length a.
Proof.
  induction a as [|c a IH]; intros b H; cbn [greedy_star] in H.
  - exists b, []. auto.
  - destruct (p c).
    + destruct (greedy_star p (c :: b) a caps k) as [r'|] eqn:E.
      * injection H as ->. destruct (IH _ E) as (b' & a' & Hk & L).
        exists b', a'. split; [exact Hk|]. cbn [length]. lia.
      * exists b, (c :: a). auto.
    + exists b, (c :: a). auto.
Qed.

(** The group of [re_data_id] holds at least one character. *)
Lemma file_id_not_empty html fileId :
  file_id html = Some fileId -> fileId <> [].
Proof.
  unfold file_id. destruct (js_match html re_data_id) as [m|] eqn:Hm;
    [|discriminate].
  unfold js_match in Hm.
  destruct (search_some _ _ _ _ Hm) as (pre & suf & _ & Hh & _).
  unfold match_here, re_data_id in Hh.
  apply rmatch_literal_some in Hh as ((b, a) & Hh).
  cbn [rmatch snd fst] in Hh.
  destruct a as [|q a]; [discriminate|].
  destruct (q =? 34)%N; [|discriminate].
  destruct a as [|c a]; [discriminate|].
  destruct (CharClass.not_quote c); [|discriminate].
  apply greedy_star_some in Hh as (b' & a' & Hk & L).
  cbn [snd fst] in Hk.
  destruct a' as [|q' a'']; [discriminate|].
  destruct (q' =? 34)%N; [|discriminate].
  injection Hk as <-. unfold group. cbn [groups find fst snd Nat.eqb].
  intros H. injection H as <-. unfold consumed. cbn [snd length] in *.
  replace (S (length a) - S (length a'')) with (S (length a - S (length a'')))
    by lia.
  cbn [firstn]. discriminate.
Qed.

(** ** The resolvers on the sample network *)

Example file_id_of_sample_page : file_id Sample.html_ok = Some (js "abc123").
Proof. vm_compute. reflexivity. Qed.

Example nonce_of_sample_page : extractNonce Sample.html_ok = Some Sample.nonce48.
Proof. vm_compute. reflexivity. Qed.

(** The end-to-end scenario: a list of sources passes through, the
    thumbnails track is dropped. *)
Example end_to_end_list :
  run (Extractors.extract Sample.node
         (Sample.world_of Sample.html_ok Sample.payload_list) Sample.embed_url) tt
  = (Return {| result_sources :=
                 [{| file := js "https://cdn/x.m3u8"; type := js "hls" |}];
               result_tracks := Some [Sample.captions_en] |},
     [FetchPage Sample.embed_url;
      FetchSources (getSources_url (js "abc123") Sample.nonce48)]).
Proof. vm_compute. reflexivity. Qed.

(** ** The resolvers on a payload *)

Ltac run_effects :=
  cbv beta iota zeta
      delta [bind await emit ret throw try_catch modify get lift call_with run
             app];
  cbn [truthy_string].

Lemma nonce_not_empty html nonce :
  extractNonce html = Some nonce -> exists c n, nonce = c :: n.
Proof.
  intros H. destruct (extractNonce_shape _ _ H) as (L & _).
  destruct nonce as [|c n]; [discriminate|]. eauto.
Qed.

(** [src/extractors/megacloud.ts] on a payload: the sources by shape, the
    tracks filtered, two requests. *)
Lemma Extractors_extract2_on_payload w url fileId nonce data :
  reaches_payload w url fileId nonce data ->
  Extractors.extract2 w url tt
  = (Return {| data_sources :=
                 match sources data with
                 | SourcesArray l => passthrough l
                 | SourcesString s => [{| file := s; type := js "hls" |}]
                 | SourcesAbsent => []
                 end;
               data_tracks := captions_and_subtitles data;
               data_t := number_or_0 (t data);
               data_server := number_or_0 (server data) |},
     tt,
     [FetchPage (href url); FetchSources (getSources_url fileId nonce)]).
Proof.
  intros (html & Hpage & Hid & Hnonce & Hdata).
  destruct (nonce_not_empty _ _ Hnonce) as (c & n & ->).
  pose proof (file_id_not_empty _ _ Hid) as Hne.
  destruct fileId as [|c0 f]; [congruence|].
  unfold Extractors.extract2. run_effects.
  rewrite Hpage. run_effects. rewrite Hid. run_effects.
  rewrite Hnonce. run_effects. rewrite Hdata. run_effects.
  reflexivity.
Qed.

Lemma decryptLocally_terminates P encryptedData nonce secret :
  primitives_ok P ->
  LocalDecrypt.decryptLocally P encryptedData nonce secret <> Diverge.
Proof.
  intros HP. unfold LocalDecrypt.decryptLocally, LocalDecrypt.decryptOpenSSL,
    LocalDecrypt.decryptWithNonce.
  rewrite (evpBytesToKey_derives P secret _ HP).
  destruct (negb _); cbn [or_else].
  - destruct (Cbc.decrypt P _ _ _); cbn [or_else]; discriminate.
  - destruct (salted_key_iv P secret _) as (key, iv).
    destruct (Cbc.decrypt P key iv _); cbn [or_else];
      [discriminate|].
    destruct (Cbc.decrypt P _ _ _); cbn [or_else]; discriminate.
Qed.

(** The resolver with local decryption on a payload that is not flagged, or
    whose [sources] are falsy: the sources by shape, the tracks filtered,
    two requests. *)
Lemma LocalDecrypt_extract2_unflagged P w url fileId nonce data :
  reaches_payload w url fileId nonce data ->
  truthy_flag (encrypted data) && truthy_sources (sources data) = false ->
  LocalDecrypt.extract2 P w url tt
  = (Return {| data_sources :=
                 match sources data with
                 | SourcesArray l => passthrough l
                 | SourcesString s => [{| file := s; type := js "hls" |}]
                 | SourcesAbsent => []
                 end;
               data_tracks := captions_and_subtitles data;
               data_t := number_or_0 (t data);
               data_server := number_or_0 (server data) |},
     tt,
     [FetchPage (href url); FetchSources (getSources_url fileId nonce)]).
Proof.
  intros (html & Hpage & Hid & Hnonce & Hdata) Hflag.
  destruct (nonce_not_empty _ _ Hnonce) as (c & n & ->).
  pose proof (file_id_not_empty _ _ Hid) as Hne.
  destruct fileId as [|c0 f]; [congruence|].
  unfold LocalDecrypt.extract2. run_effects.
  rewrite Hpage. run_effects. rewrite Hid. run_effects.
  rewrite Hnonce. run_effects. rewrite Hdata. run_effects.
  rewrite Hflag. run_effects.
  destruct (sources data); run_effects; reflexivity.
Qed.

(** The same resolver on a payload that is flagged and whose [sources] are
    truthy, when the key document cannot be fetched or holds no [vidstr]:
    no source, the tracks filtered, and the key document was requested. *)
Lemma LocalDecrypt_extract2_without_secret P w url fileId nonce data :
  reaches_payload w url fileId nonce data ->
  truthy_flag (encrypted data) && truthy_sources (sources data) = true ->
  match key_file w with
  | Some keyData => truthy_string (vidstr keyData) = false
  | None => True
  end ->
  LocalDecrypt.extract2 P w url tt
  = (Return {| data_sources := [];
               data_tracks := captions_and_subtitles data;
               data_t := number_or_0 (t data);
               data_server := number_or_0 (server data) |},
     tt,
     [FetchPage (href url); FetchSources (getSources_url fileId nonce);
      FetchKeys]).
Proof.
  intros (html & Hpage & Hid & Hnonce & Hdata) Hflag Hkey.
  destruct (nonce_not_empty _ _ Hnonce) as (c & n & ->).
  pose proof (file_id_not_empty _ _ Hid) as Hne.
  destruct fileId as [|c0 f]; [congruence|].
  unfold LocalDecrypt.extract2. run_effects.
  rewrite Hpage. run_effects. rewrite Hid. run_effects.
  rewrite Hnonce. run_effects. rewrite Hdata. run_effects.
  rewrite Hflag. run_effects.
  destruct (key_file w) as [keyData|]; run_effects.
  - rewrite Hkey. run_effects. reflexivity.
  - reflexivity.
Qed.

(** On every payload the resolver with local decryption returns, with the
    tracks filtered, whatever becomes of the sources. *)
Lemma LocalDecrypt_extract2_tracks P w url fileId nonce data :
  primitives_ok P ->
  reaches_payload w url fileId nonce data ->
  exists srcs trace,
    LocalDecrypt.extract2 P w url tt
    = (Return {| data_sources := srcs;
                 data_tracks := captions_and_subtitles data;
                 data_t := number_or_0 (t data);
                 data_server := number_or_0 (server data) |},
       tt, trace).
Proof.
  intros HP Hreach.
  destruct (truthy_flag (encrypted data) && truthy_sources (sources data))
    eqn:Hflag.
  2:{ eexists _, _. eapply LocalDecrypt_extract2_unflagged; eassumption. }
  pose proof Hreach as (html & Hpage & Hid & Hnonce & Hdata).
  destruct (nonce_not_empty _ _ Hnonce) as (c & n & ->).
  pose proof (file_id_not_empty _ _ Hid) as Hne.
  destruct fileId as [|c0 f]; [congruence|].
  unfold LocalDecrypt.extract2. run_effects.
  rewrite Hpage. run_effects. rewrite Hid. run_effects.
  rewrite Hnonce. run_effects. rewrite Hdata. run_effects.
  rewrite Hflag. run_effects.
  destruct (key_file w) as [keyData|]; run_effects;
    [|eexists _, _; reflexivity].
  destruct (vidstr keyData) as [[|k ks]|]; run_effects;
    try (eexists _, _; reflexivity).
  pose proof (decryptLocally_terminates P (as_encoded (sources data))
                (c :: n) (k :: ks) HP) as Hterm.
  destruct (LocalDecrypt.decryptLocally P _ _ _) as [text| |];
    run_effects; try (eexists _, _; reflexivity); [|congruence].
  destruct (LocalDecrypt.file_url P text) as [fileUrl|]; run_effects;
    [destruct (truthy_json fileUrl); run_effects|];
    eexists _, _; reflexivity.
Qed.

(** ** The resolver with local decryption never throws *)

Lemma LocalDecrypt_extract2_returns P w url :
  primitives_ok P ->
  exists d trace, LocalDecrypt.extract2 P w url tt = (Return d, tt, trace).
Proof.
  intros HP.
  destruct (embed_page w (href url)) as [html|] eqn:Hpage.
  2:{ unfold LocalDecrypt.extract2. run_effects. rewrite Hpage. run_effects.
      eexists _, _. reflexivity. }
  destruct (file_id html) as [[|c0 f]|] eqn:Hid.
  1,3: unfold LocalDecrypt.extract2; run_effects; rewrite Hpage; run_effects;
       rewrite Hid; run_effects; eexists _, _; reflexivity.
  destruct (extractNonce html) as [nonce|] eqn:Hnonce.
  2:{ unfold LocalDecrypt.extract2. run_effects. rewrite Hpage. run_effects.
      rewrite Hid. run_effects. rewrite Hnonce. run_effects.
      eexists _, _. reflexivity. }
  destruct (getSources w (getSources_url (c0 :: f) nonce)) as [[data|]|] eqn:Hdata.
  - destruct (LocalDecrypt_extract2_tracks P w url (c0 :: f) nonce data HP)
      as (srcs & trace & H).
    + exists html. repeat split; assumption.
    + eexists _, _. exact H.
  - destruct (nonce_not_empty _ _ Hnonce) as (c & n & ->).
    unfold LocalDecrypt.extract2. run_effects. rewrite Hpage. run_effects.
    rewrite Hid. run_effects. rewrite Hnonce. run_effects.
    rewrite Hdata. run_effects. eexists _, _. reflexivity.
  - destruct (nonce_not_empty _ _ Hnonce) as (c & n & ->).
    unfold LocalDecrypt.extract2. run_effects. rewrite Hpage. run_effects.
    rewrite Hid. run_effects. rewrite Hnonce. run_effects.
    rewrite Hdata. run_effects. eexists _, _. reflexivity.
Qed.

(** With the [try]/[catch] around it, [MegaCloud.extract] of the resolver with
    local decryption returns a result on every input and every network. *)
Lemma LocalDecrypt_extract_never_throws P w url :
  primitives_ok P ->
  exists r trace, run (LocalDecrypt.extract P w url) tt = (Return r, trace).
Proof.
  intros HP. unfold LocalDecrypt.extract.
  destruct (new_URL P url) as [embedUrl|] eqn:Hurl; run_effects.
  - destruct (LocalDecrypt_extract2_returns P w embedUrl HP) as (d & trace & H).
    rewrite H. run_effects. eexists _, _. reflexivity.
  - eexists _, _. reflexivity.
Qed.

(** ** [src/extractors/megacloud.ts] lets failures through *)

(** Each failure before the payload reaches the caller of [extract] as an
    exception. *)
Lemma Extractors_extract_failures P w s :
  (new_URL P s = None ->
   run (Extractors.extract P w s) tt = (Throw "TypeError: Invalid URL", []))
  /\
  (forall url,
      new_URL P s = Some url -> embed_page w (href url) = None ->
      run (Extractors.extract P w s) tt
      = (Throw "Request failed", [FetchPage (href url)]))
  /\
  (forall url html,
      new_URL P s = Some url -> embed_page w (href url) = Some html ->
      file_id html = None ->
      run (Extractors.extract P w s) tt
      = (Throw "Could not find file ID in embed page", [FetchPage (href url)]))
  /\
  (forall url html fileId,
      new_URL P s = Some url -> embed_page w (href url) = Some html ->
      file_id html = Some fileId -> extractNonce html = None ->
      run (Extractors.extract P w s) tt
      = (Throw "Could not extract nonce from embed page",
         [FetchPage (href url)]))
  /\
  (forall url html fileId nonce,
      new_URL P s = Some url -> embed_page w (href url) = Some html ->
      file_id html = Some fileId -> extractNonce html = Some nonce ->
      getSources w (getSources_url fileId nonce) = None ->
      run (Extractors.extract P w s) tt
      = (Throw "Request failed",
         [FetchPage (href url); FetchSources (getSources_url fileId nonce)])).
Proof.
  unfold Extractors.extract, Extractors.extract2.
  split; [|split; [|split; [|split]]].
  - intros ->. run_effects. reflexivity.
  - intros url -> Hpage. run_effects. rewrite Hpage. run_effects. reflexivity.
  - intros url html -> Hpage Hid. run_effects. rewrite Hpage. run_effects.
    rewrite Hid. run_effects. reflexivity.
  - intros url html fileId -> Hpage Hid Hn.
    pose proof (file_id_not_empty _ _ Hid) as Hne.
    destruct fileId as [|c0 f]; [congruence|].
    run_effects. rewrite Hpage. run_effects. rewrite Hid. run_effects.
    rewrite Hn. run_effects. reflexivity.
  - intros url html fileId nonce -> Hpage Hid Hn Hdata.
    pose proof (file_id_not_empty _ _ Hid) as Hne.
    destruct fileId as [|c0 f]; [congruence|].
    destruct (nonce_not_empty _ _ Hn) as (c & n & ->).
    run_effects. rewrite Hpage. run_effects. rewrite Hid. run_effects.
    rewrite Hn. run_effects. rewrite Hdata. run_effects. reflexivity.
Qed.

(** C1, on [src/extractors/megacloud.ts]: [MegaCloud.extract] has no
    [try]/[catch], so a failure reaches the caller as an exception. On an
    embed page without a [data-id] attribute, on a page that cannot be
    fetched and on a string that is no URL, it throws; the resolver with
    local decryption returns an empty result on the same inputs. *)
Theorem Extractors_extract_throws :
  run (Extractors.extract Sample.node
         (Sample.world_of Sample.html_without_id Sample.payload_list)
         Sample.embed_url) tt
  = (Throw "Could not find file ID in embed page", [FetchPage Sample.embed_url])
  /\
  run (Extractors.extract Sample.node
         (Sample.world_of Sample.html_ok Sample.payload_list)
         (js "https://videostr.net/embed-1/v3/e-1/gone")) tt
  = (Throw "Request failed",
     [FetchPage (js "https://videostr.net/embed-1/v3/e-1/gone")])
  /\
  run (Extractors.extract Sample.node
         (Sample.world_of Sample.html_ok Sample.payload_list)
         (js "not a url")) tt
  = (Throw "TypeError: Invalid URL", [])
  /\
  run (LocalDecrypt.extract Sample.node
         (Sample.world_of Sample.html_without_id Sample.payload_list)
         Sample.embed_url) tt
  = (Return {| result_sources := []; result_tracks := Some [] |},
     [FetchPage Sample.embed_url]).
Proof. repeat split; vm_compute; reflexivity. Qed.

(** ** Payloads whose sources are a string *)

Lemma sample_reaches_payload payload :
  reaches_payload (Sample.world_of Sample.html_ok payload)
    {| href := Sample.embed_url; pathname := Sample.path_of Sample.embed_url |}
    (js "abc123") Sample.nonce48 payload.
Proof.
  exists Sample.html_ok. repeat split; vm_compute; reflexivity.
Qed.

(** C6, as stated, fails: a string payload that is not flagged as encrypted
    is taken as the URL itself, whatever the key document holds. *)
Lemma string_payload_without_secret_counterexample :
  ~ (forall P w s url fileId nonce data str keyData r trace,
        new_URL P s = Some url ->
        reaches_payload w url fileId nonce data ->
        sources data = SourcesString str ->
        key_file w = Some keyData ->
        vidstr keyData = None -> rabbit keyData = None ->
        rabbitstream_key keyData = None ->
        run (LocalDecrypt.extract P w s) tt = (Return r, trace) ->
        result_sources r = [] /\
        result_tracks r = Some (captions_and_subtitles data)).
Proof.
  intros H.
  destruct (H Sample.node
              (Sample.world_of Sample.html_ok Sample.payload_plain_string)
              Sample.embed_url
              {| href := Sample.embed_url;
                 pathname := Sample.path_of Sample.embed_url |}
              (js "abc123") Sample.nonce48 Sample.payload_plain_string
              (js "https://cdn/x.m3u8") Sample.no_keys
              {| result_sources :=
                   [{| file := js "https://cdn/x.m3u8"; type := js "hls" |}];
                 result_tracks := Some [Sample.captions_en] |}
              [FetchPage Sample.embed_url;
               FetchSources (getSources_url (js "abc123") Sample.nonce48)])
    as (Hsrc & _); try reflexivity; [apply sample_reaches_payload|].
  discriminate Hsrc.
Qed.

(** C6, amended. For every payload flagged as encrypted whose [sources] are
    a non-empty string, and every key document without the secret field
    [vidstr], the result has no source, and its tracks are exactly the
    caption and subtitle entries of the payload. *)
Theorem flagged_string_payload_without_secret
        P w s url fileId nonce data str keyData :
  new_URL P s = Some url ->
  reaches_payload w url fileId nonce data ->
  sources data = SourcesString str -> str <> [] ->
  encrypted data = Some true ->
  key_file w = Some keyData -> vidstr keyData = None ->
  run (LocalDecrypt.extract P w s) tt
  = (Return {| result_sources := [];
               result_tracks := Some (captions_and_subtitles data) |},
     [FetchPage (href url); FetchSources (getSources_url fileId nonce);
      FetchKeys]).
Proof.
  intros Hurl Hreach Hsrc Hstr Hflag Hkey Hsecret.
  unfold LocalDecrypt.extract. rewrite Hurl. run_effects.
  rewrite (LocalDecrypt_extract2_without_secret P w url fileId nonce data Hreach).
  - run_effects. reflexivity.
  - rewrite Hflag, Hsrc. destruct str; [congruence|reflexivity].
  - rewrite Hkey, Hsecret. reflexivity.
Qed.

Lemma flagged_string_payload_without_secret_witness :
  run (LocalDecrypt.extract Sample.node
         (Sample.world_of Sample.html_ok Sample.payload_flagged_string)
         Sample.embed_url) tt
  = (Return {| result_sources := [];
               result_tracks :=
                 Some (captions_and_subtitles Sample.payload_flagged_string) |},
     [FetchPage Sample.embed_url;
      FetchSources (getSources_url (js "abc123") Sample.nonce48);
      FetchKeys]).
Proof.
  apply (flagged_string_payload_without_secret Sample.node
           (Sample.world_of Sample.html_ok Sample.payload_flagged_string)
           Sample.embed_url
           {| href := Sample.embed_url;
              pathname := Sample.path_of Sample.embed_url |}
           (js "abc123") Sample.nonce48 Sample.payload_flagged_string
           (js "bm90IHNhbHRlZCBhdCBhbGw=") Sample.no_keys);
    try reflexivity.
  - apply sample_reaches_payload.
  - discriminate.
Defined.

(** ** Payloads whose sources are a list *)

Lemma no_key_no_decryption page api :
  ~ calls_key_provider [FetchPage page; FetchSources api] /\
  ~ calls_decryption [FetchPage page; FetchSources api].
Proof.
  split.
  - intros [H|[H|[]]]; discriminate.
  - intros (st & [H|[H|[]]]); discriminate.
Qed.

(** C7, as stated, fails on the resolver with local decryption: a list that
    comes flagged as encrypted goes to the decryption branch, which requests
    the key document. *)
Lemma list_payload_counterexample :
  run (LocalDecrypt.extract Sample.node
         (Sample.world_of Sample.html_ok Sample.payload_flagged_list)
         Sample.embed_url) tt
  = (Return {| result_sources := [];
               result_tracks := Some [Sample.captions_en] |},
     [FetchPage Sample.embed_url;
      FetchSources (getSources_url (js "abc123") Sample.nonce48);
      FetchKeys])
  /\
  ~ (forall P w s url fileId nonce data l,
        new_URL P s = Some url ->
        reaches_payload w url fileId nonce data ->
        sources data = SourcesArray l ->
        passed_through (run (LocalDecrypt.extract P w s) tt) l data).
Proof.
  split; [vm_compute; reflexivity|].
  intros H.
  destruct (H Sample.node
              (Sample.world_of Sample.html_ok Sample.payload_flagged_list)
              Sample.embed_url
              {| href := Sample.embed_url;
                 pathname := Sample.path_of Sample.embed_url |}
              (js "abc123") Sample.nonce48 Sample.payload_flagged_list
              [Sample.hls_entry] eq_refl
              (sample_reaches_payload _) eq_refl)
    as (trace & Heq & Hkey & _).
  vm_compute in Heq. discriminate Heq.
Qed.

(** C7, amended. For every payload whose [sources] are a list of
    [{file, type}] entries, the resolver takes the passthrough branch: it
    returns those entries as the resolved sources (an entry without a type
    gets "hls") and calls neither the key document fetch nor a decryption
    strategy; [src/extractors/megacloud.ts] does so whatever the [encrypted]
    flag, the resolver with local decryption when the flag is absent or
    false. *)
Theorem list_payload_passes_through P w s url fileId nonce data l :
  new_URL P s = Some url ->
  reaches_payload w url fileId nonce data ->
  sources data = SourcesArray l ->
  passed_through (run (Extractors.extract P w s) tt) l data /\
  (truthy_flag (encrypted data) = false ->
   passed_through (run (LocalDecrypt.extract P w s) tt) l data).
Proof.
  intros Hurl Hreach Hsrc. split.
  - exists [FetchPage (href url); FetchSources (getSources_url fileId nonce)].
    split; [|apply no_key_no_decryption].
    unfold Extractors.extract. rewrite Hurl. run_effects.
    rewrite (Extractors_extract2_on_payload w url fileId nonce data Hreach).
    rewrite Hsrc. run_effects. reflexivity.
  - intros Hflag.
    exists [FetchPage (href url); FetchSources (getSources_url fileId nonce)].
    split; [|apply no_key_no_decryption].
    unfold LocalDecrypt.extract. rewrite Hurl. run_effects.
    rewrite (LocalDecrypt_extract2_unflagged P w url fileId nonce data Hreach)
      by (rewrite Hflag; reflexivity).
    rewrite Hsrc. run_effects. reflexivity.
Qed.

Lemma list_payload_passes_through_witness :
  passed_through
    (run (Extractors.extract Sample.node
            (Sample.world_of Sample.html_ok Sample.payload_list)
            Sample.embed_url) tt)
    [Sample.hls_entry] Sample.payload_list /\
  (truthy_flag (encrypted Sample.payload_list) = false ->
   passed_through
     (run (LocalDecrypt.extract Sample.node
             (Sample.world_of Sample.html_ok Sample.payload_list)
             Sample.embed_url) tt)
     [Sample.hls_entry] Sample.payload_list).
Proof.
  apply (list_payload_passes_through Sample.node
           (Sample.world_of Sample.html_ok Sample.payload_list)
           Sample.embed_url
           {| href := Sample.embed_url;
              pathname := Sample.path_of Sample.embed_url |}
           (js "abc123") Sample.nonce48 Sample.payload_list
           [Sample.hls_entry]).
  - reflexivity.
  - apply sample_reaches_payload.
  - reflexivity.
Defined.

(** [src/extractors/megacloud.ts] does not read the flag. *)
Example flagged_list_passes_through :
  run (Extractors.extract Sample.node
         (Sample.world_of Sample.html_ok Sample.payload_flagged_list)
         Sample.embed_url) tt
  = (Return {| result_sources :=
                 [{| file := js "https://cdn/x.m3u8"; type := js "hls" |}];
               result_tracks := Some [Sample.captions_en] |},
     [FetchPage Sample.embed_url;
      FetchSources (getSources_url (js "abc123") Sample.nonce48)]).
Proof. vm_compute. reflexivity. Qed.

(** An entry that has a type keeps it. *)
Lemma passthrough_typed l :
  Forall (fun src => truthy_string (entry_type src) = true) l ->
  map (fun r => (file r, Some (type r))) (passthrough l)
  = map (fun src => (JString (entry_file src), entry_type src)) l.
Proof.
  induction 1 as [|src l Hs _ IH]; [reflexivity|].
  unfold passthrough in *. cbn [map]. rewrite IH. f_equal.
  destruct (entry_type src) as [[|c ty]|]; try discriminate. reflexivity.
Qed.

(** ** Tracks *)

Lemma jsstring_eqb_eq a b : jsstring_eqb a b = true <-> a = b.
Proof.
  unfold jsstring_eqb. destruct (list_eq_dec N.eq_dec a b); split;
    congruence.
Qed.

Lemma caption_or_subtitle_spec tr :
  caption_or_subtitle tr = true <->
  track_kind tr = js "captions" \/ track_kind tr = js "subtitles".
Proof.
  unfold caption_or_subtitle. rewrite orb_true_iff, !jsstring_eqb_eq.
  reflexivity.
Qed.

(** Exactly the caption and subtitle entries, in the order of the payload. *)
Lemma captions_and_subtitles_spec data tr :
  In tr (captions_and_subtitles data) <->
  In tr (list_or_empty (tracks data)) /\
  (track_kind tr = js "captions" \/ track_kind tr = js "subtitles").
Proof.
  unfold captions_and_subtitles. rewrite filter_In, caption_or_subtitle_spec.
  reflexivity.
Qed.

(** [src/extractors/megacloud.ts] and the resolver with local decryption
    return, on every payload, exactly its caption and subtitle tracks. *)
Lemma tracks_are_filtered P w s url fileId nonce data :
  primitives_ok P ->
  new_URL P s = Some url ->
  reaches_payload w url fileId nonce data ->
  (exists srcs trace,
      run (Extractors.extract P w s) tt
      = (Return {| result_sources := srcs;
                   result_tracks := Some (captions_and_subtitles data) |},
         trace)) /\
  (exists srcs trace,
      run (LocalDecrypt.extract P w s) tt
      = (Return {| result_sources := srcs;
                   result_tracks := Some (captions_and_subtitles data) |},
         trace)).
Proof.
  intros HP Hurl Hreach. split.
  - unfold Extractors.extract. rewrite Hurl. run_effects.
    rewrite (Extractors_extract2_on_payload w url fileId nonce data Hreach).
    run_effects. eexists _, _. reflexivity.
  - destruct (LocalDecrypt_extract2_tracks P w url fileId nonce data HP Hreach)
      as (srcs & trace & H).
    unfold LocalDecrypt.extract. rewrite Hurl. run_effects. rewrite H.
    run_effects. eexists _, _. reflexivity.
Qed.

(** C8, on the resolver with the salted strategy only: [tracks] is assigned
    [data.tracks || []] without the filter that the other resolvers apply, so
    a thumbnails track of the payload is in the result. *)
Theorem SaltedOnly_extract_keeps_thumbnails :
  run (SaltedOnly.extract Sample.node
         (Sample.world_of Sample.html_ok Sample.payload_list)
         Sample.embed_url) tt
  = (Return {| SaltedOnly.result_sources :=
                 [{| SaltedOnly.src_file := Some (js "https://cdn/x.m3u8");
                     SaltedOnly.src_type := Some (js "hls") |}];
               SaltedOnly.result_tracks :=
                 Some [Sample.captions_en; Sample.thumbnails] |},
     [FetchPage Sample.embed_url;
      FetchSources (getSources_url (js "abc123") Sample.nonce48)])
  /\
  run (Extractors.extract Sample.node
         (Sample.world_of Sample.html_ok Sample.payload_list)
         Sample.embed_url) tt
  = (Return {| result_sources :=
                 [{| file := js "https://cdn/x.m3u8"; type := js "hls" |}];
               result_tracks := Some [Sample.captions_en] |},
     [FetchPage Sample.embed_url;
      FetchSources (getSources_url (js "abc123") Sample.nonce48)]).
Proof. split; vm_compute; reflexivity. Qed.

(** ** The title matcher on movies *)

Lemma same_string_some a y :
  Server.same_string a (Some y) = true <-> a = Some y.
Proof.
  destruct a as [x|]; cbn [Server.same_string].
  - rewrite jsstring_eqb_eq. split; congruence.
  - split; discriminate.
Qed.

Lemma trim_nonempty y : JsString.trim y <> [] -> exists c s, y = c :: s.
Proof.
  destruct y as [|c s]; [intros H; exfalso; apply H; reflexivity|eauto].
Qed.

(** For a movie whose TMDB year is not blank, the matcher is the search for
    an exact title and year match and nothing else. *)
Lemma findBestFlixHQMatch_movie_with_year P results details raw date :
  Server.tmdb_title details = Some raw ->
  Server.release_date details = Some date ->
  JsString.trim (firstn 4 date) <> [] ->
  Server.findBestFlixHQMatch P results details (js "MOVIE")
  = Return
      (find (fun m =>
               Server.isTitleSimilarEnough P (Server.title m) (toLowerCase P raw)
               && Server.same_string (Server.flixYear m) (Some (firstn 4 date)))
            (filter (fun m => jsstring_eqb (Server.type m) (js "MOVIE")) results)).
Proof.
  intros Htitle Hdate Hyear. unfold Server.findBestFlixHQMatch.
  change (jsstring_eqb (js "MOVIE") (js "MOVIE")) with true.
  cbv beta iota. rewrite Htitle, Hdate.
  destruct (filter _ results) as [|first rest] eqn:Hrel; [reflexivity|].
  cbn [option_map].
  destruct (find _ (first :: rest)) as [m|]; [reflexivity|].
  destruct (trim_nonempty _ Hyear) as (c & y & Hy). rewrite Hy in *.
  cbn [truthy_string andb].
  destruct (jsstring_eqb (JsString.trim (c :: y)) []) eqn:E.
  - apply jsstring_eqb_eq in E. contradiction.
  - reflexivity.
Qed.

(** A year of blanks counts as unknown: the guard that rejects other years
    tests the year after [trim], and the matcher goes on to the first similar
    title. *)
Example movie_blank_year_is_unknown :
  Server.findBestFlixHQMatch Sample.node [SampleCatalog.heat_1995]
    (SampleCatalog.movie (js "    ")) (js "MOVIE")
  = Return (Some SampleCatalog.heat_1995).
Proof. vm_compute. reflexivity. Qed.

(** C10. For every movie lookup whose TMDB details carry a release year
    (the guard of the source: a [tmdbYear] that is not empty after [trim], the year
    being the first four characters of the release date),
    [findBestFlixHQMatch] returns a candidate only if some relevant search
    result with a similar title has exactly that release year, and returns
    null when there is none: no closest-year and no first-result fallback. *)
Theorem movie_with_year_needs_exact_year P results details raw date :
  Server.tmdb_title details = Some raw ->
  Server.release_date details = Some date ->
  JsString.trim (firstn 4 date) <> [] ->
  (exists r, Server.findBestFlixHQMatch P results details (js "MOVIE") = Return r)
  /\
  (forall m,
      Server.findBestFlixHQMatch P results details (js "MOVIE") = Return (Some m) ->
      In m results /\ exact_year_match P raw (firstn 4 date) m)
  /\
  ((forall m, In m results -> ~ exact_year_match P raw (firstn 4 date) m) ->
   Server.findBestFlixHQMatch P results details (js "MOVIE") = Return None).
Proof.
  intros Htitle Hdate Hyear.
  rewrite (findBestFlixHQMatch_movie_with_year P results details raw date
             Htitle Hdate Hyear).
  split; [eexists; reflexivity|]. split.
  - intros m H. injection H as H. apply find_some in H as (Hin & Hm).
    apply filter_In in Hin as (Hin & Hty).
    apply andb_prop in Hm as (Hsim & Hsame).
    split; [exact Hin|]. repeat split.
    + apply jsstring_eqb_eq, Hty.
    + exact Hsim.
    + apply same_string_some, Hsame.
  - intros Hnone. f_equal.
    destruct (find _ _) as [m|] eqn:E; [|reflexivity].
    exfalso. apply find_some in E as (Hin & Hm).
    apply filter_In in Hin as (Hin & Hty).
    apply andb_prop in Hm as (Hsim & Hsame).
    apply (Hnone m Hin). repeat split.
    + apply jsstring_eqb_eq, Hty.
    + exact Hsim.
    + apply same_string_some, Hsame.
Qed.

Lemma movie_with_year_needs_exact_year_witness :
  (exists r,
      Server.findBestFlixHQMatch Sample.node
        [SampleCatalog.kitchen_wars; SampleCatalog.heat_2023; SampleCatalog.heat_1995]
        (SampleCatalog.movie (js "1995-12-15")) (js "MOVIE") = Return r)
  /\
  (forall m,
      Server.findBestFlixHQMatch Sample.node
        [SampleCatalog.kitchen_wars; SampleCatalog.heat_2023; SampleCatalog.heat_1995]
        (SampleCatalog.movie (js "1995-12-15")) (js "MOVIE") = Return (Some m) ->
      In m [SampleCatalog.kitchen_wars; SampleCatalog.heat_2023;
            SampleCatalog.heat_1995]
      /\ exact_year_match Sample.node (js "Heat")
           (firstn 4 (js "1995-12-15")) m)
  /\
  ((forall m,
       In m [SampleCatalog.kitchen_wars; SampleCatalog.heat_2023;
             SampleCatalog.heat_1995] ->
       ~ exact_year_match Sample.node (js "Heat")
           (firstn 4 (js "1995-12-15")) m) ->
   Server.findBestFlixHQMatch Sample.node
     [SampleCatalog.kitchen_wars; SampleCatalog.heat_2023; SampleCatalog.heat_1995]
     (SampleCatalog.movie (js "1995-12-15")) (js "MOVIE") = Return None).
Proof.
  apply (movie_with_year_needs_exact_year Sample.node
           [SampleCatalog.kitchen_wars; SampleCatalog.heat_2023;
            SampleCatalog.heat_1995]
           (SampleCatalog.movie (js "1995-12-15")) (js "Heat")
           (js "1995-12-15")).
  - reflexivity.
  - reflexivity.
  - vm_compute. discriminate.
Defined.

Example movie_exact_year :
  Server.findBestFlixHQMatch Sample.node
    [SampleCatalog.kitchen_wars; SampleCatalog.heat_2023; SampleCatalog.heat_1995]
    (SampleCatalog.movie (js "1995-12-15")) (js "MOVIE")
  = Return (Some SampleCatalog.heat_1995).
Proof. vm_compute. reflexivity. Qed.

(** No closest year for a movie ... *)
Example movie_other_year :
  Server.findBestFlixHQMatch Sample.node
    [SampleCatalog.kitchen_wars; SampleCatalog.heat_2023]
    (SampleCatalog.movie (js "1995-12-15")) (js "MOVIE")
  = Return None.
Proof. vm_compute. reflexivity. Qed.

(** ... and the first relevant result for a series nothing resembles. *)
Example series_falls_back :
  Server.findBestFlixHQMatch Sample.node
    [SampleCatalog.heat_2023; SampleCatalog.kitchen_wars]
    SampleCatalog.series (js "TV Series")
  = Return (Some SampleCatalog.kitchen_wars).
Proof. vm_compute. reflexivity. Qed.

(* ================================================================== *)
(** * Part II, continued: the rest of the program                      *)
(* ================================================================== *)

(** ** The matcher on literals and on greedy stars *)

Section MoreMatcherFacts.
Variable R : Type.
Implicit Types (k : cont R) (b a : list N) (caps : captures).

Lemma rmatch_literal l rest k : forall b a caps,
  rmatch (literal l rest) (b, map N_of_ascii l ++ a) caps k
  = rmatch rest (rev (map N_of_ascii l) ++ b, a) caps k.
Proof.
  induction l as [|x l IH]; intros b a caps.
  - reflexivity.
  - cbn [literal map app rmatch snd fst]. unfold CharClass.lit.
    rewrite N.eqb_refl. rewrite IH. cbn [rev]. rewrite <- app_assoc. reflexivity.
Qed.

Lemma rmatch_literal_inv l rest k r : forall b a caps,
  rmatch (literal l rest) (b, a) caps k = Some r ->
  exists a', a = map N_of_ascii l ++ a' /\
             rmatch rest (rev (map N_of_ascii l) ++ b, a') caps k = Some r.
Proof.
  induction l as [|x l IH]; intros b a caps H.
  - exists a. split; [reflexivity|exact H].
  - cbn [literal rmatch snd fst] in H.
    destruct a as [|c a]; [discriminate|].
    unfold CharClass.lit in H.
    destruct (c =? N_of_ascii x)%N eqn:E; [|discriminate].
    apply N.eqb_eq in E. subst c.
    destruct (IH _ _ _ H) as (a' & -> & H').
    exists a'. split; [reflexivity|].
    cbn [map rev]. rewrite <- app_assoc. exact H'.
Qed.

Lemma greedy_star_inv p k caps r : forall a b,
  greedy_star p b a caps k = Some r ->
  exists g a', a = g ++ a' /\ forallb p g = true /\
               k (rev g ++ b, a') caps = Some r.
Proof.
  induction a as [|c a IH]; intros b H; cbn [greedy_star] in H.
  - exists [], []. auto.
  - destruct (p c) eqn:Hc.
    + destruct (greedy_star p (c :: b) a caps k) as [r'|] eqn:E.
      * injection H as ->. destruct (IH _ E) as (g & a' & -> & Hg & Hk).
        exists (c :: g), a'. split; [reflexivity|]. split.
        -- cbn [forallb]. rewrite Hc, Hg. reflexivity.
        -- cbn [rev]. rewrite <- app_assoc. exact Hk.
      * exists [], (c :: a). auto.
    + exists [], (c :: a). auto.
Qed.

(** The greedy star takes a whole stretch when the rest of the pattern
    accepts what follows it. *)
Lemma greedy_star_all p k caps r : forall g b a,
  forallb p g = true ->
  k (rev g ++ b, a) caps = Some r ->
  match a with c :: _ => p c = false | [] => True end ->
  greedy_star p b (g ++ a) caps k = Some r.
Proof.
  induction g as [|c g IH]; intros b a Hg Hk Ha.
  - cbn [app rev] in *. destruct a as [|c a]; cbn [greedy_star].
    + exact Hk.
    + rewrite Ha. exact Hk.
  - cbn [forallb] in Hg. apply andb_prop in Hg as (Hc & Hg).
    cbn [app greedy_star]. rewrite Hc.
    rewrite (IH (c :: b) a Hg); [reflexivity| |exact Ha].
    cbn [rev] in Hk. rewrite <- app_assoc in Hk. exact Hk.
Qed.

End MoreMatcherFacts.

(** ** The content id, in full *)

Lemma consumed_app_exact (g rest b b' : list N) :
  consumed (b, g ++ rest) (b', rest) = g.
Proof.
  unfold consumed. cbn [snd]. rewrite length_app.
  replace (length g + length rest - length rest) with (length g) by lia.
  apply firstn_app_exact. reflexivity.
Qed.

Lemma match_here_data_id_inv b a m :
  match_here re_data_id (b, a) = Some m ->
  exists fileId post,
    a = data_id_prefix ++ fileId ++ [34%N] ++ post /\
    fileId <> [] /\ forallb CharClass.not_quote fileId = true /\
    group m 1 = Some fileId.
Proof.
  unfold match_here, re_data_id. intros H.
  apply rmatch_literal_inv in H as (a1 & -> & H).
  cbn [rmatch snd fst] in H.
  destruct a1 as [|q a1]; [discriminate|].
  destruct (q =? 34)%N eqn:Eq; [|discriminate]. apply N.eqb_eq in Eq. subst q.
  destruct a1 as [|c a1]; [discriminate|].
  destruct (CharClass.not_quote c) eqn:Hc; [|discriminate].
  apply greedy_star_inv in H as (g & a2 & -> & Hg & H).
  cbn [snd fst] in H.
  destruct a2 as [|q a2]; [discriminate|].
  destruct (q =? 34)%N eqn:Eq; [|discriminate]. apply N.eqb_eq in Eq. subst q.
  injection H as <-.
  exists (c :: g), a2. split; [|split; [|split]].
  - unfold data_id_prefix. rewrite <- !app_assoc. reflexivity.
  - discriminate.
  - cbn [forallb]. rewrite Hc, Hg. reflexivity.
  - unfold group. cbn [groups find fst snd Nat.eqb]. f_equal.
    apply (consumed_app_exact (c :: g) (34%N :: a2)).
Qed.

Lemma match_here_data_id b fileId post :
  fileId <> [] -> forallb CharClass.not_quote fileId = true ->
  exists m, match_here re_data_id (b, data_id_prefix ++ fileId ++ [34%N] ++ post)
            = Some m /\ group m 1 = Some fileId.
Proof.
  intros Hne Hq. destruct fileId as [|c g]; [congruence|].
  cbn [forallb] in Hq. apply andb_prop in Hq as (Hc & Hg).
  eexists. split.
  - unfold match_here, re_data_id, data_id_prefix.
    rewrite <- app_assoc. rewrite rmatch_literal.
    cbn [rmatch snd fst app]. cbn [N.eqb Pos.eqb]. rewrite Hc.
    erewrite greedy_star_all; [reflexivity|exact Hg| |reflexivity].
    cbn [snd fst]. cbn [N.eqb Pos.eqb]. reflexivity.
  - unfold group. cbn [groups find fst snd Nat.eqb]. f_equal.
    apply (consumed_app_exact (c :: g) (34%N :: post)).
Qed.

(** X1. The content id that the resolvers read from the embed page is the
    value of the first occurrence in the page of the text [data-id=Q...Q]
    with a quoted value that is not empty, whatever text comes before it (the
    end of a longer attribute name counts): it is never empty and holds no
    double quote, and a page has a content id exactly when it has such an
    occurrence. *)
Theorem file_id_is_first_data_id_text html :
  (forall fileId,
      file_id html = Some fileId ->
      exists pre post,
        data_id_text_at html pre fileId post /\
        forall pre' fileId' post',
          data_id_text_at html pre' fileId' post' -> length pre <= length pre') /\
  (forall pre fileId post,
      data_id_text_at html pre fileId post -> exists fileId', file_id html = Some fileId').
Proof.
  split.
  - intros fileId H. unfold file_id in H.
    destruct (js_match html re_data_id) as [m|] eqn:Hm; [|discriminate].
    unfold js_match in Hm.
    destruct (search_some _ _ _ _ Hm) as (pre & suf & -> & Hh & Hmin).
    rewrite app_nil_r in Hh.
    destruct (match_here_data_id_inv _ _ _ Hh) as (f & post & -> & Hne & Hq & Hg).
    assert (f = fileId) by congruence. subst f.
    exists pre, post. split; [repeat split; assumption|].
    intros pre' f' post' (E & Hne' & Hq').
    destruct (Nat.le_gt_cases (length pre) (length pre')) as [|Hlt]; [assumption|].
    exfalso.
    destruct (app_split_length pre' (data_id_prefix ++ f' ++ [34%N] ++ post') pre
                (data_id_prefix ++ fileId ++ [34%N] ++ post)
                (eq_sym E) ltac:(lia)) as (mid & -> & E2).
    assert (Hmid : mid <> []).
    { intros ->. rewrite app_nil_r in Hlt. lia. }
    specialize (Hmin pre' mid eq_refl Hmid).
    rewrite app_nil_r, <- E2 in Hmin.
    destruct (match_here_data_id (rev pre') f' post' Hne' Hq') as (m' & Hm' & _).
    congruence.
  - intros pre fileId post (-> & Hne & Hq).
    destruct (match_here_data_id (rev pre ++ []) fileId post Hne Hq) as (m & Hm & Hg).
    destruct (search_reach _ _ _ _ _ Hm) as (m' & Hs).
    unfold file_id, js_match. rewrite Hs.
    destruct (search_some _ _ _ _ Hs) as (pre' & suf & _ & Hh & _).
    destruct (match_here_data_id_inv _ _ _ Hh) as (f & _ & _ & _ & _ & Hg').
    exists f. exact Hg'.
Qed.

Lemma file_id_is_first_data_id_text_witness :
  exists pre post,
    data_id_text_at Sample.html_ok pre (js "abc123") post /\
    forall pre' fileId' post',
      data_id_text_at Sample.html_ok pre' fileId' post' -> length pre <= length pre'.
Proof.
  apply (proj1 (file_id_is_first_data_id_text Sample.html_ok) (js "abc123")).
  vm_compute. reflexivity.
Defined.

(** The pattern is not anchored to an attribute name. *)
Example file_id_inside_a_longer_name :
  file_id Sample.html_two_ids = Some (js "q1").
Proof. vm_compute. reflexivity. Qed.

(** ** Key derivation for every length *)

Lemma digest_chain_length P secret salt n : forall prev,
  primitives_ok P -> length (digest_chain P secret salt n prev) = 16 * n.
Proof.
  induction n as [|n IH]; intros prev HP; cbn [digest_chain].
  - reflexivity.
  - rewrite length_app, (md5_length HP), IH by exact HP. lia.
Qed.

(** The loop of [evpBytesToKey], digest by digest: it stops at the first
    multiple of the digest size that covers what is needed. *)
Lemma evp_loop_chain P password salt need : forall fuel data prev,
  primitives_ok P ->
  need <= length data + 16 * fuel ->
  exists k,
    LocalDecrypt.evp_loop P fuel password salt need data prev
    = Some (data ++ digest_chain P (utf8_encode P password) salt k prev) /\
    need <= length data + 16 * k /\
    (k = 0 \/ length data + 16 * k < need + 16).
Proof.
  induction fuel as [|fuel IH]; intros data prev HP Hneed.
  - exists 0. cbn [LocalDecrypt.evp_loop digest_chain].
    replace (need <=? length data) with true by (symmetry; apply Nat.leb_le; lia).
    rewrite app_nil_r. split; [reflexivity|lia].
  - cbn [LocalDecrypt.evp_loop].
    destruct (need <=? length data) eqn:E.
    + exists 0. apply Nat.leb_le in E. cbn [digest_chain]. rewrite app_nil_r.
      split; [reflexivity|lia].
    + apply Nat.leb_gt in E.
      destruct (IH (data ++ md5 P (prev ++ utf8_encode P password ++ salt))
                   (md5 P (prev ++ utf8_encode P password ++ salt)) HP)
        as (k & Hk & Hl & Hmin).
      { rewrite length_app, (md5_length HP). lia. }
      exists (S k). rewrite Hk. cbn [digest_chain]. rewrite <- app_assoc.
      rewrite length_app, (md5_length HP) in Hl, Hmin.
      split; [reflexivity|lia].
Qed.

(** X2. [evpBytesToKey] returns for every key and IV length asked for: it
    computes as many MD5 digests (of previous digest, password and salt) as
    cover both and no more, and cuts from their concatenation a key and an IV
    of exactly the lengths asked for. *)
Theorem evpBytesToKey_lengths P password salt keyLen ivLen :
  primitives_ok P ->
  exists k key iv,
    keyLen + ivLen <= 16 * k < keyLen + ivLen + 16 /\
    LocalDecrypt.evpBytesToKey P password salt keyLen ivLen = Return (key, iv) /\
    length key = keyLen /\ length iv = ivLen /\
    key ++ iv
    = firstn (keyLen + ivLen)
        (digest_chain P (utf8_encode P password) salt k []).
Proof.
  intros HP. unfold LocalDecrypt.evpBytesToKey.
  destruct (evp_loop_chain P password salt (keyLen + ivLen) (keyLen + ivLen) [] [] HP)
    as (k & Hk & Hl & Hmin); [cbn [length]; lia|].
  cbn [app length] in *.
  exists k. eexists _, _. rewrite Hk. unfold slice.
  rewrite Nat.sub_0_r. cbn [skipn].
  replace (keyLen + ivLen - keyLen) with ivLen by lia.
  pose proof (digest_chain_length P (utf8_encode P password) salt k [] HP) as L.
  split; [lia|]. split; [reflexivity|]. split; [|split].
  - apply firstn_length_le. lia.
  - apply firstn_length_le. rewrite length_skipn. lia.
  - set (chain := digest_chain _ _ _ _ _) in *.
    rewrite <- (firstn_skipn keyLen chain) at 3.
    rewrite firstn_app, firstn_firstn.
    rewrite firstn_length_le by lia.
    replace (Nat.min (keyLen + ivLen) keyLen) with keyLen by lia.
    replace (keyLen + ivLen - keyLen) with ivLen by lia.
    reflexivity.
Qed.

Lemma evpBytesToKey_lengths_witness :
  exists k key iv,
    24 + 8 <= 16 * k < 24 + 8 + 16 /\
    LocalDecrypt.evpBytesToKey Sample.node (js "s3cret") (ascii_bytes "saltsalt") 24 8
    = Return (key, iv) /\
    length key = 24 /\ length iv = 8 /\
    key ++ iv
    = firstn (24 + 8)
        (digest_chain Sample.node (utf8_encode Sample.node (js "s3cret"))
           (ascii_bytes "saltsalt") k []).
Proof.
  apply (evpBytesToKey_lengths Sample.node (js "s3cret") (ascii_bytes "saltsalt") 24 8).
  exact sample_primitives_ok.
Defined.

(** ** [decryptLocally], strategy by strategy *)

(** X3. A payload of the salted scheme is decrypted by the first strategy
    of [decryptLocally], whatever the nonce: the nonce is read by the second
    strategy only, which is not tried. *)
Theorem decryptLocally_salted_ignores_nonce P plaintext secret salt nonce :
  primitives_ok P -> length salt = 8 ->
  LocalDecrypt.decryptLocally P
    (EncodedString (encrypt_salted P secret salt plaintext)) nonce secret
  = Return (utf8_decode P plaintext).
Proof.
  intros HP Hsalt. unfold LocalDecrypt.decryptLocally.
  rewrite (decryptOpenSSL_encrypt_salted P plaintext secret salt HP Hsalt).
  reflexivity.
Qed.

Lemma decryptLocally_salted_ignores_nonce_witness :
  LocalDecrypt.decryptLocally Sample.node
    (EncodedString
       (encrypt_salted Sample.node (js "s3cret") (ascii_bytes "saltsalt")
          (ascii_bytes "https://cdn/x.m3u8")))
    (js "any nonce") (js "s3cret")
  = Return (utf8_decode Sample.node (ascii_bytes "https://cdn/x.m3u8")).
Proof.
  apply (decryptLocally_salted_ignores_nonce Sample.node
           (ascii_bytes "https://cdn/x.m3u8") (js "s3cret")
           (ascii_bytes "saltsalt") (js "any nonce")).
  - exact sample_primitives_ok.
  - reflexivity.
Defined.

(** X4. The second strategy of [decryptLocally] undoes AES-256-CBC under
    the SHA-256 of the secret and the first 16 bytes of the nonce: a
    ciphertext made that way, in base64 and not beginning with the marker of
    the salted scheme, is decrypted to the bytes that were encrypted. *)
Theorem decryptLocally_nonce_round_trip P plaintext secret nonce :
  primitives_ok P ->
  length (sha256 P (utf8_encode P secret)) = 32 ->
  16 <= length (utf8_encode P nonce) ->
  firstn 8 (Cbc.encrypt P (sha256 P (utf8_encode P secret))
              (firstn 16 (utf8_encode P nonce)) plaintext)
  <> ascii_bytes "Salted__" ->
  LocalDecrypt.decryptLocally P
    (EncodedString
       (Base64.encode
          (Cbc.encrypt P (sha256 P (utf8_encode P secret))
             (firstn 16 (utf8_encode P nonce)) plaintext)))
    nonce secret
  = Return (utf8_decode P plaintext).
Proof.
  intros HP Hkey Hnonce Hmark.
  unfold LocalDecrypt.decryptLocally, LocalDecrypt.decryptOpenSSL,
    LocalDecrypt.decryptWithNonce, slice.
  cbn [Buffer_from_base64 skipn Nat.sub]. rewrite base64_decode_encode.
  rewrite (bytes_eqb_false _ _ Hmark). cbn [negb or_else].
  rewrite cbc_decrypt_encrypt;
    [reflexivity | exact HP | exact Hkey | apply firstn_length_le, Hnonce].
Qed.

Lemma decryptLocally_nonce_round_trip_witness :
  LocalDecrypt.decryptLocally Sample.node
    (EncodedString
       (Base64.encode
          (Cbc.encrypt Sample.node
             (sha256 Sample.node (utf8_encode Sample.node (js "s3cret")))
             (firstn 16 (utf8_encode Sample.node Sample.nonce48))
             (ascii_bytes "https://cdn/x.m3u8"))))
    Sample.nonce48 (js "s3cret")
  = Return (utf8_decode Sample.node (ascii_bytes "https://cdn/x.m3u8")).
Proof.
  apply (decryptLocally_nonce_round_trip Sample.node
           (ascii_bytes "https://cdn/x.m3u8") (js "s3cret") Sample.nonce48).
  - exact sample_primitives_ok.
  - reflexivity.
  - vm_compute. lia.
  - vm_compute. discriminate.
Defined.

(** X5. [decryptLocally] ends in one of two ways: it returns a text, or it
    throws [Local decryption failed]; what made a strategy fail is not
    reported, and the key derivation loop always exits. *)
Theorem decryptLocally_fails_with_one_message P encryptedData nonce secret :
  primitives_ok P ->
  (exists text,
      LocalDecrypt.decryptLocally P encryptedData nonce secret = Return text) \/
  LocalDecrypt.decryptLocally P encryptedData nonce secret
  = Throw "Local decryption failed".
Proof.
  intros HP. unfold LocalDecrypt.decryptLocally, LocalDecrypt.decryptOpenSSL,
    LocalDecrypt.decryptWithNonce.
  rewrite (evpBytesToKey_derives P secret _ HP).
  destruct (negb _); cbn [or_else].
  - destruct (Cbc.decrypt P _ _ _); cbn [or_else]; eauto.
  - destruct (salted_key_iv P secret _) as (key, iv).
    destruct (Cbc.decrypt P key iv _); cbn [or_else]; [eauto|].
    destruct (Cbc.decrypt P _ _ _); cbn [or_else]; eauto.
Qed.

Lemma decryptLocally_fails_with_one_message_witness :
  (exists text,
      LocalDecrypt.decryptLocally Sample.node
        (EncodedString (js "bm90IHNhbHRlZCBhdCBhbGw=")) Sample.nonce48 (js "s3cret")
      = Return text) \/
  LocalDecrypt.decryptLocally Sample.node
    (EncodedString (js "bm90IHNhbHRlZCBhdCBhbGw=")) Sample.nonce48 (js "s3cret")
  = Throw "Local decryption failed".
Proof.
  apply (decryptLocally_fails_with_one_message Sample.node
           (EncodedString (js "bm90IHNhbHRlZCBhdCBhbGw=")) Sample.nonce48
           (js "s3cret")).
  exact sample_primitives_ok.
Defined.

(** ** The resolver with local decryption, on a payload it can decrypt *)

Lemma encrypt_salted_not_empty P secret salt plaintext :
  exists c s, encrypt_salted P secret salt plaintext = c :: s.
Proof.
  unfold encrypt_salted.
  change (ascii_bytes "Salted__")
    with ["S"%byte; "a"%byte; "l"%byte; "t"%byte; "e"%byte; "d"%byte;
          "_"%byte; "_"%byte].
  cbn [app Base64.encode]. eauto.
Qed.

Lemma LocalDecrypt_extract2_decrypts P w url fileId nonce data keyData secret
      text fileUrl :
  reaches_payload w url fileId nonce data ->
  truthy_flag (encrypted data) && truthy_sources (sources data) = true ->
  key_file w = Some keyData -> vidstr keyData = Some secret -> secret <> [] ->
  LocalDecrypt.decryptLocally P (as_encoded (sources data)) nonce secret
  = Return text ->
  LocalDecrypt.file_url P text = Some fileUrl -> truthy_json fileUrl = true ->
  LocalDecrypt.extract2 P w url tt
  = (Return {| data_sources := [{| file := fileUrl; type := js "hls" |}];
               data_tracks := captions_and_subtitles data;
               data_t := number_or_0 (t data);
               data_server := number_or_0 (server data) |},
     tt,
     [FetchPage (href url); FetchSources (getSources_url fileId nonce);
      FetchKeys; Decrypt "decryptLocally"]).
Proof.
  intros (html & Hpage & Hid & Hnonce & Hdata) Hflag Hkey Hsecret Hne Hdec Hurl Hu.
  destruct (nonce_not_empty _ _ Hnonce) as (c & n & ->).
  pose proof (file_id_not_empty _ _ Hid) as Hf.
  destruct fileId as [|c0 f]; [congruence|].
  destruct secret as [|k ks]; [congruence|].
  unfold LocalDecrypt.extract2. run_effects.
  rewrite Hpage. run_effects. rewrite Hid. run_effects.
  rewrite Hnonce. run_effects. rewrite Hdata. run_effects.
  rewrite Hflag. run_effects. rewrite Hkey. run_effects.
  rewrite Hsecret. run_effects. rewrite Hdec. run_effects.
  rewrite Hurl. run_effects. rewrite Hu. run_effects. reflexivity.
Qed.

(** X6. End to end, on a payload flagged as encrypted whose [sources] are a
    ciphertext of the salted scheme under the [vidstr] secret of the key
    document: the resolver fetches the page, the payload and the key
    document, decrypts, and returns one [hls] source with the caption and
    subtitle tracks of the payload. The [file] of that source is what the
    decrypted text yields: the [file] member of its JSON when that member is
    truthy, of whatever type, else its truthy [url] member, and the text
    itself when it is no JSON. *)
Theorem LocalDecrypt_extract_decrypts
        P w s url fileId nonce data keyData secret salt plaintext fileUrl :
  primitives_ok P ->
  new_URL P s = Some url ->
  reaches_payload w url fileId nonce data ->
  encrypted data = Some true ->
  sources data = SourcesString (encrypt_salted P secret salt plaintext) ->
  length salt = 8 ->
  key_file w = Some keyData -> vidstr keyData = Some secret -> secret <> [] ->
  LocalDecrypt.file_url P (utf8_decode P plaintext) = Some fileUrl ->
  truthy_json fileUrl = true ->
  run (LocalDecrypt.extract P w s) tt
  = (Return {| result_sources := [{| file := fileUrl; type := js "hls" |}];
               result_tracks := Some (captions_and_subtitles data) |},
     [FetchPage (href url); FetchSources (getSources_url fileId nonce);
      FetchKeys; Decrypt "decryptLocally"]).
Proof.
  intros HP Hurl Hreach Hflag Hsrc Hsalt Hkey Hsecret Hne Hfile Hu.
  unfold LocalDecrypt.extract. rewrite Hurl. run_effects.
  rewrite (LocalDecrypt_extract2_decrypts P w url fileId nonce data keyData
             secret (utf8_decode P plaintext) fileUrl Hreach).
  - run_effects. reflexivity.
  - rewrite Hflag, Hsrc.
    destruct (encrypt_salted_not_empty P secret salt plaintext) as (c & r & ->).
    reflexivity.
  - exact Hkey.
  - exact Hsecret.
  - exact Hne.
  - rewrite Hsrc. cbn [as_encoded].
    unfold LocalDecrypt.decryptLocally.
    rewrite (decryptOpenSSL_encrypt_salted P plaintext secret salt HP Hsalt).
    reflexivity.
  - exact Hfile.
  - exact Hu.
Qed.

(** What the decrypted text yields: a [file] member that is truthy, also
    when it is no string; else a truthy [url] member; the text itself when
    it is no JSON. *)
Example file_url_reads_truthy_members :
  LocalDecrypt.file_url
    (Sample.node_parsing
       (Some (JObject [(js "file", JNumber 5);
                       (js "url", JString (js "https://cdn/y.m3u8"))])))
    (js "a JSON text")
  = Some (JNumber 5) /\
  LocalDecrypt.file_url
    (Sample.node_parsing
       (Some (JObject [(js "file", JString []);
                       (js "url", JString (js "https://cdn/y.m3u8"))])))
    (js "a JSON text")
  = Some (JString (js "https://cdn/y.m3u8")) /\
  LocalDecrypt.file_url
    (Sample.node_parsing (Some (JObject [(js "file", JNull)])))
    (js "a JSON text")
  = None /\
  LocalDecrypt.file_url (Sample.node_parsing None) (js "https://cdn/x.m3u8")
  = Some (JString (js "https://cdn/x.m3u8")).
Proof. repeat split; vm_compute; reflexivity. Qed.

(** The same resolver on a payload that is flagged and whose [sources] are
    truthy: the key document is requested, and a decryption is at most
    entered once. *)
Lemma LocalDecrypt_extract2_flagged P w url fileId nonce data :
  primitives_ok P ->
  reaches_payload w url fileId nonce data ->
  truthy_flag (encrypted data) && truthy_sources (sources data) = true ->
  exists srcs tail,
    LocalDecrypt.extract2 P w url tt
    = (Return {| data_sources := srcs;
                 data_tracks := captions_and_subtitles data;
                 data_t := number_or_0 (t data);
                 data_server := number_or_0 (server data) |},
       tt,
       [FetchPage (href url); FetchSources (getSources_url fileId nonce);
        FetchKeys] ++ tail) /\
    (tail = [] \/ tail = [Decrypt "decryptLocally"]).
Proof.
  intros HP Hreach Hflag.
  pose proof Hreach as (html & Hpage & Hid & Hnonce & Hdata).
  destruct (nonce_not_empty _ _ Hnonce) as (c & n & ->).
  pose proof (file_id_not_empty _ _ Hid) as Hne.
  destruct fileId as [|c0 f]; [congruence|].
  unfold LocalDecrypt.extract2. run_effects.
  rewrite Hpage. run_effects. rewrite Hid. run_effects.
  rewrite Hnonce. run_effects. rewrite Hdata. run_effects.
  rewrite Hflag. run_effects.
  destruct (key_file w) as [keyData|]; run_effects;
    [|eexists _, _; split; [reflexivity|left; reflexivity]].
  destruct (vidstr keyData) as [[|k ks]|]; run_effects;
    try (eexists _, []; split; [reflexivity|left; reflexivity]).
  pose proof (decryptLocally_terminates P (as_encoded (sources data))
                (c :: n) (k :: ks) HP) as Hterm.
  destruct (LocalDecrypt.decryptLocally P _ _ _) as [text| |];
    run_effects; [| |congruence].
  - destruct (LocalDecrypt.file_url P text) as [fileUrl|]; run_effects;
      [destruct (truthy_json fileUrl); run_effects|];
      eexists _, _; (split; [reflexivity|right; reflexivity]).
  - eexists _, _; (split; [reflexivity|right; reflexivity]).
Qed.

(** X7. The resolver with local decryption asks for the key document
    exactly when the payload is flagged as encrypted and its [sources] are
    truthy: on every other payload no request goes to the key URL. *)
Theorem LocalDecrypt_fetches_keys_iff_flagged P w s url fileId nonce data :
  primitives_ok P ->
  new_URL P s = Some url ->
  reaches_payload w url fileId nonce data ->
  calls_key_provider (snd (run (LocalDecrypt.extract P w s) tt))
  <-> truthy_flag (encrypted data) && truthy_sources (sources data) = true.
Proof.
  intros HP Hurl Hreach.
  destruct (truthy_flag (encrypted data) && truthy_sources (sources data))
    eqn:Hflag.
  - destruct (LocalDecrypt_extract2_flagged P w url fileId nonce data HP Hreach Hflag)
      as (srcs & tail & H & _).
    unfold LocalDecrypt.extract. rewrite Hurl. run_effects. rewrite H.
    run_effects. cbn [snd]. split; [reflexivity|]. intros _.
    unfold calls_key_provider. cbn [In]. auto.
  - unfold LocalDecrypt.extract. rewrite Hurl. run_effects.
    rewrite (LocalDecrypt_extract2_unflagged P w url fileId nonce data Hreach Hflag).
    run_effects. cbn [snd]. split; [|discriminate].
    intros H. exfalso. revert H. apply no_key_no_decryption.
Qed.

(** ** Every failure of the resolver with local decryption is an empty result *)

(** X8. [MegaCloud.extract] of the resolver with local decryption returns on
    every URL and every network, and when the resolution does not get as far
    as a payload (no URL, no page, no content id, no nonce, no answer of the
    sources endpoint) what it returns has no source and no track. *)
Theorem LocalDecrypt_extract_fails_empty P w s :
  primitives_ok P ->
  exists r trace,
    run (LocalDecrypt.extract P w s) tt = (Return r, trace) /\
    ((forall url fileId nonce data,
         new_URL P s = Some url -> ~ reaches_payload w url fileId nonce data) ->
     result_sources r = [] /\
     (result_tracks r = None \/ result_tracks r = Some [])).
Proof.
  intros HP. unfold LocalDecrypt.extract.
  destruct (new_URL P s) as [url|] eqn:Hurl; run_effects.
  2:{ eexists _, _. split; [reflexivity|]. intros _. cbn. auto. }
  destruct (embed_page w (href url)) as [html|] eqn:Hpage.
  2:{ unfold LocalDecrypt.extract2. run_effects. rewrite Hpage. run_effects.
      eexists _, _. split; [reflexivity|]. intros _. cbn. auto. }
  destruct (file_id html) as [[|c0 f]|] eqn:Hid.
  1,3: unfold LocalDecrypt.extract2; run_effects; rewrite Hpage; run_effects;
       rewrite Hid; run_effects; eexists _, _; (split; [reflexivity|]);
       intros _; cbn; auto.
  destruct (extractNonce html) as [nonce|] eqn:Hnonce.
  2:{ unfold LocalDecrypt.extract2. run_effects. rewrite Hpage. run_effects.
      rewrite Hid. run_effects. rewrite Hnonce. run_effects.
      eexists _, _. split; [reflexivity|]. intros _. cbn. auto. }
  destruct (getSources w (getSources_url (c0 :: f) nonce)) as [[data|]|] eqn:Hdata.
  - assert (Hreach : reaches_payload w url (c0 :: f) nonce data)
      by (exists html; repeat split; assumption).
    destruct (LocalDecrypt_extract2_tracks P w url (c0 :: f) nonce data HP Hreach)
      as (srcs & trace & H).
    rewrite H. run_effects. eexists _, _. split; [reflexivity|].
    intros Hno. exfalso. exact (Hno url _ _ _ eq_refl Hreach).
  - destruct (nonce_not_empty _ _ Hnonce) as (c & n & ->).
    unfold LocalDecrypt.extract2. run_effects. rewrite Hpage. run_effects.
    rewrite Hid. run_effects. rewrite Hnonce. run_effects.
    rewrite Hdata. run_effects. eexists _, _. split; [reflexivity|].
    intros _. cbn. auto.
  - destruct (nonce_not_empty _ _ Hnonce) as (c & n & ->).
    unfold LocalDecrypt.extract2. run_effects. rewrite Hpage. run_effects.
    rewrite Hid. run_effects. rewrite Hnonce. run_effects.
    rewrite Hdata. run_effects. eexists _, _. split; [reflexivity|].
    intros _. cbn. auto.
Qed.

(** ** When [src/extractors/megacloud.ts] returns *)

(** X9. [MegaCloud.extract] of [src/extractors/megacloud.ts] returns a
    result exactly when the resolution gets as far as a payload: the string
    is a URL, its page is fetched and holds a content id and a nonce, and the
    sources endpoint answers with a body. In every other case it throws. *)
Theorem Extractors_extract_returns_iff P w s :
  (exists r trace, run (Extractors.extract P w s) tt = (Return r, trace)) <->
  (exists url fileId nonce data,
      new_URL P s = Some url /\ reaches_payload w url fileId nonce data).
Proof.
  split.
  - intros (r & trace & H). unfold Extractors.extract in H.
    destruct (new_URL P s) as [url|] eqn:Hurl; run_effects;
      [|revert H; run_effects; discriminate].
    revert H. unfold Extractors.extract2. run_effects.
    destruct (embed_page w (href url)) as [html|] eqn:Hpage; run_effects;
      [|discriminate].
    destruct (file_id html) as [[|c0 f]|] eqn:Hid; run_effects;
      try discriminate.
    destruct (extractNonce html) as [nonce|] eqn:Hnonce; run_effects;
      [|discriminate].
    destruct (nonce_not_empty _ _ Hnonce) as (c & n & ->). run_effects.
    destruct (getSources w (getSources_url (c0 :: f) (c :: n)))
      as [[data|]|] eqn:Hdata; run_effects; try discriminate.
    intros _. exists url, (c0 :: f), (c :: n), data.
    split; [reflexivity|]. exists html. repeat split; assumption.
  - intros (url & fileId & nonce & data & Hurl & Hreach).
    unfold Extractors.extract. rewrite Hurl. run_effects.
    rewrite (Extractors_extract2_on_payload w url fileId nonce data Hreach).
    run_effects. eexists _, _. reflexivity.
Qed.

(** ** The two resolvers side by side *)

(** X10. On a payload that is not flagged as encrypted, or whose [sources]
    are falsy, the resolver with local decryption does what
    [src/extractors/megacloud.ts] does: the same result after the same two
    requests. *)
Theorem LocalDecrypt_agrees_when_unflagged P w s url fileId nonce data :
  new_URL P s = Some url ->
  reaches_payload w url fileId nonce data ->
  truthy_flag (encrypted data) && truthy_sources (sources data) = false ->
  run (LocalDecrypt.extract P w s) tt = run (Extractors.extract P w s) tt.
Proof.
  intros Hurl Hreach Hflag.
  unfold LocalDecrypt.extract, Extractors.extract. rewrite Hurl. run_effects.
  rewrite (LocalDecrypt_extract2_unflagged P w url fileId nonce data Hreach Hflag).
  rewrite (Extractors_extract2_on_payload w url fileId nonce data Hreach).
  run_effects. reflexivity.
Qed.

(** ** The resolver with the salted strategy only *)

Lemma decryptOpenSSL_terminates P encryptedB64 password :
  primitives_ok P ->
  LocalDecrypt.decryptOpenSSL P encryptedB64 password <> Diverge.
Proof.
  intros HP. unfold LocalDecrypt.decryptOpenSSL.
  rewrite (evpBytesToKey_derives P password _ HP).
  destruct (negb _); [discriminate|].
  destruct (salted_key_iv P password _) as (key, iv).
  destruct (Cbc.decrypt P key iv _); discriminate.
Qed.

Lemma whole_nonce48_not_empty html m :
  js_match html re_nonce48 = Some m -> exists c n, whole m = c :: n.
Proof.
  intros H.
  destruct (js_match_nonce48_some _ _ H) as (pre & run & post & (_ & (L & _) & _) & ->).
  cbn [whole]. destruct run as [|c n]; [discriminate|eauto].
Qed.

Lemma SaltedOnly_extract2_returns P w url :
  primitives_ok P ->
  exists d rest,
    SaltedOnly.extract2 P w url tt
    = (Return d, tt,
       FetchPage (href url) :: FetchSources (SaltedOnly_api_url w url) :: rest).
Proof.
  intros HP. unfold SaltedOnly.extract2, SaltedOnly_api_url. run_effects.
  destruct (embed_page w (href url)) as [html|] eqn:Hpage; run_effects.
  - destruct (js_match html re_nonce48) as [m|] eqn:Hm; run_effects.
    + destruct (whole_nonce48_not_empty _ _ Hm) as (c & n & Hw).
      cbn [option_map]. rewrite Hw. run_effects.
      destruct (getSources w _) as [[data|]|]; run_effects;
        try (eexists _, _; reflexivity).
      destruct (sources data) as [str|l|]; run_effects;
        try (eexists _, _; reflexivity).
      destruct (key_file w) as [keyData|]; run_effects;
        try (eexists _, _; reflexivity).
      destruct (SaltedOnly.password_of keyData) as [[|k ks]|]; run_effects;
        try (eexists _, _; reflexivity).
      pose proof (decryptOpenSSL_terminates P (EncodedString str) (k :: ks) HP)
        as Hterm.
      unfold SaltedOnly.decryptOpenSSL.
      destruct (LocalDecrypt.decryptOpenSSL P _ _) as [text| |]; run_effects;
        try (eexists _, _; reflexivity); [|congruence].
      destruct (SaltedOnly.parsed_sources P text); run_effects;
        eexists _, _; reflexivity.
    + cbn [option_map]. run_effects.
      destruct (getSources w _) as [[data|]|]; run_effects;
        try (eexists _, _; reflexivity).
      destruct (sources data) as [str|l|]; run_effects;
        try (eexists _, _; reflexivity).
      destruct (key_file w) as [keyData|]; run_effects;
        try (eexists _, _; reflexivity).
      destruct (SaltedOnly.password_of keyData) as [[|k ks]|]; run_effects;
        try (eexists _, _; reflexivity).
      pose proof (decryptOpenSSL_terminates P (EncodedString str) (k :: ks) HP)
        as Hterm.
      unfold SaltedOnly.decryptOpenSSL.
      destruct (LocalDecrypt.decryptOpenSSL P _ _) as [text| |]; run_effects;
        try (eexists _, _; reflexivity); [|congruence].
      destruct (SaltedOnly.parsed_sources P text); run_effects;
        eexists _, _; reflexivity.
  - destruct (getSources w _) as [[data|]|]; run_effects;
      try (eexists _, _; reflexivity).
    destruct (sources data) as [str|l|]; run_effects;
      try (eexists _, _; reflexivity).
    destruct (key_file w) as [keyData|]; run_effects;
      try (eexists _, _; reflexivity).
    destruct (SaltedOnly.password_of keyData) as [[|k ks]|]; run_effects;
      try (eexists _, _; reflexivity).
    pose proof (decryptOpenSSL_terminates P (EncodedString str) (k :: ks) HP)
      as Hterm.
    unfold SaltedOnly.decryptOpenSSL.
    destruct (LocalDecrypt.decryptOpenSSL P _ _) as [text| |]; run_effects;
      try (eexists _, _; reflexivity); [|congruence].
    destruct (SaltedOnly.parsed_sources P text); run_effects;
      eexists _, _; reflexivity.
Qed.

(** X11. The resolver with the salted strategy only returns on every URL
    and every network, and whenever the string is a URL it asks the sources
    endpoint, also when the embed page could not be fetched or holds no
    token: the request then carries the id alone, without the [_k]
    parameter; with a token on the page it carries the first 48-character
    run. *)
Theorem SaltedOnly_extract_always_asks P w s :
  primitives_ok P ->
  (exists r trace, run (SaltedOnly.extract P w s) tt = (Return r, trace)) /\
  (forall url,
      new_URL P s = Some url ->
      exists r api rest,
        run (SaltedOnly.extract P w s) tt
        = (Return r, FetchPage (href url) :: FetchSources api :: rest) /\
        (embed_page w (href url) = None -> api = SaltedOnly_id_url url) /\
        (forall html,
            embed_page w (href url) = Some html -> no_run48 html ->
            api = SaltedOnly_id_url url) /\
        (forall html pre run post,
            embed_page w (href url) = Some html ->
            first_run48 html pre run post ->
            api = SaltedOnly_id_url url ++ js "&_k=" ++ run)).
Proof.
  intros HP.
  assert (H : forall url,
      new_URL P s = Some url ->
      exists r rest,
        run (SaltedOnly.extract P w s) tt
        = (Return r,
           FetchPage (href url) :: FetchSources (SaltedOnly_api_url w url) :: rest)).
  { intros url Hurl. unfold SaltedOnly.extract. rewrite Hurl. run_effects.
    destruct (SaltedOnly_extract2_returns P w url HP) as (d & rest & H).
    rewrite H. run_effects. eexists _, _. reflexivity. }
  split.
  - destruct (new_URL P s) as [url|] eqn:Hurl.
    + destruct (H url eq_refl) as (r & rest & Hr). eexists _, _. exact Hr.
    + unfold SaltedOnly.extract. rewrite Hurl. run_effects.
      eexists _, _. reflexivity.
  - intros url Hurl. destruct (H url Hurl) as (r & rest & Hr).
    exists r, (SaltedOnly_api_url w url), rest. split; [exact Hr|].
    unfold SaltedOnly_api_url, SaltedOnly_id_url. split; [|split].
    + intros ->. rewrite app_nil_r. reflexivity.
    + intros html -> Hno. apply js_match_nonce48_none in Hno. rewrite Hno.
      rewrite app_nil_r. reflexivity.
    + intros html pre run post -> Hfirst.
      destruct (js_match html re_nonce48) as [m|] eqn:Hm.
      * destruct (js_match_nonce48_some _ _ Hm) as (p1 & r1 & q1 & F & ->).
        rewrite (first_run48_unique _ _ _ _ _ _ _ Hfirst F).
        cbn [whole]. rewrite <- !app_assoc. reflexivity.
      * exfalso. apply js_match_nonce48_none in Hm.
        destruct Hfirst as (E & D & _). exact (Hm _ _ _ E D).
Qed.

(** ** The title matcher *)

(** X12. A title that is blank once lowercased and trimmed is similar to
    every title, on either side of the comparison: its list of words is
    empty, and the empty string is a substring of every string. *)
Theorem blank_title_is_similar_to_all P blank title :
  JsString.trim (toLowerCase P blank) = [] ->
  Server.isTitleSimilarEnough P blank title = true /\
  Server.isTitleSimilarEnough P title blank = true.
Proof.
  intros Hb. unfold Server.isTitleSimilarEnough. rewrite Hb.
  split.
  - destruct (jsstring_eqb [] _); [reflexivity|].
    cbn [JsString.split_spaces JsString.split_spaces_from rev filter length
         Nat.ltb Nat.leb orb andb].
    destruct (JsString.trim (toLowerCase P title)); reflexivity.
  - destruct (jsstring_eqb _ []); [reflexivity|].
    cbn [JsString.split_spaces JsString.split_spaces_from rev filter length
         Nat.ltb Nat.leb].
    rewrite orb_true_r. cbn [andb].
    replace (JsString.includes (JsString.trim (toLowerCase P title)) [])
      with true; [reflexivity|].
    destruct (JsString.trim (toLowerCase P title)); reflexivity.
Qed.

Lemma blank_title_is_similar_to_all_witness :
  Server.isTitleSimilarEnough Sample.node (js "   ") (js "Heat") = true /\
  Server.isTitleSimilarEnough Sample.node (js "Heat") (js "   ") = true.
Proof.
  apply (blank_title_is_similar_to_all Sample.node (js "   ") (js "Heat")).
  reflexivity.
Defined.

(** The element that a [reduce] keeps is one of the elements. *)
Lemma fold_left_choice {A} (f : A -> A -> A) :
  (forall a b, f a b = a \/ f a b = b) ->
  forall l x, In (fold_left f l x) (x :: l).
Proof.
  intros Hf. induction l as [|y l IH]; intros x; cbn [fold_left].
  - left. reflexivity.
  - destruct (IH (f x y)) as [H|H].
    + destruct (Hf x y) as [E|E].
      * left. rewrite <- H. symmetry. exact E.
      * right. left. rewrite <- H. symmetry. exact E.
    + right. right. exact H.
Qed.

Lemma fold_left_choice_in {A} (f : A -> A -> A) x l :
  (forall a b, f a b = a \/ f a b = b) ->
  In (fold_left f (x :: l) x) (x :: l).
Proof.
  intros Hf. destruct (fold_left_choice f Hf (x :: l) x) as [H|H];
    [left; exact H|exact H].
Qed.

(** What [findBestFlixHQMatch] returns, branch by branch. *)
Lemma findBestFlixHQMatch_cases P results details type_ m :
  Server.findBestFlixHQMatch P results details type_ = Return (Some m) ->
  exists raw,
    (if jsstring_eqb type_ (js "MOVIE") then Server.tmdb_title details
     else Server.tmdb_name details) = Some raw /\
    In m (filter (fun m => jsstring_eqb (Server.type m) type_) results) /\
    (similar_to P raw m \/
     (jsstring_eqb type_ (js "MOVIE") = false /\
      filter (fun m => Server.isTitleSimilarEnough P (Server.title m)
                         (toLowerCase P raw))
             (filter (fun m => jsstring_eqb (Server.type m) type_) results) = [] /\
      exists rest,
        filter (fun m => jsstring_eqb (Server.type m) type_) results = m :: rest)).
Proof.
  unfold Server.findBestFlixHQMatch, similar_to.
  destruct (if jsstring_eqb type_ (js "MOVIE") then _ else _) as [raw|];
    [|discriminate].
  set (rel := filter (fun m => jsstring_eqb (Server.type m) type_) results).
  set (sim := fun m => Server.isTitleSimilarEnough P (Server.title m)
                         (toLowerCase P raw)).
  intros H. exists raw. split; [reflexivity|].
  destruct rel as [|first rest] eqn:Hrel; [discriminate|].
  assert (Hsim : forall x, In x (filter sim (first :: rest)) ->
                           In x (first :: rest) /\ sim x = true).
  { intros x Hx. apply filter_In in Hx. exact Hx. }
  revert H.
  (* the season matching of a series *)
  destruct (if jsstring_eqb type_ (js "MOVIE") then None
            else Server.number_of_seasons details) as [n|].
  - match goal with
    | |- context [find ?f (first :: rest)] =>
        destruct (find f (first :: rest)) as [found|] eqn:Hfind
    end.
    + intros H. injection H as <-. apply find_some in Hfind as (Hin & Hf).
      apply andb_prop in Hf as (Hs & _). split; [exact Hin|left; exact Hs].
    + destruct (filter sim (first :: rest)) as [|show0 shows] eqn:Hf.
      * (* no similar title: the year matching, then the fallback *)
        match goal with
        | |- context [find ?f (first :: rest)] =>
            destruct (find f (first :: rest)) as [exact|] eqn:Hexact
        end.
        { intros H. injection H as <-. apply find_some in Hexact as (Hin & Hx).
          apply andb_prop in Hx as (Hs & _). split; [exact Hin|left; exact Hs]. }
        destruct (jsstring_eqb type_ (js "MOVIE") && _ && _); [discriminate|].
        destruct (negb (jsstring_eqb type_ (js "MOVIE"))) eqn:Hmovie;
          [|discriminate].
        intros H. injection H as <-. split; [left; reflexivity|].
        right. apply negb_true_iff in Hmovie. repeat split; eauto.
      * intros H. injection H as <-.
        match goal with
        | |- In (fold_left ?f _ _) _ /\ _ =>
            assert (Hin : In (fold_left f (show0 :: shows) show0) (show0 :: shows))
              by (apply fold_left_choice_in; intros a b; cbv zeta;
                  destruct (Server.number_lt _ _); auto)
        end.
        apply Hsim in Hin as (Hin & Hs).
        split; [exact Hin|left; exact Hs].
  - match goal with
    | |- context [find ?f (first :: rest)] =>
        destruct (find f (first :: rest)) as [exact|] eqn:Hexact
    end.
    { intros H. injection H as <-. apply find_some in Hexact as (Hin & Hx).
      apply andb_prop in Hx as (Hs & _). split; [exact Hin|left; exact Hs]. }
    destruct (jsstring_eqb type_ (js "MOVIE") && _ && _); [discriminate|].
    destruct (filter sim (first :: rest)) as [|m0 ms] eqn:Hf.
    + destruct (negb (jsstring_eqb type_ (js "MOVIE"))) eqn:Hmovie;
        [|discriminate].
      intros H. injection H as <-. split; [left; reflexivity|].
      right. apply negb_true_iff in Hmovie. repeat split; eauto.
    + destruct (Server.number_lt (Some 0%Z) _).
      * intros H. injection H as <-.
        match goal with
        | |- In (fold_left ?f _ _) _ /\ _ =>
            assert (Hin : In (fold_left f (m0 :: ms) m0) (m0 :: ms))
              by (apply fold_left_choice_in; intros a b;
                  destruct (Server.number_lt _ _); auto)
        end.
        apply Hsim in Hin as (Hin & Hs).
        split; [exact Hin|left; exact Hs].
      * intros H. injection H as <-.
        assert (Hin : In m0 (m0 :: ms)) by (left; reflexivity).
        apply Hsim in Hin as (Hin & Hs). split; [exact Hin|left; exact Hs].
Qed.

Lemma relevant_filter type_ results m :
  In m (filter (fun m => jsstring_eqb (Server.type m) type_) results) <->
  In m results /\ Server.type m = type_.
Proof. rewrite filter_In, jsstring_eqb_eq. reflexivity. Qed.

(** X13. Whatever [findBestFlixHQMatch] returns is one of the search
    results it was given, and of the type that was asked for. *)
Theorem findBestFlixHQMatch_returns_a_relevant_result P results details type_ m :
  Server.findBestFlixHQMatch P results details type_ = Return (Some m) ->
  In m results /\ Server.type m = type_.
Proof.
  intros H.
  destruct (findBestFlixHQMatch_cases P results details type_ m H)
    as (raw & _ & Hin & _).
  apply relevant_filter, Hin.
Qed.

Lemma findBestFlixHQMatch_returns_a_relevant_result_witness :
  In SampleCatalog.kitchen_wars [SampleCatalog.heat_2023; SampleCatalog.kitchen_wars] /\
  Server.type SampleCatalog.kitchen_wars = js "TV Series".
Proof.
  apply (findBestFlixHQMatch_returns_a_relevant_result Sample.node
           [SampleCatalog.heat_2023; SampleCatalog.kitchen_wars]
           SampleCatalog.series (js "TV Series") SampleCatalog.kitchen_wars).
  vm_compute. reflexivity.
Defined.

(** X14. For a movie, [findBestFlixHQMatch] never returns a result whose
    title is not similar to the TMDB title, whatever the release year is or
    is missing: the first-result fallback is not taken for a movie. *)
Theorem movie_match_has_similar_title P results details raw m :
  Server.tmdb_title details = Some raw ->
  Server.findBestFlixHQMatch P results details (js "MOVIE") = Return (Some m) ->
  similar_to P raw m.
Proof.
  intros Htitle H.
  destruct (findBestFlixHQMatch_cases P results details (js "MOVIE") m H)
    as (raw' & Hraw & _ & [Hs|(Hmovie & _)]).
  - change (jsstring_eqb (js "MOVIE") (js "MOVIE")) with true in Hraw.
    cbv beta iota in Hraw. congruence.
  - discriminate Hmovie.
Qed.

Lemma movie_match_has_similar_title_witness :
  similar_to Sample.node (js "Heat") SampleCatalog.heat_1995.
Proof.
  apply (movie_match_has_similar_title Sample.node [SampleCatalog.heat_1995]
           (SampleCatalog.movie (js "    ")) (js "Heat") SampleCatalog.heat_1995).
  - reflexivity.
  - vm_compute. reflexivity.
Defined.

Lemma find_none_weaken {A} (f g : A -> bool) l :
  (forall x, In x l -> f x = false) -> find (fun x => f x && g x) l = None.
Proof.
  intros H. induction l as [|x l IH]; [reflexivity|].
  cbn [find]. rewrite (H x (or_introl eq_refl)). cbn [andb].
  apply IH. intros y Hy. apply H. right. exact Hy.
Qed.

Lemma filter_nil {A} (f : A -> bool) l :
  (forall x, In x l -> f x = false) -> filter f l = [].
Proof.
  intros H. induction l as [|x l IH]; [reflexivity|].
  cbn [filter]. rewrite (H x (or_introl eq_refl)).
  apply IH. intros y Hy. apply H. right. exact Hy.
Qed.

(** X15. For a series (any type other than [MOVIE]) [findBestFlixHQMatch]
    returns null only when the search has no result of the type: as soon as
    there is one it returns a candidate, and when no result of the type
    resembles the TMDB name by its title, the candidate is the first result
    of the type. *)
Theorem series_match_or_first_result P results details type_ raw :
  jsstring_eqb type_ (js "MOVIE") = false ->
  Server.tmdb_name details = Some raw ->
  (relevantResults type_ results = [] ->
   Server.findBestFlixHQMatch P results details type_ = Return None) /\
  (forall first rest,
      relevantResults type_ results = first :: rest ->
      exists m,
        Server.findBestFlixHQMatch P results details type_ = Return (Some m) /\
        ((forall m', In m' results -> relevant type_ m' -> ~ similar_to P raw m') ->
         m = first)).
Proof.
  intros Hmovie Hname. unfold relevantResults. split.
  - intros Hrel. unfold Server.findBestFlixHQMatch. rewrite Hmovie.
    cbv beta iota. rewrite Hname, Hrel. reflexivity.
  - intros first rest Hrel.
    assert (Hfall : (forall m', In m' results -> relevant type_ m' ->
                                ~ similar_to P raw m') ->
                    Server.findBestFlixHQMatch P results details type_
                    = Return (Some first)).
    { intros Hnone.
      assert (Hsim : forall x, In x (first :: rest) ->
                 Server.isTitleSimilarEnough P (Server.title x) (toLowerCase P raw)
                 = false).
      { intros x Hx. rewrite <- Hrel in Hx.
        apply relevant_filter in Hx as (Hin & Hty).
        specialize (Hnone x Hin Hty). unfold similar_to in Hnone.
        destruct (Server.isTitleSimilarEnough P _ _); congruence. }
      unfold Server.findBestFlixHQMatch. rewrite Hmovie. cbv beta iota.
      rewrite Hname, Hrel.
      rewrite (filter_nil _ _ Hsim).
      destruct (Server.number_of_seasons details) as [n|].
      - rewrite (find_none_weaken _ _ _ Hsim).
        rewrite (find_none_weaken _ _ _ Hsim). reflexivity.
      - rewrite (find_none_weaken _ _ _ Hsim). reflexivity. }
    assert (Hsome : exists m,
               Server.findBestFlixHQMatch P results details type_
               = Return (Some m)).
    { unfold Server.findBestFlixHQMatch. rewrite Hmovie. cbv beta iota.
      rewrite Hname, Hrel. cbn [negb andb].
      destruct (Server.number_of_seasons details) as [n|].
      - match goal with
        | |- context [find ?f (first :: rest)] =>
            destruct (find f (first :: rest)) as [found|]
        end; [eexists; reflexivity|].
        destruct (filter _ (first :: rest)) as [|show0 shows];
          [|eexists; reflexivity].
        match goal with
        | |- context [find ?f (first :: rest)] =>
            destruct (find f (first :: rest)) as [exact|]
        end; eexists; reflexivity.
      - match goal with
        | |- context [find ?f (first :: rest)] =>
            destruct (find f (first :: rest)) as [exact|]
        end; [eexists; reflexivity|].
        destruct (filter _ (first :: rest)) as [|m0 ms]; [eexists; reflexivity|].
        destruct (Server.number_lt _ _); eexists; reflexivity. }
    destruct Hsome as (m & Hm). exists m. split; [exact Hm|].
    intros Hnone. rewrite (Hfall Hnone) in Hm. congruence.
Qed.

(** ** Numbers: the arithmetic of doubles on integers *)

Lemma double_infinity_pos : (2 ^ 53 < Double.infinity)%Z.
Proof. vm_compute. reflexivity. Qed.

(** Below [2 ^ 53] an integer is a double. *)
Lemma double_round_exact z : (Z.abs z < 2 ^ 53)%Z -> Double.round z = z.
Proof.
  intros H. unfold Double.round, Double.round_nat.
  replace (Z.abs z <? 2 ^ 53)%Z with true by (symmetry; apply Z.ltb_lt; exact H).
  lia.
Qed.

Lemma double_finite_small z : (Z.abs z < 2 ^ 53)%Z -> Double.infinite z = false.
Proof.
  intros H. unfold Double.infinite. apply Z.leb_gt.
  pose proof double_infinity_pos. lia.
Qed.

(** A difference is NaN only between two infinities. *)
Lemma double_sub_finite a n :
  Double.infinite n = false -> exists d, Double.sub a n = Some d.
Proof.
  intros Hn. unfold Double.sub. rewrite Hn.
  destruct (Double.infinite a); cbn [andb]; eauto.
Qed.

Lemma double_sub_same n : Double.infinite n = false -> Double.sub n n = Some 0%Z.
Proof.
  intros Hn. unfold Double.sub. rewrite Hn, Z.sub_diag. reflexivity.
Qed.

(** Between integers below [2 ^ 52] the difference is exact. *)
Lemma double_sub_exact a b :
  (Z.abs a < 2 ^ 52)%Z -> (Z.abs b < 2 ^ 52)%Z ->
  Double.sub a b = Some (a - b)%Z.
Proof.
  intros Ha Hb. unfold Double.sub.
  rewrite (double_finite_small a), (double_finite_small b) by lia.
  rewrite double_round_exact by lia. reflexivity.
Qed.

Lemma fold_left_ext {A B} (f g : A -> B -> A) :
  (forall a b, f a b = g a b) ->
  forall l x, fold_left f l x = fold_left g l x.
Proof.
  intros H. induction l as [|y l IH]; intros x; cbn [fold_left];
    [reflexivity|]. rewrite H. apply IH.
Qed.

(** The [reduce] of the matcher keeps an element that is nearest. *)
Lemma fold_left_nearest {A} (d : A -> Z) : forall l x y,
  In y (x :: l) ->
  (d (fold_left (fun closest current => if (d current <? d closest)%Z
                                        then current else closest) l x)
   <= d y)%Z.
Proof.
  induction l as [|z l IH]; intros x y Hy; cbn [fold_left].
  - destruct Hy as [<-|[]]. lia.
  - destruct (d z <? d x)%Z eqn:E.
    + apply Z.ltb_lt in E.
      destruct Hy as [<-|[<-|Hy]].
      * pose proof (IH z z (or_introl eq_refl)). lia.
      * apply IH. left. reflexivity.
      * apply IH. right. exact Hy.
    + apply Z.ltb_ge in E.
      destruct Hy as [<-|[<-|Hy]].
      * apply IH. left. reflexivity.
      * pose proof (IH x x (or_introl eq_refl)). lia.
      * apply IH. right. exact Hy.
Qed.

Lemma abs_diff_finite n a :
  Double.infinite n = false ->
  Server.abs_diff (Some a) (Some n) = Some (distance_to n a).
Proof.
  intros Hn. unfold Server.abs_diff, distance_to.
  destruct (double_sub_finite a n Hn) as (d & ->). reflexivity.
Qed.

Lemma distance_to_nonneg n a : (0 <= distance_to n a)%Z.
Proof. unfold distance_to. destruct (Double.sub a n); lia. Qed.

(** X16. For a series whose TMDB details give a number of seasons [n] (a
    null counting as 0), when some result of the type has a similar title,
    [findBestFlixHQMatch] returns a result of the type with a similar title
    whose season count (0 when missing) is nearest to [n] by the distance that
    the code computes, [Math.abs(seasons - n)] on doubles: no similar result
    of the type is nearer. Between counts below [2 ^ 52] that distance is the
    exact difference. *)
Theorem series_match_is_nearest_in_seasons P results details type_ raw x :
  jsstring_eqb type_ (js "MOVIE") = false ->
  Server.tmdb_name details = Some raw ->
  Server.number_of_seasons details = Some x ->
  Double.infinite (Server.to_number x) = false ->
  (exists m0, In m0 results /\ relevant type_ m0 /\ similar_to P raw m0) ->
  exists m d,
    Server.findBestFlixHQMatch P results details type_ = Return (Some m) /\
    In m results /\ relevant type_ m /\ similar_to P raw m /\
    season_distance (Server.to_number x) m = Some d /\
    (forall m',
        In m' results -> relevant type_ m' -> similar_to P raw m' ->
        exists d', season_distance (Server.to_number x) m' = Some d' /\
                   (d <= d')%Z) /\
    (forall m',
        (Z.abs (number_or_0 (Server.seasons m')) < 2 ^ 52)%Z ->
        (Z.abs (Server.to_number x) < 2 ^ 52)%Z ->
        season_distance (Server.to_number x) m'
        = Some (Z.abs (number_or_0 (Server.seasons m') - Server.to_number x))).
Proof.
  intros Hmovie Hname Hx Hfin (m0 & Hin0 & Hty0 & Hs0).
  set (n := Server.to_number x) in *.
  assert (Hexact : forall m',
             (Z.abs (number_or_0 (Server.seasons m')) < 2 ^ 52)%Z ->
             (Z.abs n < 2 ^ 52)%Z ->
             season_distance n m'
             = Some (Z.abs (number_or_0 (Server.seasons m') - n))).
  { intros m' Ha Hn. unfold season_distance, Server.abs_diff.
    rewrite (double_sub_exact _ _ Ha Hn). reflexivity. }
  assert (Hdist : forall m', season_distance n m'
                             = Some (distance_to n (number_or_0 (Server.seasons m')))).
  { intros m'. apply abs_diff_finite. exact Hfin. }
  unfold relevant, similar_to in *.
  unfold Server.findBestFlixHQMatch. rewrite Hmovie. cbv beta iota.
  rewrite Hname, Hx. fold n.
  set (rel := filter (fun m => jsstring_eqb (Server.type m) type_) results).
  set (sim := fun m => Server.isTitleSimilarEnough P (Server.title m)
                         (toLowerCase P raw)).
  assert (Hrel0 : In m0 rel) by (apply relevant_filter; auto).
  destruct rel as [|first rest] eqn:Hrel; [destruct Hrel0|].
  assert (Hall : forall y, In y (filter sim (first :: rest)) <->
                           In y results /\ Server.type y = type_ /\ sim y = true).
  { intros y. rewrite filter_In, <- Hrel. unfold rel. rewrite relevant_filter.
    tauto. }
  match goal with
  | |- context [find ?f (first :: rest)] =>
      destruct (find f (first :: rest)) as [found|] eqn:Hfind
  end.
  - apply find_some in Hfind as (Hin & Hf).
    apply andb_prop in Hf as (Hs & Hseasons).
    exists found, 0%Z. split; [reflexivity|].
    rewrite <- Hrel in Hin. apply relevant_filter in Hin as (Hin & Hty).
    assert (Hzero : season_distance n found = Some 0%Z).
    { unfold Server.same_count in Hseasons.
      destruct (Server.seasons found) as [k|] eqn:Hk; [|discriminate].
      destruct x as [|k']; [discriminate|].
      apply Z.eqb_eq in Hseasons. subst k'.
      unfold season_distance, Server.abs_diff. rewrite Hk. cbn [number_or_0].
      change (Server.to_number (Server.Number k)) with k in *. subst n.
      rewrite (double_sub_same k Hfin). reflexivity. }
    repeat split; try assumption.
    intros m' _ _ _. rewrite Hdist. eexists. split; [reflexivity|].
    apply distance_to_nonneg.
  - destruct (filter sim (first :: rest)) as [|show0 shows] eqn:Hf.
    + exfalso. apply (proj2 (Hall m0)); auto.
    + cbv zeta.
      rewrite (fold_left_ext _
                 (fun closest current =>
                    if (distance_to n (number_or_0 (Server.seasons current))
                        <? distance_to n (number_or_0 (Server.seasons closest)))%Z
                    then current else closest)).
      2:{ intros a b. rewrite !(abs_diff_finite n _ Hfin). reflexivity. }
      eexists. eexists. split; [reflexivity|].
      match goal with
      | |- In ?r _ /\ _ =>
          assert (Hr : In r (show0 :: shows))
            by (apply fold_left_choice_in; intros a b; destruct (_ <? _)%Z; auto)
      end.
      apply Hall in Hr as (Hin & Hty & Hs).
      split; [exact Hin|]. split; [exact Hty|]. split; [exact Hs|].
      split; [apply Hdist|]. split; [|exact Hexact].
      intros m' Hin' Hty' Hs'. rewrite Hdist. eexists. split; [reflexivity|].
      apply (fold_left_nearest
               (fun m => distance_to n (number_or_0 (Server.seasons m)))
               (show0 :: shows) show0 m').
      right. apply Hall. auto.
Qed.

(** ** Runs on the sample data *)

Lemma sample_secret_reaches_payload payload :
  reaches_payload (SampleSecret.world_of Sample.html_ok payload)
    SampleSecret.url (js "abc123") Sample.nonce48 payload.
Proof.
  exists Sample.html_ok. repeat split; vm_compute; reflexivity.
Qed.

Lemma LocalDecrypt_extract_decrypts_witness :
  run (LocalDecrypt.extract Sample.node
         (SampleSecret.world_of Sample.html_ok SampleSecret.payload_encrypted)
         Sample.embed_url) tt
  = (Return {| result_sources :=
                 [{| file := js "https://cdn/x.m3u8"; type := js "hls" |}];
               result_tracks :=
                 Some (captions_and_subtitles SampleSecret.payload_encrypted) |},
     [FetchPage (href SampleSecret.url);
      FetchSources (getSources_url (js "abc123") Sample.nonce48);
      FetchKeys; Decrypt "decryptLocally"]).
Proof.
  apply (LocalDecrypt_extract_decrypts Sample.node
           (SampleSecret.world_of Sample.html_ok SampleSecret.payload_encrypted)
           Sample.embed_url SampleSecret.url (js "abc123") Sample.nonce48
           SampleSecret.payload_encrypted SampleSecret.keys SampleSecret.secret
           (ascii_bytes "saltsalt") (ascii_bytes "https://cdn/x.m3u8")
           (js "https://cdn/x.m3u8")).
  - exact sample_primitives_ok.
  - reflexivity.
  - apply sample_secret_reaches_payload.
  - reflexivity.
  - reflexivity.
  - reflexivity.
  - reflexivity.
  - reflexivity.
  - discriminate.
  - vm_compute. reflexivity.
  - reflexivity.
Defined.

Lemma LocalDecrypt_fetches_keys_iff_flagged_witness :
  calls_key_provider
    (snd (run (LocalDecrypt.extract Sample.node
                 (Sample.world_of Sample.html_ok Sample.payload_flagged_string)
                 Sample.embed_url) tt))
  <-> truthy_flag (encrypted Sample.payload_flagged_string)
      && truthy_sources (sources Sample.payload_flagged_string) = true.
Proof.
  apply (LocalDecrypt_fetches_keys_iff_flagged Sample.node
           (Sample.world_of Sample.html_ok Sample.payload_flagged_string)
           Sample.embed_url
           {| href := Sample.embed_url;
              pathname := Sample.path_of Sample.embed_url |}
           (js "abc123") Sample.nonce48 Sample.payload_flagged_string).
  - exact sample_primitives_ok.
  - reflexivity.
  - apply sample_reaches_payload.
Defined.

Lemma LocalDecrypt_extract_fails_empty_witness :
  exists r trace,
    run (LocalDecrypt.extract Sample.node
           (Sample.world_of Sample.html_without_id Sample.payload_list)
           Sample.embed_url) tt = (Return r, trace) /\
    ((forall url fileId nonce data,
         new_URL Sample.node Sample.embed_url = Some url ->
         ~ reaches_payload
             (Sample.world_of Sample.html_without_id Sample.payload_list)
             url fileId nonce data) ->
     result_sources r = [] /\
     (result_tracks r = None \/ result_tracks r = Some [])).
Proof.
  apply (LocalDecrypt_extract_fails_empty Sample.node
           (Sample.world_of Sample.html_without_id Sample.payload_list)
           Sample.embed_url).
  exact sample_primitives_ok.
Defined.

Lemma LocalDecrypt_agrees_when_unflagged_witness :
  run (LocalDecrypt.extract Sample.node
         (Sample.world_of Sample.html_ok Sample.payload_plain_string)
         Sample.embed_url) tt
  = run (Extractors.extract Sample.node
           (Sample.world_of Sample.html_ok Sample.payload_plain_string)
           Sample.embed_url) tt.
Proof.
  apply (LocalDecrypt_agrees_when_unflagged Sample.node
           (Sample.world_of Sample.html_ok Sample.payload_plain_string)
           Sample.embed_url
           {| href := Sample.embed_url;
              pathname := Sample.path_of Sample.embed_url |}
           (js "abc123") Sample.nonce48 Sample.payload_plain_string).
  - reflexivity.
  - apply sample_reaches_payload.
  - reflexivity.
Defined.

Lemma SaltedOnly_extract_always_asks_witness :
  (exists r trace,
      run (SaltedOnly.extract Sample.node
             (Sample.world_of Sample.html_ok Sample.payload_list)
             (js "https://videostr.net/embed-1/v3/e-1/gone")) tt
      = (Return r, trace)) /\
  (forall url,
      new_URL Sample.node (js "https://videostr.net/embed-1/v3/e-1/gone")
      = Some url ->
      exists r api rest,
        run (SaltedOnly.extract Sample.node
               (Sample.world_of Sample.html_ok Sample.payload_list)
               (js "https://videostr.net/embed-1/v3/e-1/gone")) tt
        = (Return r, FetchPage (href url) :: FetchSources api :: rest) /\
        (embed_page (Sample.world_of Sample.html_ok Sample.payload_list)
           (href url) = None ->
         api = SaltedOnly_id_url url) /\
        (forall html,
            embed_page (Sample.world_of Sample.html_ok Sample.payload_list)
              (href url) = Some html ->
            no_run48 html -> api = SaltedOnly_id_url url) /\
        (forall html pre run post,
            embed_page (Sample.world_of Sample.html_ok Sample.payload_list)
              (href url) = Some html ->
            first_run48 html pre run post ->
            api = SaltedOnly_id_url url ++ js "&_k=" ++ run)).
Proof.
  apply (SaltedOnly_extract_always_asks Sample.node
           (Sample.world_of Sample.html_ok Sample.payload_list)
           (js "https://videostr.net/embed-1/v3/e-1/gone")).
  exact sample_primitives_ok.
Defined.

Lemma series_match_or_first_result_witness :
  (relevantResults (js "TV Series")
     [SampleCatalog.heat_2023; SampleCatalog.kitchen_wars] = [] ->
   Server.findBestFlixHQMatch Sample.node
     [SampleCatalog.heat_2023; SampleCatalog.kitchen_wars]
     SampleCatalog.series (js "TV Series") = Return None) /\
  (forall first rest,
      relevantResults (js "TV Series")
        [SampleCatalog.heat_2023; SampleCatalog.kitchen_wars] = first :: rest ->
      exists m,
        Server.findBestFlixHQMatch Sample.node
          [SampleCatalog.heat_2023; SampleCatalog.kitchen_wars]
          SampleCatalog.series (js "TV Series") = Return (Some m) /\
        ((forall m',
             In m' [SampleCatalog.heat_2023; SampleCatalog.kitchen_wars] ->
             relevant (js "TV Series") m' ->
             ~ similar_to Sample.node (js "Heat") m') ->
         m = first)).
Proof.
  apply (series_match_or_first_result Sample.node
           [SampleCatalog.heat_2023; SampleCatalog.kitchen_wars]
           SampleCatalog.series (js "TV Series") (js "Heat")).
  - reflexivity.
  - reflexivity.
Defined.

Lemma series_match_is_nearest_in_seasons_witness :
  exists m d,
    Server.findBestFlixHQMatch Sample.node
      [SampleCatalog.heat_2023; SampleCatalog.kitchen_wars;
       SampleShows.kitchen_wars_uk]
      SampleShows.kitchen_wars_details (js "TV Series") = Return (Some m) /\
    In m [SampleCatalog.heat_2023; SampleCatalog.kitchen_wars;
          SampleShows.kitchen_wars_uk] /\
    relevant (js "TV Series") m /\ similar_to Sample.node (js "Kitchen Wars") m /\
    season_distance (Server.to_number (Server.Number 4)) m = Some d /\
    (forall m',
        In m' [SampleCatalog.heat_2023; SampleCatalog.kitchen_wars;
               SampleShows.kitchen_wars_uk] ->
        relevant (js "TV Series") m' ->
        similar_to Sample.node (js "Kitchen Wars") m' ->
        exists d', season_distance (Server.to_number (Server.Number 4)) m'
                   = Some d' /\ (d <= d')%Z) /\
    (forall m',
        (Z.abs (number_or_0 (Server.seasons m')) < 2 ^ 52)%Z ->
        (Z.abs (Server.to_number (Server.Number 4)) < 2 ^ 52)%Z ->
        season_distance (Server.to_number (Server.Number 4)) m'
        = Some (Z.abs (number_or_0 (Server.seasons m')
                       - Server.to_number (Server.Number 4)))).
Proof.
  apply (series_match_is_nearest_in_seasons Sample.node
           [SampleCatalog.heat_2023; SampleCatalog.kitchen_wars;
            SampleShows.kitchen_wars_uk]
           SampleShows.kitchen_wars_details (js "TV Series") (js "Kitchen Wars")
           (Server.Number 4)).
  - reflexivity.
  - reflexivity.
  - reflexivity.
  - vm_compute. reflexivity.
  - exists SampleShows.kitchen_wars_uk. split; [cbn; auto|].
    split; vm_compute; reflexivity.
Defined.

Example series_nearest_season_count :
  Server.findBestFlixHQMatch Sample.node
    [SampleCatalog.heat_2023; SampleCatalog.kitchen_wars;
     SampleShows.kitchen_wars_uk]
    SampleShows.kitchen_wars_details (js "TV Series")
  = Return (Some SampleShows.kitchen_wars_uk).
Proof. vm_compute. reflexivity. Qed.

(** From [2 ^ 53] on the arithmetic rounds: [parseInt] gives the nearest
    double, and two season counts whose distances round to the same double
    are equally near, so that the first of them is kept. *)
Example double_round_ties_to_even :
  Double.round (2 ^ 53 + 1) = (2 ^ 53)%Z /\
  Double.round (2 ^ 53 + 2) = (2 ^ 53 + 2)%Z /\
  Double.round (2 ^ 53 + 3) = (2 ^ 53 + 4)%Z /\
  Double.round (2 ^ 54 + 2) = (2 ^ 54)%Z /\
  Double.round (- (2 ^ 54 + 6)) = (- (2 ^ 54 + 8))%Z /\
  Double.round (2 ^ 1024 - 2 ^ 970 - 1) = ((2 ^ 53 - 1) * 2 ^ 971)%Z /\
  Double.round (2 ^ 1024 - 2 ^ 970) = Double.infinity /\
  Double.sub Double.infinity 1 = Some Double.infinity /\
  Double.sub 1 Double.infinity = Some (- Double.infinity)%Z /\
  Double.sub Double.infinity Double.infinity = None.
Proof. repeat split; vm_compute; reflexivity. Qed.

Example parseInt_rounds :
  JsString.parseInt (js "9007199254740993") = Some 9007199254740992%Z /\
  JsString.parseInt (js "-9007199254740995") = Some (-9007199254740996)%Z /\
  JsString.parseInt (js "0x20000000000001") = Some 9007199254740992%Z /\
  JsString.parseInt (js "12px") = Some 12%Z /\
  JsString.parseInt (js "px") = None.
Proof. repeat split; vm_compute; reflexivity. Qed.

Example season_distance_rounds :
  season_distance 9007199254740994 SampleCatalog.kitchen_wars
  = Some 9007199254740992%Z /\
  season_distance 9007199254740994 SampleShows.kitchen_wars_uk
  = Some 9007199254740989%Z /\
  Server.abs_diff (Some 1%Z) (Some 9007199254740994%Z)
  = Server.abs_diff (Some 2%Z) (Some 9007199254740994%Z).
Proof. repeat split; vm_compute; reflexivity. Qed.

(** ** The URL that the decoding service returns *)

Lemma file_prefix_literal :
  map N_of_ascii (quote_char :: list_ascii_of_string "file"
                    ++ quote_char :: list_ascii_of_string ":" ++ [quote_char])
  = file_prefix.
Proof. reflexivity. Qed.

Lemma no_quote_before g : forall g1 g2,
  forallb CharClass.not_quote g = true -> g = g1 ++ g2 -> g2 <> [] ->
  exists c g2', g2 = c :: g2' /\ (c =? 34)%N = false.
Proof.
  intros g1 g2 Hq -> Hne. destruct g2 as [|c g2']; [congruence|].
  exists c, g2'. split; [reflexivity|].
  rewrite forallb_app in Hq. apply andb_prop in Hq as (_ & Hq).
  cbn [forallb] in Hq. apply andb_prop in Hq as (Hc & _).
  unfold CharClass.not_quote in Hc. apply negb_true_iff in Hc. exact Hc.
Qed.

Lemma match_here_file_inv b a m :
  match_here re_file (b, a) = Some m ->
  exists value post,
    a = file_prefix ++ value ++ [34%N] ++ post /\
    forallb CharClass.dot value = true /\
    forallb CharClass.not_quote value = true /\
    group m 1 = Some value.
Proof.
  unfold match_here, re_file. intros H.
  apply rmatch_literal_inv in H as (a1 & -> & H).
  rewrite file_prefix_literal in *.
  cbn [rmatch snd fst] in H.
  apply lazy_star_some in H as (g & rest & -> & Hg & Hk & Hmin).
  cbn [rmatch snd fst] in Hk.
  destruct rest as [|q rest]; [discriminate|].
  destruct (q =? 34)%N eqn:Eq; [|discriminate]. apply N.eqb_eq in Eq. subst q.
  injection Hk as <-.
  exists g, rest. split; [reflexivity|]. split; [exact Hg|]. split.
  - (* no quote inside: the star would have stopped there *)
    clear Hg. revert Hmin. generalize (rev file_prefix ++ b).
    generalize (@nil (nat * jsstring)).
    intros caps b0 Hmin.
    assert (H : forall g1 g2, g = g1 ++ g2 -> forallb CharClass.not_quote g2 = true).
    { intros g1 g2. revert g1. induction g2 as [|c g2 IH]; intros g1 E.
      - reflexivity.
      - cbn [forallb]. rewrite (IH (g1 ++ [c])) by (rewrite <- app_assoc; exact E).
        rewrite andb_true_r.
        specialize (Hmin g1 (c :: g2) E ltac:(discriminate)).
        cbn [app snd fst] in Hmin. unfold CharClass.not_quote.
        destruct (c =? 34)%N; [discriminate|reflexivity]. }
    exact (H [] g eq_refl).
  - unfold group. cbn [groups find fst snd Nat.eqb]. f_equal.
    apply (consumed_app_exact g (34%N :: rest)).
Qed.

Lemma match_here_file b value post :
  forallb CharClass.dot value = true ->
  forallb CharClass.not_quote value = true ->
  exists m, match_here re_file (b, file_prefix ++ value ++ [34%N] ++ post) = Some m
            /\ group m 1 = Some value.
Proof.
  intros Hd Hq. eexists. split.
  - unfold match_here, re_file. rewrite <- file_prefix_literal.
    rewrite rmatch_literal. rewrite file_prefix_literal.
    cbn [rmatch snd fst].
    rewrite lazy_star_skip; [|exact Hd|].
    + apply lazy_star_here. cbn [app rmatch snd fst N.eqb Pos.eqb]. reflexivity.
    + intros g1 g2 E Hne.
      destruct (no_quote_before value g1 g2 Hq E Hne) as (c & g2' & -> & Hc).
      cbn [app rmatch snd fst]. rewrite Hc. reflexivity.
  - unfold group. cbn [groups find fst snd Nat.eqb]. f_equal.
    apply (consumed_app_exact value (34%N :: post)).
Qed.

(** What [text.match(re_file)?.[1]] is: the value of the first member. *)
Lemma js_match_file_some text m :
  js_match text re_file = Some m ->
  exists pre value post,
    first_file_member text pre value post /\ group m 1 = Some value.
Proof.
  unfold js_match. intros Hm.
  destruct (search_some _ _ _ _ Hm) as (pre & suf & -> & Hh & Hmin).
  rewrite app_nil_r in Hh.
  destruct (match_here_file_inv _ _ _ Hh) as (v & post & -> & Hd & Hq & Hg).
  exists pre, v, post. split; [|exact Hg].
  split; [repeat split; assumption|].
  intros pre' v' post' (E & Hd' & Hq').
  destruct (Nat.le_gt_cases (length pre) (length pre')) as [|Hlt]; [assumption|].
  exfalso.
  destruct (app_split_length pre' (file_prefix ++ v' ++ [34%N] ++ post') pre
              (file_prefix ++ v ++ [34%N] ++ post)
              (eq_sym E) ltac:(lia)) as (mid & -> & E2).
  assert (Hmid : mid <> []).
  { intros ->. rewrite app_nil_r in Hlt. lia. }
  specialize (Hmin pre' mid eq_refl Hmid).
  rewrite app_nil_r, <- E2 in Hmin.
  destruct (match_here_file (rev pre') v' post' Hd' Hq') as (m' & Hm' & _).
  congruence.
Qed.

Lemma js_match_file_none text :
  js_match text re_file = None ->
  forall pre value post, ~ file_member_at text pre value post.
Proof.
  unfold js_match. intros H pre v post (-> & Hd & Hq).
  pose proof (search_none _ _ _ H pre _ eq_refl) as Hn.
  destruct (match_here_file (rev pre ++ []) v post Hd Hq) as (m & Hm & _).
  congruence.
Qed.

Lemma first_file_member_unique text pre value post pre' value' post' :
  first_file_member text pre value post ->
  first_file_member text pre' value' post' ->
  value = value'.
Proof.
  intros ((E & Hd & Hq) & F) ((E' & Hd' & Hq') & F').
  pose proof (F _ _ _ (conj E' (conj Hd' Hq'))).
  pose proof (F' _ _ _ (conj E (conj Hd Hq))).
  rewrite E in E'.
  destruct (app_eq_len _ _ _ _ E' ltac:(lia)) as (_ & E2).
  apply app_inv_head in E2.
  (* both values end at the first quote *)
  clear - E2 Hq Hq'. revert value' E2 Hq'.
  induction value as [|c v IH]; intros [|c' v'] E2 Hq'.
  - reflexivity.
  - cbn [app] in E2. injection E2 as <- _. discriminate Hq'.
  - cbn [app] in E2. injection E2 as -> _. discriminate Hq.
  - cbn [app] in E2. injection E2 as <- E2.
    cbn [forallb] in Hq, Hq'.
    apply andb_prop in Hq as (_ & Hq). apply andb_prop in Hq' as (_ & Hq').
    f_equal. apply IH; assumption.
Qed.

Lemma js_match_file_first text pre value post :
  first_file_member text pre value post ->
  exists m, js_match text re_file = Some m /\ group m 1 = Some value.
Proof.
  intros Hfirst. pose proof Hfirst as ((E & Hd & Hq) & _).
  destruct (match_here_file (rev pre ++ []) value post Hd Hq) as (m0 & Hm0 & _).
  destruct (search_reach _ _ _ _ _ Hm0) as (m & Hs).
  rewrite <- E in Hs. exists m. split; [exact Hs|].
  destruct (js_match_file_some _ _ Hs) as (p1 & v1 & q1 & F & Hg).
  rewrite (first_file_member_unique _ _ _ _ _ _ _ Hfirst F). exact Hg.
Qed.

(** X17. What [decryptWithGoogleScript] returns is the value of the first
    [file] member of the text that the decoding service answered: it is
    never empty and holds neither a double quote nor a line terminator. When
    the value of that first member is empty, the call throws and a later
    member is not looked at. *)
Theorem decryptWithGoogleScript_returns_first_file
        (S : Type) P w DECODE_URL encryptedData nonce secret (st : S) :
  (forall fileUrl st' trace,
      RemoteDecrypt.decryptWithGoogleScript P w DECODE_URL encryptedData nonce
        secret st = (Return fileUrl, st', trace) ->
      fileUrl <> [] /\
      exists text pre post,
        decoding_service w
          (RemoteDecrypt.decode_request P DECODE_URL encryptedData nonce secret)
        = Some (DataText text) /\
        first_file_member text pre fileUrl post) /\
  (forall text pre value post,
      decoding_service w
        (RemoteDecrypt.decode_request P DECODE_URL encryptedData nonce secret)
      = Some (DataText text) ->
      first_file_member text pre value post ->
      RemoteDecrypt.decryptWithGoogleScript P w DECODE_URL encryptedData nonce
        secret st
      = (match value with
         | [] => Throw "Video URL not found in decrypted response"
         | _ :: _ => Return value
         end, st, [Decrypt "decryptWithGoogleScript"])).
Proof.
  unfold RemoteDecrypt.decryptWithGoogleScript. split.
  - intros fileUrl st' trace. run_effects.
    destruct (decoding_service w _) as [[text|]|] eqn:Hreq; run_effects;
      try discriminate.
    destruct (js_match text re_file) as [m|] eqn:Hm; run_effects;
      [|discriminate].
    destruct (group m 1) as [[|c u]|] eqn:Hg; run_effects; try discriminate.
    intros H. injection H as <- _ _. split; [discriminate|].
    destruct (js_match_file_some _ _ Hm) as (pre & v & post & F & Hg').
    exists text, pre, post. split; [reflexivity|].
    assert (v = c :: u) by congruence. subst v. exact F.
  - intros text pre value post Hreq Hfirst. run_effects. rewrite Hreq.
    run_effects.
    destruct (js_match_file_first _ _ _ _ Hfirst) as (m & Hm & Hg).
    rewrite Hm, Hg. destruct value; run_effects; reflexivity.
Qed.

(** ** The resolvers with the decoding service *)

Lemma decryptWithGoogleScript_outcome
      (S : Type) P w DECODE_URL encryptedData nonce secret (st : S) :
  (exists fileUrl,
      RemoteDecrypt.decryptWithGoogleScript P w DECODE_URL encryptedData nonce
        secret st = (Return fileUrl, st, [Decrypt "decryptWithGoogleScript"])) \/
  (exists e,
      RemoteDecrypt.decryptWithGoogleScript P w DECODE_URL encryptedData nonce
        secret st = (Throw e, st, [Decrypt "decryptWithGoogleScript"])).
Proof.
  unfold RemoteDecrypt.decryptWithGoogleScript. run_effects.
  destruct (decoding_service w _) as [[text|]|]; run_effects; eauto.
  destruct (js_match text re_file) as [m|]; run_effects; eauto.
  destruct (group m 1) as [[|c u]|]; run_effects; eauto.
Qed.

Lemma RemoteByFlag_extract2_returns P w url :
  exists d trace, RemoteByFlag.extract2 P w url tt = (Return d, tt, trace).
Proof.
  unfold RemoteByFlag.extract2. run_effects.
  destruct (embed_page (network w) (href url)) as [html|]; run_effects;
    [|eexists _, _; reflexivity].
  destruct (file_id html) as [[|c0 f]|]; run_effects;
    try (eexists _, _; reflexivity).
  destruct (extractNonce html) as [[|c n]|]; run_effects;
    try (eexists _, _; reflexivity).
  destruct (getSources (network w) _) as [[data|]|]; run_effects;
    try (eexists _, _; reflexivity).
  destruct (truthy_flag (encrypted data) && truthy_sources (sources data));
    run_effects.
  - destruct (key_file (network w)) as [keyData|]; run_effects;
      [|eexists _, _; reflexivity].
    destruct (vidstr keyData) as [[|k ks]|]; run_effects;
      try (eexists _, _; reflexivity).
    destruct (decryptWithGoogleScript_outcome ExtractedData P w
                RemoteByFlag.DECODE_URL (as_encoded (sources data)) (c :: n)
                (k :: ks) ExtractedData_init) as [(u & ->)|(e & ->)];
      run_effects; eexists _, _; reflexivity.
  - destruct (sources data); run_effects; eexists _, _; reflexivity.
Qed.

Lemma RemoteByShape_extract2_returns P w url :
  exists d trace, RemoteByShape.extract2 P w url tt = (Return d, tt, trace).
Proof.
  unfold RemoteByShape.extract2. run_effects.
  destruct (embed_page (network w) (href url)) as [html|]; run_effects;
    [|eexists _, _; reflexivity].
  destruct (extractNonce html) as [[|c n]|]; run_effects; cbn [negb]; run_effects;
    try (eexists _, _; reflexivity).
  destruct (getSources (network w) _) as [[data|]|]; run_effects;
    try (eexists _, _; reflexivity).
  destruct (sources data) as [str|l|]; run_effects;
    try (eexists _, _; reflexivity).
  destruct (JsString.includes str (js ".m3u8")); run_effects;
    [eexists _, _; reflexivity|].
  destruct (key_file (network w)) as [keyData|]; run_effects;
    [|eexists _, _; reflexivity].
  destruct (vidstr keyData) as [[|k ks]|]; run_effects;
    try (eexists _, _; reflexivity).
  destruct (decryptWithGoogleScript_outcome ExtractedData P w
              RemoteByShape.DECODE_URL (EncodedString str) (c :: n)
              (k :: ks) ExtractedData_init) as [(u & ->)|(e & ->)];
    run_effects; eexists _, _; reflexivity.
Qed.

(** X18. The two resolvers that decrypt through the decoding service return
    on every URL and every network: no failure of the page, of the sources
    endpoint, of the key document or of the decoding service reaches the
    caller of [MegaCloud.extract] as an exception. *)
Theorem remote_resolvers_never_throw P w s :
  (exists r trace, run (RemoteByFlag.extract P w s) tt = (Return r, trace)) /\
  (exists r trace, run (RemoteByShape.extract P w s) tt = (Return r, trace)).
Proof.
  split.
  - unfold RemoteByFlag.extract.
    destruct (new_URL P s) as [url|]; run_effects; [|eexists _, _; reflexivity].
    destruct (RemoteByFlag_extract2_returns P w url) as (d & trace & ->).
    run_effects. eexists _, _. reflexivity.
  - unfold RemoteByShape.extract.
    destruct (new_URL P s) as [url|]; run_effects; [|eexists _, _; reflexivity].
    destruct (RemoteByShape_extract2_returns P w url) as (d & trace & ->).
    run_effects. eexists _, _. reflexivity.
Qed.

(** X19. Without a nonce the resolver that goes by the shape of the payload
    stops after the page request: when the embed page cannot be fetched or
    holds no nonce, it returns an empty result and asks neither the sources
    endpoint nor the key document nor the decoding service. *)
Theorem RemoteByShape_stops_without_nonce P w s url :
  new_URL P s = Some url ->
  match embed_page (network w) (href url) with
  | Some html => extractNonce html = None
  | None => True
  end ->
  run (RemoteByShape.extract P w s) tt
  = (Return {| result_sources := []; result_tracks := Some [] |},
     [FetchPage (href url)]).
Proof.
  intros Hurl Hpage. unfold RemoteByShape.extract. rewrite Hurl. run_effects.
  unfold RemoteByShape.extract2. run_effects.
  destruct (embed_page (network w) (href url)) as [html|]; run_effects.
  - rewrite Hpage. run_effects. reflexivity.
  - reflexivity.
Qed.

(** X20. A string payload that contains [.m3u8] is taken by the resolver
    that goes by the shape of the payload as the URL itself, whatever its
    [encrypted] flag: one [hls] source, after the page and the sources
    requests only. *)
Theorem RemoteByShape_m3u8_string_passes_through P w s url nonce data str :
  new_URL P s = Some url ->
  reaches_payload_by_id (network w) url nonce data ->
  sources data = SourcesString str ->
  JsString.includes str (js ".m3u8") = true ->
  run (RemoteByShape.extract P w s) tt
  = (Return {| result_sources := [{| file := str; type := js "hls" |}];
               result_tracks := Some (captions_and_subtitles data) |},
     [FetchPage (href url);
      FetchSources (getSources_url (RemoteByShape.id_of url) nonce)]).
Proof.
  intros Hurl (html & Hpage & Hnonce & Hdata) Hsrc Hm3u8.
  destruct (nonce_not_empty _ _ Hnonce) as (c & n & ->).
  unfold RemoteByShape.extract. rewrite Hurl. run_effects.
  unfold RemoteByShape.extract2. run_effects.
  rewrite Hpage. run_effects. rewrite Hnonce. run_effects.
  cbn [negb]. run_effects.
  rewrite Hdata. run_effects. rewrite Hsrc. run_effects.
  rewrite Hm3u8. run_effects. reflexivity.
Qed.

(** X21. On a payload that is not flagged as encrypted, or whose [sources]
    are falsy, the resolver that sends flagged payloads to the decoding
    service does what the resolver with local decryption does: the same
    result after the same requests. The two differ in how they decrypt and
    in nothing else. *)
Theorem RemoteByFlag_agrees_when_unflagged P w s url fileId nonce data :
  new_URL P s = Some url ->
  reaches_payload (network w) url fileId nonce data ->
  truthy_flag (encrypted data) && truthy_sources (sources data) = false ->
  run (RemoteByFlag.extract P w s) tt
  = run (LocalDecrypt.extract P (network w) s) tt.
Proof.
  intros Hurl Hreach Hflag.
  unfold LocalDecrypt.extract, RemoteByFlag.extract. rewrite Hurl. run_effects.
  rewrite (LocalDecrypt_extract2_unflagged P (network w) url fileId nonce data
             Hreach Hflag).
  destruct Hreach as (html & Hpage & Hid & Hnonce & Hdata).
  destruct (nonce_not_empty _ _ Hnonce) as (c & n & ->).
  pose proof (file_id_not_empty _ _ Hid) as Hne.
  destruct fileId as [|c0 f]; [congruence|].
  unfold RemoteByFlag.extract2. run_effects.
  rewrite Hpage. run_effects. rewrite Hid. run_effects.
  rewrite Hnonce. run_effects. rewrite Hdata. run_effects.
  rewrite Hflag. run_effects.
  destruct (sources data); run_effects; reflexivity.
Qed.

Lemma RemoteByShape_stops_without_nonce_witness :
  run (RemoteByShape.extract Sample.node
         (SampleRemote.world_of Sample.html_without_id Sample.payload_list)
         Sample.embed_url) tt
  = (Return {| result_sources := []; result_tracks := Some [] |},
     [FetchPage (href SampleSecret.url)]).
Proof.
  apply (RemoteByShape_stops_without_nonce Sample.node
           (SampleRemote.world_of Sample.html_without_id Sample.payload_list)
           Sample.embed_url SampleSecret.url).
  - reflexivity.
  - vm_compute. reflexivity.
Defined.

Lemma RemoteByShape_m3u8_string_passes_through_witness :
  run (RemoteByShape.extract Sample.node
         (SampleRemote.world_of Sample.html_ok Sample.payload_plain_string)
         Sample.embed_url) tt
  = (Return {| result_sources :=
                 [{| file := js "https://cdn/x.m3u8"; type := js "hls" |}];
               result_tracks :=
                 Some (captions_and_subtitles Sample.payload_plain_string) |},
     [FetchPage (href SampleSecret.url);
      FetchSources (getSources_url (RemoteByShape.id_of SampleSecret.url)
                      Sample.nonce48)]).
Proof.
  apply (RemoteByShape_m3u8_string_passes_through Sample.node
           (SampleRemote.world_of Sample.html_ok Sample.payload_plain_string)
           Sample.embed_url SampleSecret.url Sample.nonce48
           Sample.payload_plain_string (js "https://cdn/x.m3u8")).
  - reflexivity.
  - exists Sample.html_ok. repeat split; vm_compute; reflexivity.
  - reflexivity.
  - vm_compute. reflexivity.
Defined.

Lemma RemoteByFlag_agrees_when_unflagged_witness :
  run (RemoteByFlag.extract Sample.node
         (SampleRemote.world_of Sample.html_ok Sample.payload_plain_string)
         Sample.embed_url) tt
  = run (LocalDecrypt.extract Sample.node
           (network (SampleRemote.world_of Sample.html_ok
                       Sample.payload_plain_string))
           Sample.embed_url) tt.
Proof.
  apply (RemoteByFlag_agrees_when_unflagged Sample.node
           (SampleRemote.world_of Sample.html_ok Sample.payload_plain_string)
           Sample.embed_url SampleSecret.url (js "abc123") Sample.nonce48
           Sample.payload_plain_string).
  - reflexivity.
  - apply sample_secret_reaches_payload.
  - reflexivity.
Defined.

(** A flagged payload goes to the decoding service, and the first [file]
    member of the answer is the source. *)
Example RemoteByFlag_decodes :
  run (RemoteByFlag.extract Sample.node
         (SampleRemote.world_of Sample.html_ok SampleRemote.payload_opaque)
         Sample.embed_url) tt
  = (Return {| result_sources :=
                 [{| file := js "https://cdn/x.m3u8"; type := js "hls" |}];
               result_tracks := Some [Sample.captions_en] |},
     [FetchPage Sample.embed_url;
      FetchSources (getSources_url (js "abc123") Sample.nonce48);
      FetchKeys; Decrypt "decryptWithGoogleScript"]).
Proof. vm_compute. reflexivity. Qed.

(** The resolver that goes by the shape does the same without the flag. *)
Example RemoteByShape_decodes :
  run (RemoteByShape.extract Sample.node
         (SampleRemote.world_of Sample.html_ok SampleRemote.payload_opaque)
         Sample.embed_url) tt
  = (Return {| result_sources :=
                 [{| file := js "https://cdn/x.m3u8"; type := js "hls" |}];
               result_tracks := Some [Sample.captions_en] |},
     [FetchPage Sample.embed_url;
      FetchSources (getSources_url (js "abc123") Sample.nonce48);
      FetchKeys; Decrypt "decryptWithGoogleScript"]).
Proof. vm_compute. reflexivity. Qed.

(** The request to the decoding service, with its three parameters. *)
Example decode_request_sample :
  RemoteDecrypt.decode_request Sample.node (js "https://decode/exec")
    (EncodedString (js "a+b/c=")) (js "n0nce") (js "s3 cret")
  = js "https://decode/exec?encrypted_data=a%2Bb%2Fc%3D&nonce=n0nce&secret=s3+cret".
Proof. vm_compute. reflexivity. Qed.

(** An empty first value is not passed over for a later one. *)
Example decryptWithGoogleScript_empty_first :
  RemoteDecrypt.decryptWithGoogleScript Sample.node
    {| network := Sample.world_of Sample.html_ok Sample.payload_list;
       decoding_service :=
         fun _ => Some (DataText (file_prefix ++ [34%N] ++ js ","
                                    ++ file_prefix ++ js "https://cdn/x.m3u8"
                                    ++ [34%N])) |}
    RemoteByFlag.DECODE_URL (EncodedString (js "b3BhcXVl")) Sample.nonce48
    (js "s3cret") tt
  = (Throw "Video URL not found in decrypted response", tt,
     [Decrypt "decryptWithGoogleScript"]).
Proof. vm_compute. reflexivity. Qed.

(** ** The map behind the memory cache *)

Lemma jsstring_eqb_refl a : jsstring_eqb a a = true.
Proof. apply jsstring_eqb_eq. reflexivity. Qed.

Lemma jsstring_eqb_neq a b : a <> b -> jsstring_eqb a b = false.
Proof.
  intros H. destruct (jsstring_eqb a b) eqn:E; [|reflexivity].
  apply jsstring_eqb_eq in E. contradiction.
Qed.

Lemma JsMap_get_set_same {V} key (v : V) m :
  JsMap.get key (JsMap.set key v m) = Some v.
Proof.
  induction m as [|(k, x) m IH]; cbn [JsMap.set JsMap.get].
  - rewrite jsstring_eqb_refl. reflexivity.
  - destruct (jsstring_eqb k key) eqn:E; cbn [JsMap.get]; rewrite E;
      [reflexivity|exact IH].
Qed.

Lemma JsMap_get_set_other {V} key k (v : V) m :
  k <> key -> JsMap.get k (JsMap.set key v m) = JsMap.get k m.
Proof.
  intros Hne. induction m as [|(k0, x) m IH]; cbn [JsMap.set JsMap.get].
  - rewrite jsstring_eqb_neq by congruence. reflexivity.
  - destruct (jsstring_eqb k0 key) eqn:E; cbn [JsMap.get].
    + apply jsstring_eqb_eq in E. subst k0.
      rewrite jsstring_eqb_neq by congruence. reflexivity.
    + destruct (jsstring_eqb k0 k); [reflexivity|exact IH].
Qed.

Lemma JsMap_get_delete_same {V} key (m : JsMap.t V) :
  JsMap.get key (JsMap.delete key m) = None.
Proof.
  induction m as [|(k, x) m IH]; cbn [JsMap.delete JsMap.get].
  - reflexivity.
  - destruct (jsstring_eqb k key) eqn:E; [exact IH|].
    cbn [JsMap.get]. rewrite E. exact IH.
Qed.

Lemma JsMap_get_delete_other {V} key k (m : JsMap.t V) :
  k <> key -> JsMap.get k (JsMap.delete key m) = JsMap.get k m.
Proof.
  intros Hne. induction m as [|(k0, x) m IH]; cbn [JsMap.delete JsMap.get].
  - reflexivity.
  - destruct (jsstring_eqb k0 key) eqn:E.
    + apply jsstring_eqb_eq in E. subst k0.
      rewrite jsstring_eqb_neq by congruence. exact IH.
    + cbn [JsMap.get]. destruct (jsstring_eqb k0 k); [reflexivity|exact IH].
Qed.

(** ** The memory cache *)

Section CacheFacts.

Variable W : Type.
Variable Redis : Type.
Variable JSON_stringify : Cache.cached_value -> option jsstring.
Variable P : primitives.
Variable cacheUtils : Cache.cacheUtils_module W Redis.


Lemma cacheGet_memory key (st : Cache.state W) :
  Cache.cacheGet P cacheUtils None key st
  = match JsMap.get key (Cache.memoryCache st) with
    | None => (Return (Some JNull), st, [])
    | Some cached =>
        if (Cache.expiresAt cached <? Cache.now st)%Z
        then (Return (Some JNull),
              Cache.set_memoryCache (JsMap.delete key (Cache.memoryCache st)) st,
              [])
        else (parsed_entry P cached, st, [])
    end.
Proof.
  unfold Cache.cacheGet, Cache.parse_entry, parsed_entry. run_effects.
  destruct (JsMap.get key (Cache.memoryCache st)) as [cached|]; [|reflexivity].
  destruct (Cache.expiresAt cached <? Cache.now st)%Z; run_effects;
    [reflexivity|].
  destruct (Cache.value cached) as [text|]; run_effects; [|reflexivity].
  destruct (JSON_parse P text); reflexivity.
Qed.

Lemma cacheSet_memory key v ttl (st : Cache.state W) :
  Cache.cacheSet JSON_stringify cacheUtils None key v ttl st
  = (Return v,
     Cache.set_memoryCache
       (JsMap.set key {| Cache.value := JSON_stringify v;
                         Cache.expiresAt := Cache.now st + ttl * 1000 |}
                  (Cache.memoryCache st)) st,
     []).
Proof. reflexivity. Qed.

(** X22. In the memory cache, what [cacheSet] stores under a key is what
    [cacheGet] returns for that key (the JSON text of the value, parsed
    again) as long as the clock has not passed the expiry, the instant of
    expiry included; after it, [cacheGet] returns null and removes the
    entry. A value without JSON text makes [cacheGet] throw until then. *)
Theorem cacheSet_then_cacheGet key v ttl (st st' : Cache.state W) :
  Cache.memoryCache st'
  = Cache.memoryCache
      (snd (fst (Cache.cacheSet JSON_stringify cacheUtils None key v ttl st))) ->
  fst (fst (Cache.cacheSet JSON_stringify cacheUtils None key v ttl st)) = Return v /\
  ((Cache.now st' <= Cache.now st + ttl * 1000)%Z ->
   Cache.cacheGet P cacheUtils None key st'
   = (match JSON_stringify v with
      | Some text =>
          match JSON_parse P text with
          | Some v' => Return (Some v')
          | None => Throw "SyntaxError"
          end
      | None => Throw "SyntaxError"
      end, st', [])) /\
  ((Cache.now st + ttl * 1000 < Cache.now st')%Z ->
   exists st'',
     Cache.cacheGet P cacheUtils None key st' = (Return (Some JNull), st'', []) /\
     JsMap.get key (Cache.memoryCache st'') = None /\
     forall k, k <> key ->
               JsMap.get k (Cache.memoryCache st'')
               = JsMap.get k (Cache.memoryCache st')).
Proof.
  rewrite cacheSet_memory. cbn [fst snd Cache.memoryCache Cache.set_memoryCache].
  intros Hmem. split; [reflexivity|].
  rewrite cacheGet_memory, Hmem, JsMap_get_set_same.
  cbn [Cache.expiresAt]. split.
  - intros Hle.
    replace (Cache.now st + ttl * 1000 <? Cache.now st')%Z with false
      by (symmetry; apply Z.ltb_ge; exact Hle).
    reflexivity.
  - intros Hlt.
    replace (Cache.now st + ttl * 1000 <? Cache.now st')%Z with true
      by (symmetry; apply Z.ltb_lt; exact Hlt).
    eexists. split; [reflexivity|].
    cbn [Cache.memoryCache Cache.set_memoryCache]. split.
    + apply JsMap_get_delete_same.
    + intros k Hk. rewrite JsMap_get_delete_other by exact Hk.
      reflexivity.
Qed.

Lemma cacheFetch_memory key fetcher ttl (st : Cache.state W) :
  Cache.cacheFetch JSON_stringify P cacheUtils None key fetcher ttl st
  = match Cache.cacheGet P cacheUtils None key st with
    | (Return (Some JNull), st0, trace) =>
        match store_fetched JSON_stringify key ttl (fetcher st0) with
        | (r, st1, trace') => (r, st1, trace ++ trace')
        end
    | (Return cached, st0, trace) => (Return cached, st0, trace ++ [])
    | (Throw e, st0, trace) => (Throw e, st0, trace)
    | (Diverge, st0, trace) => (Diverge, st0, trace)
    end.
Proof.
  unfold Cache.cacheFetch. unfold bind at 1.
  destruct (Cache.cacheGet P cacheUtils None key st) as ((o, st0), trace).
  destruct o as [[[| | | | |]|]| |]; try reflexivity.
  unfold bind. destruct (fetcher st0) as ((o, st1), trace').
  destruct o; cbn [store_fetched]; try reflexivity.
  rewrite cacheSet_memory. unfold ret. rewrite !app_nil_r. reflexivity.
Qed.

(** A key that is absent: the fetcher runs on the state as it is. *)
Lemma cacheFetch_absent key fetcher ttl (st : Cache.state W) :
  JsMap.get key (Cache.memoryCache st) = None ->
  Cache.cacheFetch JSON_stringify P cacheUtils None key fetcher ttl st
  = store_fetched JSON_stringify key ttl (fetcher st).
Proof.
  intros Habsent. rewrite cacheFetch_memory, cacheGet_memory, Habsent.
  destruct (store_fetched _ _ _ _) as ((r, st1), trace'). reflexivity.
Qed.

(** X23. With the memory cache, [cacheFetch] serves a fresh entry without
    calling the fetcher, whatever the fetcher is; when the key is absent, or
    its entry has expired (it is then removed), or the entry holds null, it
    calls the fetcher once, stores what the fetcher resolved to with the
    expiry counted from the clock after the fetch, and returns it; when the
    fetcher fails, the failure passes to the caller and nothing is stored. *)
Theorem cacheFetch_hit_or_fetch key fetcher ttl (st : Cache.state W) :
  (forall cached v,
      fresh_entry st key cached ->
      parsed_entry P cached = Return (Some v) -> v <> JNull ->
      Cache.cacheFetch JSON_stringify P cacheUtils None key fetcher ttl st
      = (Return (Some v), st, [])) /\
  (JsMap.get key (Cache.memoryCache st) = None ->
   Cache.cacheFetch JSON_stringify P cacheUtils None key fetcher ttl st
   = store_fetched JSON_stringify key ttl (fetcher st)) /\
  (forall cached,
      fresh_entry st key cached ->
      parsed_entry P cached = Return (Some JNull) ->
      Cache.cacheFetch JSON_stringify P cacheUtils None key fetcher ttl st
      = store_fetched JSON_stringify key ttl (fetcher st)) /\
  (forall cached,
      JsMap.get key (Cache.memoryCache st) = Some cached ->
      (Cache.expiresAt cached < Cache.now st)%Z ->
      Cache.cacheFetch JSON_stringify P cacheUtils None key fetcher ttl st
      = store_fetched JSON_stringify key ttl
          (fetcher (Cache.set_memoryCache
                      (JsMap.delete key (Cache.memoryCache st)) st))).
Proof.
  rewrite cacheFetch_memory, cacheGet_memory.
  split; [|split; [|split]].
  - intros cached v (Hget & Hfresh) Hparse Hv. rewrite Hget.
    replace (Cache.expiresAt cached <? Cache.now st)%Z with false
      by (symmetry; apply Z.ltb_ge; exact Hfresh).
    rewrite Hparse. destruct v; try reflexivity. congruence.
  - intros ->. destruct (store_fetched _ _ _ _) as ((r, st1), trace').
    reflexivity.
  - intros cached (Hget & Hfresh) Hparse. rewrite Hget.
    replace (Cache.expiresAt cached <? Cache.now st)%Z with false
      by (symmetry; apply Z.ltb_ge; exact Hfresh).
    rewrite Hparse. destruct (store_fetched _ _ _ _) as ((r, st1), trace').
    reflexivity.
  - intros cached Hget Hexp. rewrite Hget.
    replace (Cache.expiresAt cached <? Cache.now st)%Z with true
      by (symmetry; apply Z.ltb_lt; exact Hexp).
    destruct (store_fetched _ _ _ _) as ((r, st1), trace'). reflexivity.
Qed.

(** X24. A fetcher that resolves to a value without JSON text (as
    [undefined], for which [JSON.stringify] returns [undefined]) leaves an
    entry that cannot be read: until that entry expires, every [cacheFetch]
    of the key throws a [SyntaxError] and calls no fetcher. *)
Theorem cacheFetch_unreadable_entry key fetcher ttl (st st1 st2 : Cache.state W)
        v trace :
  JsMap.get key (Cache.memoryCache st) = None ->
  fetcher st = (Return v, st1, trace) ->
  JSON_stringify v = None ->
  Cache.memoryCache st2
  = Cache.memoryCache
      (snd (fst (Cache.cacheFetch JSON_stringify P cacheUtils None key fetcher
                   ttl st))) ->
  (Cache.now st2 <= Cache.now st1 + ttl * 1000)%Z ->
  fst (fst (Cache.cacheFetch JSON_stringify P cacheUtils None key fetcher ttl st))
  = Return v /\
  forall fetcher' ttl',
    Cache.cacheFetch JSON_stringify P cacheUtils None key fetcher' ttl' st2
    = (Throw "SyntaxError", st2, []).
Proof.
  intros Habsent Hfetch Hundef Hmem Hfresh.
  rewrite (cacheFetch_absent key fetcher ttl st Habsent) in *.
  rewrite Hfetch in *.
  cbn [store_fetched fst snd Cache.memoryCache Cache.set_memoryCache] in *.
  split; [reflexivity|].
  intros fetcher' ttl'. rewrite cacheFetch_memory, cacheGet_memory, Hmem.
  rewrite JsMap_get_set_same. cbn [Cache.expiresAt].
  replace (Cache.now st1 + ttl * 1000 <? Cache.now st2)%Z with false
    by (symmetry; apply Z.ltb_ge; exact Hfresh).
  unfold parsed_entry. cbn [Cache.value]. rewrite Hundef. reflexivity.
Qed.

End CacheFacts.

Lemma cacheSet_then_cacheGet_witness :
  fst (fst (Cache.cacheSet SampleCache.stringify SampleCache.no_redis None
              SampleCache.key (Some (JString (js "Fight Club"))) 43200
              (SampleCache.empty 1000)))
  = Return (Some (JString (js "Fight Club"))) /\
  ((Cache.now
      (SampleCache.later 43200000
         (snd (fst (Cache.cacheSet SampleCache.stringify SampleCache.no_redis None
                      SampleCache.key (Some (JString (js "Fight Club"))) 43200
                      (SampleCache.empty 1000)))))
    <= Cache.now (SampleCache.empty 1000) + 43200 * 1000)%Z ->
   Cache.cacheGet SampleCache.node SampleCache.no_redis None SampleCache.key
     (SampleCache.later 43200000
        (snd (fst (Cache.cacheSet SampleCache.stringify SampleCache.no_redis None
                     SampleCache.key (Some (JString (js "Fight Club"))) 43200
                     (SampleCache.empty 1000)))))
   = (match SampleCache.stringify (Some (JString (js "Fight Club"))) with
      | Some text =>
          match JSON_parse SampleCache.node text with
          | Some v' => Return (Some v')
          | None => Throw "SyntaxError"
          end
      | None => Throw "SyntaxError"
      end,
      SampleCache.later 43200000
        (snd (fst (Cache.cacheSet SampleCache.stringify SampleCache.no_redis None
                     SampleCache.key (Some (JString (js "Fight Club"))) 43200
                     (SampleCache.empty 1000)))),
      [])) /\
  ((Cache.now (SampleCache.empty 1000) + 43200 * 1000
    < Cache.now
        (SampleCache.later 43200000
           (snd (fst (Cache.cacheSet SampleCache.stringify SampleCache.no_redis None
                        SampleCache.key (Some (JString (js "Fight Club"))) 43200
                        (SampleCache.empty 1000))))))%Z ->
   exists st'',
     Cache.cacheGet SampleCache.node SampleCache.no_redis None SampleCache.key
       (SampleCache.later 43200000
          (snd (fst (Cache.cacheSet SampleCache.stringify SampleCache.no_redis None
                       SampleCache.key (Some (JString (js "Fight Club"))) 43200
                       (SampleCache.empty 1000)))))
     = (Return (Some JNull), st'', []) /\
     JsMap.get SampleCache.key (Cache.memoryCache st'') = None /\
     forall k, k <> SampleCache.key ->
               JsMap.get k (Cache.memoryCache st'')
               = JsMap.get k
                   (Cache.memoryCache
                      (SampleCache.later 43200000
                         (snd (fst (Cache.cacheSet SampleCache.stringify
                                      SampleCache.no_redis None SampleCache.key
                                      (Some (JString (js "Fight Club"))) 43200
                                      (SampleCache.empty 1000))))))).
Proof.
  apply (cacheSet_then_cacheGet unit unit SampleCache.stringify SampleCache.node
           SampleCache.no_redis SampleCache.key
           (Some (JString (js "Fight Club"))) 43200 (SampleCache.empty 1000)).
  reflexivity.
Defined.

Lemma cacheFetch_unreadable_entry_witness :
  fst (fst (Cache.cacheFetch SampleCache.stringify SampleCache.node
              SampleCache.no_redis None SampleCache.key (ret None) 1800
              (SampleCache.empty 1000)))
  = Return None /\
  forall fetcher' ttl',
    Cache.cacheFetch SampleCache.stringify SampleCache.node SampleCache.no_redis
      None SampleCache.key fetcher' ttl'
      (SampleCache.later 60000
         (snd (fst (Cache.cacheFetch SampleCache.stringify SampleCache.node
                      SampleCache.no_redis None SampleCache.key (ret None) 1800
                      (SampleCache.empty 1000)))))
    = (Throw "SyntaxError",
       SampleCache.later 60000
         (snd (fst (Cache.cacheFetch SampleCache.stringify SampleCache.node
                      SampleCache.no_redis None SampleCache.key (ret None) 1800
                      (SampleCache.empty 1000)))),
       []).
Proof.
  apply (cacheFetch_unreadable_entry unit unit SampleCache.stringify
           SampleCache.node SampleCache.no_redis SampleCache.key (ret None) 1800
           (SampleCache.empty 1000) (SampleCache.empty 1000)
           (SampleCache.later 60000
              (snd (fst (Cache.cacheFetch SampleCache.stringify SampleCache.node
                           SampleCache.no_redis None SampleCache.key (ret None)
                           1800 (SampleCache.empty 1000)))))
           None []).
  - reflexivity.
  - reflexivity.
  - reflexivity.
  - reflexivity.
  - vm_compute. discriminate.
Defined.

(** A value is fetched once and then served from the memory cache. *)
Example cacheFetch_twice :
  fst (fst (Cache.cacheFetch SampleCache.stringify SampleCache.node
              SampleCache.no_redis None SampleCache.key
              (throw "TMDB is down") 43200
              (SampleCache.later 60000
                 (snd (fst (Cache.cacheFetch SampleCache.stringify SampleCache.node
                              SampleCache.no_redis None SampleCache.key
                              (ret (Some (JString (js "Fight Club")))) 43200
                              (SampleCache.empty 1000)))))))
  = Return (Some (JString (js "Fight Club"))).
Proof. vm_compute. reflexivity. Qed.

(** With a client, a failure of the Redis helpers falls back to the fetcher
    itself, and to the memory cache for [cacheSet]. *)
Example cacheFetch_redis_down :
  Cache.cacheFetch SampleCache.stringify SampleCache.node SampleCache.no_redis
    (Some tt) SampleCache.key (ret (Some (JString (js "Fight Club")))) 43200
    (SampleCache.empty 1000)
  = (Return (Some (JString (js "Fight Club"))), SampleCache.empty 1000, []).
Proof. vm_compute. reflexivity. Qed.

(** ** The Redis client *)

(** X25. [retryStrategy] stops the reconnection from the third attempt on,
    and before that the delay is 200 ms times the number of the attempt: the
    ceiling of one second is never reached. *)
Theorem retryStrategy_gives_up_at_three times :
  (RedisClient.retryStrategy times = None <-> (3 <= times)%Z) /\
  ((times < 3)%Z -> RedisClient.retryStrategy times = Some (times * 200)%Z).
Proof.
  unfold RedisClient.retryStrategy, RedisClient.MAX_REDIS_CONNECTION_ATTEMPTS.
  destruct (times >=? 3)%Z eqn:E.
  - apply Z.geb_le in E. split; [tauto|lia].
  - rewrite Z.geb_leb in E. apply Z.leb_gt in E. split.
    + split; [discriminate|lia].
    + intros _. f_equal. lia.
Qed.

Lemma errors_at_end_nonneg reversed : (0 <= errors_at_end reversed)%Z.
Proof.
  induction reversed as [|[|] l IH]; cbn [errors_at_end]; lia.
Qed.

Lemma three_errors_snoc events ev :
  three_errors_in_a_row (events ++ [ev]) <->
  three_errors_in_a_row events \/
  (ev = RedisClient.Error /\ (2 <= errors_at_end (rev events))%Z).
Proof.
  split.
  - intros (before & later & E).
    destruct later as [|x later _] using rev_ind.
    + right. rewrite app_nil_r in E.
      change [RedisClient.Error; RedisClient.Error; RedisClient.Error]
        with ([RedisClient.Error; RedisClient.Error] ++ [RedisClient.Error]) in E.
      rewrite app_assoc in E. apply app_inj_tail in E as (-> & ->).
      split; [reflexivity|].
      rewrite rev_app_distr. cbn [rev app errors_at_end].
      pose proof (errors_at_end_nonneg (rev before)). lia.
    + left. rewrite !app_assoc in E. apply app_inj_tail in E as (-> & _).
      exists before, later. rewrite <- app_assoc. reflexivity.
  - intros [(before & later & ->)|(-> & H)].
    + exists before, (later ++ [ev]). rewrite <- !app_assoc. reflexivity.
    + destruct events as [|x events _] using rev_ind;
        [cbn in H; lia|].
      rewrite rev_app_distr in H. cbn [rev app errors_at_end] in H.
      destruct x; [|lia].
      destruct events as [|y events _] using rev_ind;
        [cbn in H; lia|].
      rewrite rev_app_distr in H. cbn [rev app errors_at_end] in H.
      destruct y; [|lia].
      exists events, []. rewrite <- !app_assoc. reflexivity.
Qed.

(** X26. The Redis cache stays enabled exactly as long as the client has
    not reported three errors in a row: after any sequence of [error] and
    [connect] events the variable [redis] is null if and only if three
    [error] events came with no [connect] between them, and it is never set
    again. *)
Theorem redis_disabled_iff_three_errors (Redis : Type) (client : Redis) events :
  RedisClient.redis (RedisClient.after client events) = None
  <-> three_errors_in_a_row events.
Proof.
  unfold RedisClient.after.
  enough (H : (RedisClient.redis
                 (fold_left (@RedisClient.handle Redis) events
                    {| RedisClient.redis := Some client;
                       RedisClient.redisConnectionAttempts := 0 |}) = None
               <-> three_errors_in_a_row events) /\
              (three_errors_in_a_row events \/
               RedisClient.redisConnectionAttempts
                 (fold_left (@RedisClient.handle Redis) events
                    {| RedisClient.redis := Some client;
                       RedisClient.redisConnectionAttempts := 0 |})
               = errors_at_end (rev events))) by apply H.
  induction events as [|ev events IH] using rev_ind.
  - cbn. split; [|right; reflexivity]. split; [discriminate|].
    intros (before & later & E). destruct before; discriminate.
  - rewrite fold_left_app. cbn [fold_left].
    destruct IH as (IH1 & IH2).
    set (st := fold_left _ events _) in *.
    rewrite three_errors_snoc.
    rewrite rev_app_distr. cbn [rev app].
    destruct ev; cbn [RedisClient.handle errors_at_end].
    + unfold RedisClient.on_error, RedisClient.MAX_REDIS_CONNECTION_ATTEMPTS.
      destruct IH2 as [H3|Hn].
      * assert (Hnone : RedisClient.redis st = None) by (apply IH1; exact H3).
        split; [|left; left; exact H3].
        split; [intros _; left; exact H3|intros _].
        destruct (_ >=? 3)%Z; cbn [RedisClient.redis]; rewrite Hnone; reflexivity.
      * rewrite Hn.
        destruct (errors_at_end (rev events) + 1 >=? 3)%Z eqn:E;
          cbn [RedisClient.redis RedisClient.redisConnectionAttempts].
        -- apply Z.geb_le in E.
           split; [|left; right; split; [reflexivity|lia]].
           split; [intros _; right; split; [reflexivity|lia]|].
           intros _. destruct (RedisClient.redis st); reflexivity.
        -- rewrite Z.geb_leb in E. apply Z.leb_gt in E.
           split; [|right; reflexivity].
           rewrite IH1. split; [tauto|]. intros [H|(_ & H)]; [exact H|lia].
    + unfold RedisClient.on_connect.
      cbn [RedisClient.redis RedisClient.redisConnectionAttempts].
      split; [|right; reflexivity].
      rewrite IH1. split; [tauto|]. intros [H|(H & _)]; [exact H|discriminate].
Qed.

(** ** The episodes that the handler of [/tv] lists *)

Lemma lookup_insert season s number o :
  TvRoute.lookup season o = None ->
  TvRoute.lookup s (TvRoute.insert season number o)
  = if (season =? s)%Z then Some [number] else TvRoute.lookup s o.
Proof.
  induction o as [|(k, numbers) o IH]; cbn [TvRoute.insert TvRoute.lookup].
  - reflexivity.
  - destruct (k =? season)%Z eqn:E; [discriminate|]. intros Hnone.
    destruct (TvRoute.array_index season && _); cbn [TvRoute.lookup].
    + reflexivity.
    + rewrite (IH Hnone).
      destruct (k =? s)%Z eqn:Eks; [|reflexivity].
      apply Z.eqb_eq in Eks. subst s. rewrite Z.eqb_sym, E. reflexivity.
Qed.

Lemma lookup_append season s number o :
  TvRoute.lookup s (TvRoute.append season number o)
  = if (season =? s)%Z
    then option_map (fun numbers => numbers ++ [number]) (TvRoute.lookup s o)
    else TvRoute.lookup s o.
Proof.
  induction o as [|(k, numbers) o IH]; cbn [TvRoute.append TvRoute.lookup].
  - destruct (season =? s)%Z; reflexivity.
  - destruct (k =? season)%Z eqn:E; cbn [TvRoute.lookup].
    + apply Z.eqb_eq in E. subst k.
      destruct (season =? s)%Z; reflexivity.
    + rewrite IH. destruct (k =? s)%Z eqn:Eks; [|reflexivity].
      apply Z.eqb_eq in Eks. subst s. rewrite Z.eqb_sym, E. reflexivity.
Qed.

Lemma lookup_push_same season number o :
  TvRoute.lookup season (TvRoute.push season number o)
  = Some (match TvRoute.lookup season o with
          | Some numbers => numbers ++ [number]
          | None => [number]
          end).
Proof.
  unfold TvRoute.push.
  destruct (TvRoute.lookup season o) as [numbers|] eqn:E.
  - rewrite lookup_append, Z.eqb_refl, E. reflexivity.
  - rewrite (lookup_insert _ _ _ _ E), Z.eqb_refl. reflexivity.
Qed.

Lemma lookup_push_other season s number o :
  s <> season ->
  TvRoute.lookup s (TvRoute.push season number o) = TvRoute.lookup s o.
Proof.
  intros Hne. unfold TvRoute.push.
  assert (E : (season =? s)%Z = false) by (apply Z.eqb_neq; congruence).
  destruct (TvRoute.lookup season o) eqn:El.
  - rewrite lookup_append, E. reflexivity.
  - rewrite (lookup_insert _ _ _ _ El), E. reflexivity.
Qed.

Lemma availableSeasons_from eps : forall o season,
  TvRoute.lookup season
    (fold_left (fun o ep =>
                  TvRoute.push (number_or_0 (TvRoute.ep_season ep))
                               (number_or_0 (TvRoute.ep_number ep)) o) eps o)
  = match TvRoute.lookup season o, numbers_of_season season eps with
    | None, [] => None
    | None, numbers => Some numbers
    | Some before, numbers => Some (before ++ numbers)
    end.
Proof.
  unfold numbers_of_season.
  induction eps as [|ep eps IH]; intros o season; cbn [fold_left filter map].
  - destruct (TvRoute.lookup season o); [rewrite app_nil_r|]; reflexivity.
  - rewrite IH.
    destruct (number_or_0 (TvRoute.ep_season ep) =? season)%Z eqn:E.
    + apply Z.eqb_eq in E. rewrite E, lookup_push_same. cbn [map].
      destruct (TvRoute.lookup season o) as [before|].
      * rewrite <- app_assoc. reflexivity.
      * reflexivity.
    + apply Z.eqb_neq in E. rewrite lookup_push_other by congruence.
      reflexivity.
Qed.

(** X27. The listing that the handler of [/tv] sends when the episode is
    not found holds, under each season, the numbers of the episodes of that
    season in their order (a missing season or number counting as 0), and
    nothing else; and for a season and an episode number other than 0 the
    episode that was asked for is not in it. *)
Theorem availableSeasons_lists_what_was_not_asked eps :
  (forall season,
      TvRoute.lookup season (TvRoute.availableSeasons (Some eps))
      = match numbers_of_season season eps with
        | [] => None
        | numbers => Some numbers
        end) /\
  (forall season number,
      TvRoute.targetEpisode (Some eps) (Some season) (Some number) = None ->
      season <> 0%Z -> number <> 0%Z ->
      ~ In number (numbers_of_season season eps)).
Proof.
  split.
  - intros season. unfold TvRoute.availableSeasons. cbn [list_or_empty].
    rewrite availableSeasons_from. reflexivity.
  - intros season number Hnone Hs Hn Hin.
    unfold numbers_of_season in Hin. apply in_map_iff in Hin as (ep & Hnum & Hin).
    apply filter_In in Hin as (Hin & Hseason). apply Z.eqb_eq in Hseason.
    cbn [TvRoute.targetEpisode] in Hnone.
    pose proof (find_none _ _ Hnone ep Hin) as Hf. cbv beta in Hf.
    destruct (TvRoute.ep_season ep) as [a|]; cbn [number_or_0] in Hseason;
      [|congruence].
    destruct (TvRoute.ep_number ep) as [b|]; cbn [number_or_0] in Hnum;
      [|congruence].
    subst a b. cbn [TvRoute.strict_equal] in Hf. rewrite !Z.eqb_refl in Hf.
    discriminate.
Qed.

(** The seasons are listed as the keys of an object are: array indices
    ascending, then the other keys as they came. *)
Example keys_are_listed_in_order :
  TvRoute.push 1 7 (TvRoute.push (-1) 5 (TvRoute.push 1 4 (TvRoute.push 2 1 [])))
  = [(1, [4; 7]); (2, [1]); (-1, [5])]%Z.
Proof. vm_compute. reflexivity. Qed.

(** ** The ids of the test requests *)

Lemma pad_loop_spec target : forall fuel ids,
  (target <= Z.of_nat (length ids + fuel))%Z ->
  exists extra,
    LoadScript.pad_loop fuel target ids = Some (ids ++ extra) /\
    Z.of_nat (length (ids ++ extra)) = Z.max target (Z.of_nat (length ids)) /\
    forall i, i < length extra ->
              nth i extra 0%Z = (10000 + Z.of_nat (length ids + i))%Z.
Proof.
  induction fuel as [|fuel IH]; intros ids Hfuel; cbn [LoadScript.pad_loop].
  - replace (Z.of_nat (length ids) <? target)%Z with false
      by (symmetry; apply Z.ltb_ge; lia).
    exists []. rewrite app_nil_r. split; [reflexivity|]. split; [lia|].
    cbn [length]. lia.
  - destruct (Z.of_nat (length ids) <? target)%Z eqn:E.
    + apply Z.ltb_lt in E.
      destruct (IH (ids ++ [(10000 + Z.of_nat (length ids))%Z]))
        as (extra & H1 & H2 & H3).
      { rewrite length_app. cbn [length]. lia. }
      exists ((10000 + Z.of_nat (length ids))%Z :: extra).
      rewrite <- app_assoc in H1, H2. cbn [app] in H1, H2.
      split; [exact H1|]. split.
      * rewrite H2, length_app. cbn [length]. lia.
      * intros [|i] Hi; cbn [nth].
        -- rewrite Nat.add_0_r. reflexivity.
        -- cbn [length] in Hi. rewrite (H3 i) by lia.
           rewrite length_app. cbn [length]. f_equal. f_equal. lia.
    + apply Z.ltb_ge in E. exists []. rewrite app_nil_r.
      split; [reflexivity|]. split; [lia|]. cbn [length]. lia.
Qed.

(** X28. Whatever the list of TMDB ids and the integer target count, the
    loop of the script ends. For a target that is not negative the script
    ends up with exactly as many ids as the target: the first ones are the
    ids of the list, in order, and when the list is too short the rest is
    counted up from 10000 plus the position. For a negative target [slice]
    counts from the end: the ids are those of the list without its last
    [-TARGET_COUNT] ones and the loop adds nothing. *)
Theorem script_ids_has_target_count tmdbIds TARGET_COUNT :
  exists ids,
    LoadScript.ids tmdbIds TARGET_COUNT = Return ids /\
    ((0 <= TARGET_COUNT)%Z ->
     Z.of_nat (length ids) = TARGET_COUNT /\
     firstn (length tmdbIds) ids = firstn (Z.to_nat TARGET_COUNT) tmdbIds /\
     forall i, length tmdbIds <= i -> (Z.of_nat i < TARGET_COUNT)%Z ->
               nth i ids 0%Z = (10000 + Z.of_nat i)%Z) /\
    ((TARGET_COUNT < 0)%Z ->
     ids = firstn (length tmdbIds - Z.to_nat (- TARGET_COUNT)) tmdbIds).
Proof.
  unfold LoadScript.ids, LoadScript.slice_to.
  destruct (TARGET_COUNT <? 0)%Z eqn:Hneg.
  - apply Z.ltb_lt in Hneg.
    replace (Z.of_nat (length (firstn _ tmdbIds)) <? TARGET_COUNT)%Z with false
      by (symmetry; apply Z.ltb_ge; lia).
    eexists. split; [reflexivity|]. split; [lia|].
    intros _. f_equal. lia.
  - apply Z.ltb_ge in Hneg.
    set (t := Z.to_nat TARGET_COUNT).
    assert (Ht : TARGET_COUNT = Z.of_nat t) by (subst t; lia).
    destruct (Z.of_nat (length (firstn t tmdbIds)) <? TARGET_COUNT)%Z eqn:E.
    + apply Z.ltb_lt in E. rewrite length_firstn in E.
      assert (Hshort : length tmdbIds < t) by lia.
      rewrite firstn_all2 by lia.
      destruct (pad_loop_spec TARGET_COUNT t tmdbIds) as (extra & H1 & H2 & H3);
        [lia|].
      rewrite H1. exists (tmdbIds ++ extra). split; [reflexivity|].
      split; [|lia]. intros _. split; [lia|]. split.
      * apply firstn_app_exact. reflexivity.
      * intros i Hi Hi'. rewrite app_nth2 by lia.
        rewrite length_app in H2.
        rewrite H3 by lia. f_equal. f_equal. lia.
    + apply Z.ltb_ge in E. rewrite length_firstn in E.
      exists (firstn t tmdbIds). split; [reflexivity|].
      split; [|lia]. intros _.
      split; [rewrite length_firstn; lia|]. split.
      * rewrite firstn_firstn. f_equal. lia.
      * intros i Hi Hi'. lia.
Qed.

Example script_ids_on_short_lists :
  LoadScript.ids [550; 278; 238]%Z 5 = Return [550; 278; 238; 10003; 10004]%Z /\
  LoadScript.ids [550; 278; 238]%Z 2 = Return [550; 278]%Z /\
  LoadScript.ids [550; 278; 238]%Z (-1) = Return [550; 278]%Z.
Proof. repeat split; vm_compute; reflexivity. Qed.

(** ** The handlers of [/movie] and [/tv] *)

Section RouteFacts.

Variable W : Type.
Variable Redis : Type.
Variable JSON_stringify : Cache.cached_value -> option jsstring.
Variable P : primitives.
Variable cacheUtils : Cache.cacheUtils_module W Redis.
Variable remote : Routes.services.

Lemma property_of_string_field name x s :
  Routes.string_field name x = Some s ->
  Routes.property name x = Return (Some (JString s)).
Proof.
  unfold Routes.string_field, Routes.field, Routes.property.
  destruct x as [[| | | | |fields]|]; try discriminate.
  destruct (lookup_field name fields) as [[| | |s'| |]|]; try discriminate.
  intros H. injection H as ->. reflexivity.
Qed.

Ltac route_steps :=
  cbv beta iota zeta
      delta [bind await emit ret throw try_catch modify get lift Routes.send];
  rewrite ?app_nil_r.

(** The handler of [/movie] once the details of TMDB and the search results
    are there. *)
Lemma movie_route_steps redis req st tmdbDetails st1 trace raw results :
  Routes.getTMDBDetails JSON_stringify P cacheUtils remote redis
    (Routes.tmdbId req) (js "movie") st = (Return tmdbDetails, st1, trace) ->
  Routes.string_field (js "title") tmdbDetails = Some raw ->
  Routes.flixhq_search remote (Some (JString raw)) = Some results ->
  exists answer,
    Routes.movie JSON_stringify P cacheUtils remote redis req st
    = (answer, st1, trace) /\
    match Server.findBestFlixHQMatch P results (Routes.details_of tmdbDetails)
            (js "MOVIE") with
    | Return None =>
        answer = Return {| Routes.status := 404;
                           Routes.sent :=
                             Routes.ErrorBody
                               "Movie not found on FlixHQ after multiple attempts" |}
    | Return (Some m) =>
        match Routes.flixhq_fetchMediaInfo remote (Server.id m) with
        | Some movieInfo =>
            match Routes.episodes movieInfo with
            | Some (first :: _) =>
                match Routes.flixhq_fetchMovieEmbedLinks remote
                        (TvRoute.ep_id first)
                        (if truthy_string (Routes.serverName req)
                         then Routes.serverName req else None) with
                | Some embedLinks =>
                    exists b,
                      answer = Return {| Routes.status := 200;
                                         Routes.sent := Routes.MovieBody b |} /\
                      Routes.movie_sources b
                      = Routes.resultSources embedLinks (Routes.serverName req)
                | None =>
                    exists message,
                      answer = Return {| Routes.status := 500;
                                         Routes.sent :=
                                           Routes.InternalError message |}
                end
            | _ =>
                answer = Return {| Routes.status := 404;
                                   Routes.sent := Routes.NoSources tmdbDetails |}
            end
        | None =>
            exists message,
              answer = Return {| Routes.status := 500;
                                 Routes.sent := Routes.InternalError message |}
        end
    | Throw _ =>
        exists message,
          answer = Return {| Routes.status := 500;
                             Routes.sent := Routes.InternalError message |}
    | Diverge => answer = Diverge
    end.
Proof.
  intros Hdetails Htitle Hsearch.
  unfold Routes.movie. unfold try_catch, bind at 1. rewrite Hdetails.
  unfold bind at 1, lift at 1.
  rewrite (property_of_string_field _ _ _ Htitle).
  unfold bind at 1, await at 1. rewrite Hsearch. unfold ret at 1.
  unfold bind at 1, lift at 1.
  destruct (Server.findBestFlixHQMatch P results _ _) as [[m|]| |].
  - route_steps.
    destruct (Routes.flixhq_fetchMediaInfo remote (Server.id m))
      as [movieInfo|]; route_steps.
    2:{ eexists. split; [reflexivity|]. eexists. reflexivity. }
    destruct (Routes.episodes movieInfo) as [[|first rest]|]; route_steps.
    1,3: eexists; split; reflexivity.
    destruct (Routes.flixhq_fetchMovieEmbedLinks remote _ _) as [embedLinks|];
      route_steps.
    + eexists. split; [reflexivity|]. eexists. split; reflexivity.
    + eexists. split; [reflexivity|]. eexists. reflexivity.
  - route_steps. eexists. split; reflexivity.
  - route_steps. eexists. split; [reflexivity|]. eexists. reflexivity.
  - route_steps. eexists. split; reflexivity.
Qed.

(** X29. For a movie whose TMDB details give a title and a release year
    that is not blank, the handler of [/movie] answers 404, movie not found,
    when no search result of FlixHQ is a movie with a similar title and
    exactly that year; and an answer with status 200 carries the sources of
    the first episode of such a result. *)
Theorem movie_route_needs_exact_year redis req st tmdbDetails st1 trace raw date
        results :
  Routes.getTMDBDetails JSON_stringify P cacheUtils remote redis
    (Routes.tmdbId req) (js "movie") st = (Return tmdbDetails, st1, trace) ->
  Routes.string_field (js "title") tmdbDetails = Some raw ->
  Routes.string_field (js "release_date") tmdbDetails = Some date ->
  JsString.trim (firstn 4 date) <> [] ->
  Routes.flixhq_search remote (Some (JString raw)) = Some results ->
  ((forall m, In m results -> ~ exact_year_match P raw (firstn 4 date) m) ->
   Routes.movie JSON_stringify P cacheUtils remote redis req st
   = (Return {| Routes.status := 404;
                Routes.sent :=
                  Routes.ErrorBody
                    "Movie not found on FlixHQ after multiple attempts" |},
      st1, trace)) /\
  (forall b st' trace',
      Routes.movie JSON_stringify P cacheUtils remote redis req st
      = (Return {| Routes.status := 200; Routes.sent := Routes.MovieBody b |},
         st', trace') ->
      exists m movieInfo first rest embedLinks,
        In m results /\ exact_year_match P raw (firstn 4 date) m /\
        Routes.flixhq_fetchMediaInfo remote (Server.id m) = Some movieInfo /\
        Routes.episodes movieInfo = Some (first :: rest) /\
        Routes.flixhq_fetchMovieEmbedLinks remote (TvRoute.ep_id first)
          (if truthy_string (Routes.serverName req)
           then Routes.serverName req else None) = Some embedLinks /\
        Routes.movie_sources b
        = Routes.resultSources embedLinks (Routes.serverName req)).
Proof.
  intros Hdetails Htitle Hdate Hyear Hsearch.
  destruct (movie_route_steps redis req st tmdbDetails st1 trace raw results
              Hdetails Htitle Hsearch) as (answer & Hrun & Hanswer).
  rewrite (findBestFlixHQMatch_movie_with_year P results
             (Routes.details_of tmdbDetails) raw date Htitle Hdate Hyear)
    in Hanswer.
  assert (Hexact : forall m,
             find (fun m =>
                     Server.isTitleSimilarEnough P (Server.title m)
                       (toLowerCase P raw)
                     && Server.same_string (Server.flixYear m)
                          (Some (firstn 4 date)))
                  (filter (fun m => jsstring_eqb (Server.type m) (js "MOVIE"))
                          results) = Some m ->
             In m results /\ exact_year_match P raw (firstn 4 date) m).
  { intros m H. apply find_some in H as (Hin & Hm).
    apply filter_In in Hin as (Hin & Hty).
    apply andb_prop in Hm as (Hsim & Hsame).
    split; [exact Hin|]. repeat split.
    - apply jsstring_eqb_eq, Hty.
    - exact Hsim.
    - apply same_string_some, Hsame. }
  rewrite Hrun.
  destruct (find _ _) as [m|] eqn:Hm.
  - destruct (Hexact m eq_refl) as (Hin & Hx). split.
    + intros Hnone. exfalso. exact (Hnone m Hin Hx).
    + intros b st' trace' H. injection H as -> _ _.
      destruct (Routes.flixhq_fetchMediaInfo remote (Server.id m))
        as [movieInfo|] eqn:Hinfo;
        [|destruct Hanswer as (message & H); discriminate H].
      destruct (Routes.episodes movieInfo) as [[|first rest]|] eqn:Heps;
        try discriminate Hanswer.
      destruct (Routes.flixhq_fetchMovieEmbedLinks remote _ _)
        as [embedLinks|] eqn:Hlinks;
        [|destruct Hanswer as (message & H); discriminate H].
      destruct Hanswer as (b' & H & Hsources). injection H as <-.
      exists m, movieInfo, first, rest, embedLinks. auto 10.
  - split.
    + intros _. rewrite Hanswer. reflexivity.
    + intros b st' trace' H. rewrite Hanswer in H. discriminate H.
Qed.

(** X30. An answer of [/tv] with status 200 is for an episode of the
    listing whose season and number are the two numbers that [parseInt]
    returns for the parameters of the route (the double nearest to what the
    digits denote): when one of the two parameters is not a number, the
    handler never answers 200. *)
Theorem tv_route_answers_the_requested_episode redis req st b st' trace' :
  Routes.tv JSON_stringify P cacheUtils remote redis req st
  = (Return {| Routes.status := 200; Routes.sent := Routes.EpisodeBody b |},
     st', trace') ->
  exists seasonNum episodeNum tvShow tvInfo eps ep,
    JsString.parseInt (Routes.season req) = Some seasonNum /\
    JsString.parseInt (Routes.episode req) = Some episodeNum /\
    Routes.flixhq_fetchMediaInfo remote (Server.id tvShow) = Some tvInfo /\
    Routes.episodes tvInfo = Some eps /\ In ep eps /\
    TvRoute.ep_season ep = Some seasonNum /\
    TvRoute.ep_number ep = Some episodeNum /\
    Routes.tv_episode b = TvRoute.ep_title ep /\
    Routes.tv_season b = Some seasonNum /\
    Routes.tv_number b = Some episodeNum.
Proof.
  unfold Routes.tv. unfold try_catch, bind at 1.
  destruct (Routes.getTMDBDetails JSON_stringify P cacheUtils remote redis
              (Routes.tmdbId req) (js "tv") st) as [[[tmdbDetails| |] s1] t1];
    route_steps; try discriminate.
  destruct (Routes.json_truthy tmdbDetails); cbn [negb]; route_steps;
    try discriminate.
  destruct (Routes.flixhq_search remote _) as [results|]; route_steps;
    try discriminate.
  destruct (Server.findBestFlixHQMatch P results _ _) as [[tvShow|]| |];
    route_steps; try discriminate.
  destruct (Routes.flixhq_fetchMediaInfo remote (Server.id tvShow))
    as [tvInfo|] eqn:Hinfo; route_steps; try discriminate.
  destruct (TvRoute.targetEpisode (Routes.episodes tvInfo) _ _)
    as [ep|] eqn:Hep; route_steps; try discriminate.
  destruct (Routes.flixhq_fetchTvEpisodeEmbedLinks remote _ _)
    as [embedLinks|]; route_steps; try discriminate.
  intros H. injection H as <- _ _. cbn.
  unfold TvRoute.targetEpisode in Hep.
  destruct (Routes.episodes tvInfo) as [eps|] eqn:Heps; [|discriminate].
  apply find_some in Hep as (Hin & Hsame).
  apply andb_prop in Hsame as (Hseason & Hnumber).
  unfold TvRoute.strict_equal in Hseason, Hnumber.
  destruct (TvRoute.ep_season ep) as [a|] eqn:Ha; [|discriminate].
  destruct (JsString.parseInt (Routes.season req)) as [seasonNum|];
    [|discriminate].
  destruct (TvRoute.ep_number ep) as [n|] eqn:Hn; [|discriminate].
  destruct (JsString.parseInt (Routes.episode req)) as [episodeNum|];
    [|discriminate].
  apply Z.eqb_eq in Hseason, Hnumber. subst a n.
  exists seasonNum, episodeNum, tvShow, tvInfo, eps, ep.
  repeat split; assumption || reflexivity.
Qed.

End RouteFacts.

Lemma movie_route_needs_exact_year_witness :
  ((forall m,
       In m [SampleCatalog.heat_2023; SampleRoutes.kitchen_wars;
             SampleCatalog.heat_1995] ->
       ~ exact_year_match SampleCache.node (js "Heat")
           (firstn 4 (js "1995-12-15")) m) ->
   SampleRoutes.movie SampleRoutes.movie_request (SampleCache.empty 0)
   = (Return {| Routes.status := 404;
                Routes.sent :=
                  Routes.ErrorBody
                    "Movie not found on FlixHQ after multiple attempts" |},
      snd (fst (SampleRoutes.getTMDBDetails (js "949") (js "movie")
                  (SampleCache.empty 0))),
      snd (SampleRoutes.getTMDBDetails (js "949") (js "movie")
             (SampleCache.empty 0)))) /\
  (forall b st' trace',
      SampleRoutes.movie SampleRoutes.movie_request (SampleCache.empty 0)
      = (Return {| Routes.status := 200; Routes.sent := Routes.MovieBody b |},
         st', trace') ->
      exists m movieInfo first rest embedLinks,
        In m [SampleCatalog.heat_2023; SampleRoutes.kitchen_wars;
              SampleCatalog.heat_1995] /\
        exact_year_match SampleCache.node (js "Heat")
          (firstn 4 (js "1995-12-15")) m /\
        Routes.flixhq_fetchMediaInfo SampleRoutes.remote (Server.id m)
        = Some movieInfo /\
        Routes.episodes movieInfo = Some (first :: rest) /\
        Routes.flixhq_fetchMovieEmbedLinks SampleRoutes.remote
          (TvRoute.ep_id first) None = Some embedLinks /\
        Routes.movie_sources b = Routes.resultSources embedLinks None).
Proof.
  apply (movie_route_needs_exact_year unit unit SampleCache.stringify
           SampleCache.node SampleCache.no_redis SampleRoutes.remote None
           SampleRoutes.movie_request (SampleCache.empty 0)
           (Some SampleRoutes.heat_details)).
  - vm_compute. reflexivity.
  - vm_compute. reflexivity.
  - vm_compute. reflexivity.
  - vm_compute. discriminate.
  - reflexivity.
Defined.

Lemma tv_route_answers_the_requested_episode_witness :
  exists seasonNum episodeNum tvShow tvInfo eps ep,
    JsString.parseInt (js "1") = Some seasonNum /\
    JsString.parseInt (js "2") = Some episodeNum /\
    Routes.flixhq_fetchMediaInfo SampleRoutes.remote (Server.id tvShow)
    = Some tvInfo /\
    Routes.episodes tvInfo = Some eps /\ In ep eps /\
    TvRoute.ep_season ep = Some seasonNum /\
    TvRoute.ep_number ep = Some episodeNum /\
    Routes.tv_episode SampleRoutes.second_episode = TvRoute.ep_title ep /\
    Routes.tv_season SampleRoutes.second_episode = Some seasonNum /\
    Routes.tv_number SampleRoutes.second_episode = Some episodeNum.
Proof.
  apply (tv_route_answers_the_requested_episode unit unit SampleCache.stringify
           SampleCache.node SampleCache.no_redis SampleRoutes.remote None
           (SampleRoutes.request "1" "2") (SampleCache.empty 0)
           SampleRoutes.second_episode
           (snd (fst (SampleRoutes.tv (SampleRoutes.request "1" "2")
                        (SampleCache.empty 0))))
           (snd (SampleRoutes.tv (SampleRoutes.request "1" "2")
                   (SampleCache.empty 0)))).
  vm_compute. reflexivity.
Defined.

(** Over the sample services, [/movie/949] answers with the stream of the
    film of 1995, and [/tv/949/x/2] with status 404. *)
Example movie_route_sample :
  exists b st' trace',
    SampleRoutes.movie SampleRoutes.movie_request (SampleCache.empty 0)
    = (Return {| Routes.status := 200; Routes.sent := Routes.MovieBody b |},
       st', trace') /\
    Routes.movie_sources b
    = [JObject [(js "server", JString (js "unknown"));
                (js "url", JString (js "https://cdn/x.m3u8"));
                (js "isM3U8", JBool true);
                (js "subtitles", JArray [])]].
Proof. eexists. eexists. eexists. split; vm_compute; reflexivity. Qed.

Example tv_route_season_not_a_number :
  fst (fst (SampleRoutes.tv (SampleRoutes.request "x" "2") (SampleCache.empty 0)))
  = Return {| Routes.status := 404;
              Routes.sent :=
                Routes.EpisodeNotFound None (Some 2%Z)
                  [(1, [1; 2]); (2, [1])]%Z |}.
Proof. vm_compute. reflexivity. Qed.
